(** * marcel: the launch / builtin-dispatch / reaping core of the shell

    A shallow embedding of [src/execute.c] and of the SIGCHLD branch of
    [src/signals.c].  The shell is modelled from the point of view of one
    process executing the code: every system call is a function on an explicit
    [world] (descriptor table, kernel process groups, shell globals) that also
    appends to a log of the calls made.  What the operating system answers
    (may this path be opened, what does [fork] return next, ...) is read from
    the [os_env] record and from the [forks] queue of the world. *)

From stdpp Require Import base gmap sets list strings pretty.
From Stdlib Require Import ZArith Lia.

Open Scope Z_scope.

(** ** Data model ([ds/proc.h], as used by [execute.c]) *)

(** One pipeline stage.  [env] entries are the [NAME\0VALUE] pairs of the
    source; [fds] is the three-slot descriptor table. *)
Record proc := {
  argv : list string;
  env : list (string * string);
  fds : list Z;
  pid : Z;
  completed : bool;
  exit_code : Z
}.

(** One entry of [j->io]: an optional path and the flags for [open]. *)
Record io_spec := {
  path : option string;
  oflag : Z
}.

Record job := {
  procs : list proc;
  io : list io_spec;
  pgid : Z;
  bkg : bool
}.

(** What [new_cmd] of [ds/cmd.c] establishes for the descriptor table:
    [ret->fds[i] = i]. *)
Definition default_fds : list Z := [0; 1; 2].

Definition set_fd (i : nat) (fd : Z) (p : proc) : proc :=
  {| argv := argv p; env := env p; fds := <[i := fd]> (fds p);
     pid := pid p; completed := completed p; exit_code := exit_code p |}.

Definition set_pid (v : Z) (p : proc) : proc :=
  {| argv := argv p; env := env p; fds := fds p;
     pid := v; completed := completed p; exit_code := exit_code p |}.

Definition set_done (code : Z) (p : proc) : proc :=
  {| argv := argv p; env := env p; fds := fds p;
     pid := pid p; completed := true; exit_code := code |}.

(** ** Builtin bindings *)

(** The three functions of [builtin_funcs]; a [proc_func] value is a pointer
    to one of them. *)
Inductive proc_func := fn_m_cd | fn_m_exit | fn_m_help.

(** The kind tag is a C enumeration, hence an integer; [CMD] is its only
    named value. *)
Definition CMD : Z := 0.

Record builtin := {
  type : Z;
  cmd : proc_func
}.

Definition builtin_names : list string := ["cd"; "exit"; "help"]%string.
Definition builtin_funcs : list proc_func := [fn_m_cd; fn_m_exit; fn_m_help].

Definition filter_command (b : builtin) : bool := type b =? CMD.

(** Modelled from the spec: the hash table of [ds/hash_table.h] is not part
    of the sources at hand.  The spec describes it as a name-to-binding map
    with [register(name, function)] and
    [lookup(name, predicate) -> Option<function>] filtered by a predicate. *)
Definition new_table : gmap string builtin := ∅.

(** Modelled from the spec: [find_node] of [ds/hash_table.h], the lookup by
    name filtered by a predicate; a null key finds nothing. *)
Definition find_node (key : option string) (flt : builtin → bool)
    (t : gmap string builtin) : option builtin :=
  k ← key; b ← t !! k; if flt b then Some b else None.

(** ** The log of calls *)

Inductive event :=
| EvOpen (pth : string) (flags mode ret : Z)
| EvClose (fd : Z)
| EvPipe (r w : Z)
| EvPipeFail
| EvFork (ret : Z)
| EvSetpgid (p g : Z)
| EvTcsetpgrp (fd g : Z)
| EvResetIgnoredSignals
| EvUnsetenv (name : string)
| EvSetenv (name value : string) (ret : Z)
| EvDup2 (old new : Z)
| EvExecvp (file : string) (args : list string) (ret : Z)
| EvChdir (dir : string) (ret : Z)
| EvWrite (fd : Z) (data : string)
| EvStderr (msg : string)
| EvWaitForJob
| EvSendToBackground (cont : bool)
| EvSendToForeground (cont : bool)
| EvFormatJobInfo (msg : string).

(** What the next call of [fork] gives: failure with an errno, the parent's
    side with the pid of the child, or the child's side (where [fork]
    returns 0 and [getpid] is the new pid). *)
Inductive fork_result :=
| ForkFail (e : Z)
| ForkParent (child : positive)
| ForkChild (me : positive).

(** ** Environment and state *)

(** Answers of the operating system and the C library. *)
Record os_env := {
  os_fd_limit : Z;                      (* RLIMIT_NOFILE *)
  os_open_errno : string → Z → Z;       (* 0, or the errno [open] fails with *)
  os_chdir_errno : string → string → Z; (* 0, or the errno [chdir] fails with,
                                           for a working directory and a path *)
  os_getcwd_errno : string → Z;         (* 0, or the errno [getcwd] fails with,
                                           for a working directory *)
  os_resolve : string → string → string;
                                        (* the absolute path of the directory a
                                           path names in a working directory *)
  os_unset_fd : list event → Z * Z;     (* what an [int fd[2]] that [pipe] has
                                           not filled holds: (fd[0], fd[1]) *)
  os_setenv_errno : string → Z;         (* 0, or the errno [setenv] fails with *)
  os_exec_errno : string → Z;           (* 0, or the errno [execvp] fails with *)
  os_add_node_rc : string → Z;          (* status [add_node] reports for a key *)
  os_atexit_max : nat;                  (* ATEXIT_MAX *)
  os_strerror : Z → string
}.

(** Constants of headers that are not part of the sources at hand
    ([macros.h], [jobs.h]) and the version string of the build. *)
Record macros := {
  M_FAILED_EXEC : Z;
  M_FAILED_IO : Z;
  SHELL_TERM : Z;
  VERSION : string
}.

(** Functions registered with [atexit]. *)
Inductive exit_handler := cleanup_builtins.

Record world := {
  open_fds : gset Z;                    (* descriptors open in this process *)
  errno : Z;
  forks : list fork_result;             (* what [fork] will return, in order *)
  self : Z;                             (* [getpid ()] *)
  pgrp : gmap Z Z;                      (* kernel: process id to group id *)
  environ : gmap string string;
  cwd : string;
  atexit_handlers : list exit_handler;
  g_interactive : bool;                 (* [interactive] of jobs.h *)
  g_exit_code : Z;                      (* the global [exit_code] *)
  g_oldpwd : string;                    (* [oldpwd] *)
  g_lookup_table : gmap string builtin; (* [lookup_table] *)
  trace : list event                    (* newest first *)
}.

Definition log (e : event) (w : world) : world :=
  {| open_fds := open_fds w; errno := errno w; forks := forks w;
     self := self w; pgrp := pgrp w; environ := environ w; cwd := cwd w;
     atexit_handlers := atexit_handlers w;
     g_interactive := g_interactive w; g_exit_code := g_exit_code w;
     g_oldpwd := g_oldpwd w; g_lookup_table := g_lookup_table w;
     trace := e :: trace w |}.

Definition with_open_fds (s : gset Z) (w : world) : world :=
  {| open_fds := s; errno := errno w; forks := forks w;
     self := self w; pgrp := pgrp w; environ := environ w; cwd := cwd w;
     atexit_handlers := atexit_handlers w;
     g_interactive := g_interactive w; g_exit_code := g_exit_code w;
     g_oldpwd := g_oldpwd w; g_lookup_table := g_lookup_table w;
     trace := trace w |}.

Definition with_errno (e : Z) (w : world) : world :=
  {| open_fds := open_fds w; errno := e; forks := forks w;
     self := self w; pgrp := pgrp w; environ := environ w; cwd := cwd w;
     atexit_handlers := atexit_handlers w;
     g_interactive := g_interactive w; g_exit_code := g_exit_code w;
     g_oldpwd := g_oldpwd w; g_lookup_table := g_lookup_table w;
     trace := trace w |}.

Definition with_forks (fs : list fork_result) (w : world) : world :=
  {| open_fds := open_fds w; errno := errno w; forks := fs;
     self := self w; pgrp := pgrp w; environ := environ w; cwd := cwd w;
     atexit_handlers := atexit_handlers w;
     g_interactive := g_interactive w; g_exit_code := g_exit_code w;
     g_oldpwd := g_oldpwd w; g_lookup_table := g_lookup_table w;
     trace := trace w |}.

Definition with_self (me : Z) (w : world) : world :=
  {| open_fds := open_fds w; errno := errno w; forks := forks w;
     self := me; pgrp := pgrp w; environ := environ w; cwd := cwd w;
     atexit_handlers := atexit_handlers w;
     g_interactive := g_interactive w; g_exit_code := g_exit_code w;
     g_oldpwd := g_oldpwd w; g_lookup_table := g_lookup_table w;
     trace := trace w |}.

Definition with_pgrp (m : gmap Z Z) (w : world) : world :=
  {| open_fds := open_fds w; errno := errno w; forks := forks w;
     self := self w; pgrp := m; environ := environ w; cwd := cwd w;
     atexit_handlers := atexit_handlers w;
     g_interactive := g_interactive w; g_exit_code := g_exit_code w;
     g_oldpwd := g_oldpwd w; g_lookup_table := g_lookup_table w;
     trace := trace w |}.

Definition with_environ (m : gmap string string) (w : world) : world :=
  {| open_fds := open_fds w; errno := errno w; forks := forks w;
     self := self w; pgrp := pgrp w; environ := m; cwd := cwd w;
     atexit_handlers := atexit_handlers w;
     g_interactive := g_interactive w; g_exit_code := g_exit_code w;
     g_oldpwd := g_oldpwd w; g_lookup_table := g_lookup_table w;
     trace := trace w |}.

Definition with_cwd (d : string) (w : world) : world :=
  {| open_fds := open_fds w; errno := errno w; forks := forks w;
     self := self w; pgrp := pgrp w; environ := environ w; cwd := d;
     atexit_handlers := atexit_handlers w;
     g_interactive := g_interactive w; g_exit_code := g_exit_code w;
     g_oldpwd := g_oldpwd w; g_lookup_table := g_lookup_table w;
     trace := trace w |}.

Definition with_atexit (hs : list exit_handler) (w : world) : world :=
  {| open_fds := open_fds w; errno := errno w; forks := forks w;
     self := self w; pgrp := pgrp w; environ := environ w; cwd := cwd w;
     atexit_handlers := hs;
     g_interactive := g_interactive w; g_exit_code := g_exit_code w;
     g_oldpwd := g_oldpwd w; g_lookup_table := g_lookup_table w;
     trace := trace w |}.

Definition with_oldpwd (d : string) (w : world) : world :=
  {| open_fds := open_fds w; errno := errno w; forks := forks w;
     self := self w; pgrp := pgrp w; environ := environ w; cwd := cwd w;
     atexit_handlers := atexit_handlers w;
     g_interactive := g_interactive w; g_exit_code := g_exit_code w;
     g_oldpwd := d; g_lookup_table := g_lookup_table w;
     trace := trace w |}.

Definition with_lookup_table (t : gmap string builtin) (w : world) : world :=
  {| open_fds := open_fds w; errno := errno w; forks := forks w;
     self := self w; pgrp := pgrp w; environ := environ w; cwd := cwd w;
     atexit_handlers := atexit_handlers w;
     g_interactive := g_interactive w; g_exit_code := g_exit_code w;
     g_oldpwd := g_oldpwd w; g_lookup_table := t;
     trace := trace w |}.

(** errno values used by the model of the kernel. *)
Definition EMFILE : Z := 24.
Definition EAGAIN : Z := 11.

(** How a run of the launching code ends for the process executing it. *)
Inductive outcome :=
| Returned (code : Z)             (* [launch_job] returned to its caller *)
| ShellExit (code : Z)            (* [exit] was called: the [exit] builtin *)
| ChildExec (args : list string)  (* forked child: image replaced by [execvp] *)
| ChildExit (code : Z)            (* forked child: [_Exit] *)
| Unspecified.                    (* the source reads what is not there *)

(** Result of calling a builtin. *)
Inductive builtin_result :=
| BRet (v : Z)
| BExit (code : Z)
| BUnspecified.

(** ** System calls and the code of [execute.c] *)

Section Execute.

Context (hd : macros) (os : os_env).

(** Default mode with which to create files: [0666]. *)
Definition FILE_MASK : Z := 438.

(** POSIX hands out the lowest descriptor that is not open; there is none
    once the limit is reached. *)
Definition lowest_free (s : gset Z) : option Z :=
  snd <$> list_find (λ fd, fd ∉ s) (seqZ 0 (os_fd_limit os)).

Definition sys_open (pth : string) (flags mode : Z) (w : world) : Z * world :=
  let e := os_open_errno os pth flags in
  if e =? 0 then
    match lowest_free (open_fds w) with
    | Some fd =>
        (fd, log (EvOpen pth flags mode fd)
               (with_open_fds ({[fd]} ∪ open_fds w) w))
    | None => (-1, log (EvOpen pth flags mode (-1)) (with_errno EMFILE w))
    end
  else (-1, log (EvOpen pth flags mode (-1)) (with_errno e w)).

Definition sys_close (fd : Z) (w : world) : world :=
  log (EvClose fd) (with_open_fds (open_fds w ∖ {[fd]}) w).

(** [pipe (fd)]: on success the read end and the write end, both new. *)
Definition sys_pipe (w : world) : option (Z * Z) * world :=
  match lowest_free (open_fds w) with
  | Some r =>
      match lowest_free ({[r]} ∪ open_fds w) with
      | Some wr =>
          (Some (r, wr),
           log (EvPipe r wr) (with_open_fds ({[wr]} ∪ ({[r]} ∪ open_fds w)) w))
      | None => (None, log EvPipeFail (with_errno EMFILE w))
      end
  | None => (None, log EvPipeFail (with_errno EMFILE w))
  end.

(** [fork ()]: the value returned in the process that goes on executing the
    code.  A new process starts in the group of its parent. *)
Definition inherit_group (parent child : Z) (m : gmap Z Z) : gmap Z Z :=
  match m !! parent with
  | Some g => <[child := g]> m
  | None => m
  end.

Definition sys_fork (w : world) : Z * world :=
  match forks w with
  | [] => (-1, log (EvFork (-1)) (with_errno EAGAIN w))
  | ForkFail e :: fs =>
      (-1, log (EvFork (-1)) (with_errno e (with_forks fs w)))
  | ForkParent c :: fs =>
      (Z.pos c,
       log (EvFork (Z.pos c))
         (with_pgrp (inherit_group (self w) (Z.pos c) (pgrp w))
            (with_forks fs w)))
  | ForkChild me :: fs =>
      (0, log (EvFork 0)
            (with_pgrp (inherit_group (self w) (Z.pos me) (pgrp w))
               (with_self (Z.pos me) (with_forks fs w))))
  end.

(** [setpgid (p, g)]: a zero [p] stands for the caller, a zero [g] for the
    id of the process being moved.  The source ignores the status of the
    call; the model takes the call to succeed. *)
Definition sys_setpgid (p g : Z) (w : world) : world :=
  let target := if p =? 0 then self w else p in
  let group := if g =? 0 then target else g in
  log (EvSetpgid p g) (with_pgrp (<[target := group]> (pgrp w)) w).

Definition sys_tcsetpgrp (fd g : Z) (w : world) : world :=
  log (EvTcsetpgrp fd g) w.

(** [Stopif (cond, action, fmt, ...)] of macros.h prints the message on the
    error stream and then runs the action; this is the printing. *)
Definition Stopif_msg (msg : string) (w : world) : world :=
  log (EvStderr msg) w.

(** [fd_cleanup (fd_arr, n)] *)
Fixpoint fd_cleanup_from (i : Z) (fd_arr : list Z) (n : nat) (w : world)
    : world :=
  match n, fd_arr with
  | S n', fd :: rest =>
      fd_cleanup_from (i + 1) rest n'
        (if fd =? i then w else sys_close fd w)
  | _, _ => w
  end.

Definition fd_cleanup (fd_arr : list Z) (n : nat) (w : world) : world :=
  fd_cleanup_from 0 fd_arr n w.

(** Modelled from the spec: [add_node] of [ds/hash_table.h], the
    registration of a name.  It reports a status, 0 for success; when it
    fails (the environment decides) the table is left as it was. *)
Definition add_node (key : string) (b : builtin) (t : gmap string builtin)
    : Z * gmap string builtin :=
  if os_add_node_rc os key =? 0 then (0, <[key := b]> t)
  else (os_add_node_rc os key, t).

Definition sys_atexit (h : exit_handler) (w : world) : Z * world :=
  if (length (atexit_handlers w) <? os_atexit_max os)%nat
  then (0, with_atexit (h :: atexit_handlers w) w)
  else (-1, w).

(** [initialize_builtins ()]: the loop over [builtin_names], then the
    function. *)
Fixpoint add_builtins (names : list string) (funcs : list proc_func)
    (w : world) : bool * world :=
  match names, funcs with
  | name :: names', f :: funcs' =>
      let b := {| type := CMD; cmd := f |} in
      let '(rc, t) := add_node name b (g_lookup_table w) in
      let w1 := with_lookup_table t w in
      if rc =? 0 then add_builtins names' funcs' w1 else (false, w1)
  | _, _ => (true, w)
  end.

Definition initialize_builtins (w : world) : bool * world :=
  let w0 := with_lookup_table new_table w in
  let '(ok, w1) := add_builtins builtin_names builtin_funcs w0 in
  if ok then
    let '(rc, w2) := sys_atexit cleanup_builtins w1 in
    if rc =? 0 then (true, w2) else (false, w2)
  else (false, w1).

(** [Set_proc_group (JOB, PID, PGID)]: the new value of [PGID] and the
    world after the calls. *)
Definition Set_proc_group (j_bkg : bool) (PID PGID : Z) (w : world)
    : Z * world :=
  if g_interactive w then
    let PGID' := if PGID =? 0 then PID else PGID in
    let w1 := sys_setpgid PID PGID' w in
    let w2 := if j_bkg then w1 else sys_tcsetpgrp (SHELL_TERM hd) PGID' w1 in
    (PGID', w2)
  else (PGID, w).

(** [getcwd (oldpwd, PATH_MAX)], whose result [m_cd] does not look at: the
    absolute path of the working directory is stored in [oldpwd]; when the
    call fails [oldpwd] is left as it was. *)
Definition sys_getcwd (w : world) : world :=
  let e := os_getcwd_errno os (cwd w) in
  if e =? 0 then with_oldpwd (cwd w) w else with_errno e w.

(** The builtins.  [cwd] is the absolute path of the working directory, so
    after [chdir (dir)] it is what [dir] resolves to. *)
Definition m_cd (p : proc) (w : world) : builtin_result * world :=
  let dir0 :=
    match argv p !! 1%nat with
    | Some d => Some d
    | None => environ w !! "HOME"%string
    end in
  match dir0 with
  | None => (BUnspecified, w)          (* [strcmp] on a null pointer *)
  | Some d =>
      let old := bool_decide (d = "-"%string) in
      if old && bool_decide (g_oldpwd w = ""%string) then
        (BRet 1, Stopif_msg "OLDPWD not set" w)
      else
        let dir := if old then g_oldpwd w else d in
        let w1 := sys_getcwd w in
        let e := os_chdir_errno os (cwd w) dir in
        if e =? 0 then
          (BRet 0,
           log (EvChdir dir 0) (with_cwd (os_resolve os (cwd w) dir) w1))
        else
          let w2 := log (EvChdir dir (-1)) (with_errno e w1) in
          (BRet 1, Stopif_msg (os_strerror os (errno w2)) w2)
  end.

Definition m_exit (p : proc) (w : world) : builtin_result * world :=
  (BExit (g_exit_code w), w).

(** [help_msg], with the terminating null that [sizeof] counts in. *)
Definition help_msg : string :=
  ("Marcel the Shell (with shoes on) v. " +:+ VERSION hd +:+ "
" +:+ "Written by Chad Sharp
" +:+ "
" +:+ "This shell only fights when provoked.
" +:+ String Ascii.zero EmptyString)%string.

Definition m_help (p : proc) (w : world) : builtin_result * world :=
  match fds p !! 1%nat with
  | Some fd => (BRet 0, log (EvWrite fd help_msg) w)
  | None => (BUnspecified, w)
  end.

Definition call (f : proc_func) (p : proc) (w : world)
    : builtin_result * world :=
  match f with
  | fn_m_cd => m_cd p w
  | fn_m_exit => m_exit p w
  | fn_m_help => m_help p w
  end.

(** [exec_proc (p)]: runs in the forked child and never returns. *)
Fixpoint apply_env (es : list (string * string)) (w : world) : world :=
  match es with
  | [] => w
  | (e, value) :: es' =>
      let w1 := log (EvUnsetenv e) (with_environ (delete e (environ w)) w) in
      let err := os_setenv_errno os e in
      let w2 :=
        if err =? 0
        then log (EvSetenv e value 0)
               (with_environ (<[e := value]> (environ w1)) w1)
        else Stopif_msg
               ("Could not set the following variable " +:+ e +:+ " to "
                +:+ value)
               (log (EvSetenv e value (-1)) (with_errno err w1)) in
      apply_env es' w2
  end.

Definition sys_dup2 (old new : Z) (w : world) : world :=
  log (EvDup2 old new)
    (if bool_decide (old ∈ open_fds w)
     then with_open_fds ({[new]} ∪ open_fds w) w
     else w).

Fixpoint dup_fds (i : Z) (tab : list Z) (w : world) : world :=
  match tab with
  | [] => w
  | fd :: tab' => dup_fds (i + 1) tab' (sys_dup2 fd i w)
  end.

Definition exec_proc (p : proc) (w : world) : outcome * world :=
  let w1 := apply_env (env p) w in
  let w2 := dup_fds 0 (fds p) w1 in
  match argv p with
  | [] => (Unspecified, w2)
  | file :: _ =>
      let e := os_exec_errno os file in
      if e =? 0 then (ChildExec (argv p), log (EvExecvp file (argv p) 0) w2)
      else
        let w3 := log (EvExecvp file (argv p) (-1)) (with_errno e w2) in
        (ChildExit (M_FAILED_EXEC hd),
         Stopif_msg (os_strerror os (errno w3) +:+ ": " +:+ file) w3)
  end.

(** The body of the loop of [launch_job] from the lookup of the builtin to
    the end of the [if]: either the loop goes on ([None]) or the run of this
    process ends here. *)
Definition dispatch (j_bkg : bool) (j_pgid : Z) (p : proc) (w : world)
    : option outcome * proc * Z * world :=
  match find_node (head (argv p)) filter_command (g_lookup_table w) with
  | Some b =>
      match call (cmd b) p w with
      | (BRet v, w1) => (None, set_done v p, j_pgid, w1)
      | (BExit c, w1) => (Some (ShellExit c), p, j_pgid, w1)
      | (BUnspecified, w1) => (Some Unspecified, p, j_pgid, w1)
      end
  | None =>
      match head (argv p) with
      | None => (Some Unspecified, p, j_pgid, w)
      | Some _ =>
          let '(pid_, w1) := sys_fork w in
          if pid_ <? 0 then
            (Some (Returned (M_FAILED_EXEC hd)), p, j_pgid,
             Stopif_msg ("Could not fork process: "
                         +:+ os_strerror os (errno w1)) w1)
          else if pid_ =? 0 then
            let '(g, w2) := Set_proc_group j_bkg pid_ j_pgid w1 in
            let w3 := log EvResetIgnoredSignals w2 in
            let '(o, w4) := exec_proc p w3 in
            (Some o, p, g, w4)
          else
            let '(g, w2) := Set_proc_group j_bkg pid_ j_pgid w1 in
            (None, set_pid pid_ p, g, w2)
      end
  end.

(** One turn of the loop for the process [p] after its pipe, if any, has
    been set up: dispatch, then [fd_cleanup (p->fds, 3)]. *)
Definition launch_one (j_bkg : bool) (j_pgid : Z) (p : proc) (w : world)
    : option outcome * proc * Z * world :=
  let '(o, p', g, w1) := dispatch j_bkg j_pgid p w in
  match o with
  | Some _ => (o, p', g, w1)
  | None => (None, p', g, fd_cleanup (fds p') 3 w1)
  end.

(** [int fd[2]; pipe (fd);] as the loop has it: the status of [pipe] is not
    looked at, and [fd[0]] and [fd[1]] are used whatever it was.  After a
    call that failed they are what the array held before. *)
Definition pipe_fds (w : world) : Z * Z * world :=
  match sys_pipe w with
  | (Some (r, wr), w1) => (r, wr, w1)
  | (None, w1) => (os_unset_fd os (trace w1), w1)
  end.

(** The loop over [j->procs], at the process [p] followed by [rest].  The
    result lists the processes from [p] on as the loop leaves them. *)
Fixpoint launch_procs (j_bkg : bool) (j_pgid : Z) (p : proc)
    (rest : list proc) (w : world)
    : option outcome * list proc * Z * world :=
  match rest with
  | [] =>
      (* Do not create pipe for last process *)
      let '(o, p', g, w1) := launch_one j_bkg j_pgid p w in
      (o, [p'], g, w1)
  | p_next :: rest' =>
      let '(r, wr, w1) := pipe_fds w in
      let p1 := set_fd 1 wr p in
      let pn := set_fd 0 r p_next in
      let '(o, p', g, w2) := launch_one j_bkg j_pgid p1 w1 in
      match o with
      | Some _ => (o, p' :: pn :: rest', g, w2)
      | None =>
          let '(o', ps, g', w3) := launch_procs j_bkg g pn rest' w2 in
          (o', p' :: ps, g', w3)
      end
  end.

(** The loop that opens the redirections.  [io_fd] is the array being
    filled, [i] the index of the first entry of [specs]. *)
Fixpoint open_io (specs : list io_spec) (i : nat) (io_fd : list Z)
    (w : world) : option (list Z) * world :=
  match specs with
  | [] => (Some io_fd, w)
  | s :: specs' =>
      let '(io_fd1, w1) :=
        match path s with
        | Some pth =>
            let '(fd, w') := sys_open pth (oflag s) FILE_MASK w in
            (<[i := fd]> io_fd, w')
        | None => (io_fd, w)
        end in
      if bool_decide (io_fd1 !! i = Some (-1)) then
        (None, fd_cleanup io_fd1 i
                 (Stopif_msg (os_strerror os (errno w1)) w1))
      else open_io specs' (S i) io_fd1 w1
  end.

Definition with_procs (ps : list proc) (g : Z) (j : job) : job :=
  {| procs := ps; io := io j; pgid := g; bkg := bkg j |}.

(** What follows the loop: the job is handed to the job registry. *)
Definition dispose (j : job) (w : world) : world :=
  if negb (g_interactive w) then log EvWaitForJob w
  else if bkg j then
    log (EvFormatJobInfo "launched") (log (EvSendToBackground false) w)
  else log (EvSendToForeground false) w.

(** The three assignments between the two loops of [launch_job]; the first
    and the last process are one and the same when there is but one. *)
Definition bind_io (io_fd : list Z) (ps : list proc) : list proc :=
  let n := length ps in
  (* Set input fd in first process *)
  let ps1 := alter (set_fd 0 (default 0 (io_fd !! 0%nat))) 0%nat ps in
  (* Set output/error fds in last process *)
  let ps2 := alter (set_fd 1 (default 1 (io_fd !! 1%nat))) (n - 1)%nat ps1 in
  alter (set_fd 2 (default 2 (io_fd !! 2%nat))) (n - 1)%nat ps2.

Definition launch_job (j : job) (w : world) : outcome * job * world :=
  match open_io (io j) 0 default_fds w with
  | (None, w1) => (Returned (M_FAILED_IO hd), j, w1)
  | (Some io_fd, w1) =>
      match bind_io io_fd (procs j) with
      | [] => (Unspecified, j, w1)       (* [j->procs[0]] of an empty vector *)
      | p :: rest =>
          let '(o, ps, g, w2) := launch_procs (bkg j) (pgid j) p rest w1 in
          let j' := with_procs ps g j in
          match o with
          | Some out => (out, j', w2)
          | None => (Returned 0, j', dispose j' w2)
          end
      end
  end.

End Execute.

(** ** [handle_signals] of [signals.c] *)

(** Wait statuses as <sys/wait.h> encodes them. *)
Definition W_EXITCODE (ret sig : Z) : Z := Z.lor (Z.shiftl ret 8) sig.
Definition W_STOPCODE (sig : Z) : Z := Z.lor (Z.shiftl sig 8) 127.
Definition WEXITSTATUS (status : Z) : Z := Z.shiftr (Z.land status 65280) 8.
Definition WIFSTOPPED (status : Z) : bool := Z.land status 255 =? 127.
Definition WIFEXITED (status : Z) : bool := Z.land status 127 =? 0.

Inductive signo := SIGINT | SIGQUIT | SIGCHLD | SIGOTHER.

(** How the handler is left: by returning or through [siglongjmp]. *)
Inductive handler_exit := HReturn | HLongjmp.

Section Signals.

(** The state of children.c (the active child and the background jobs) and
    the three operations of children.h that the handler calls; neither is
    part of the sources at hand. *)
Context {children : Type}.
Context (get_active_child : children → Z).
Context (reset_active_child : children → children).
Context (del_bkg_proc : Z → children → nat * children).
Context (SIGINT_EXIT_CODE : Z).

(** The children of the shell as the kernel sees them: those with a status
    change not yet reported, in the order [waitpid] will report them, and the
    number of the others.  Beside it the shell's own state. *)
Record sigstate := {
  pending : list (positive * Z);
  quiet : nat;
  chld : children;
  sig_exit_code : Z;
  out : list string
}.

Definition with_chld (c : children) (s : sigstate) : sigstate :=
  {| pending := pending s; quiet := quiet s; chld := c;
     sig_exit_code := sig_exit_code s; out := out s |}.

Definition with_pending (l : list (positive * Z)) (s : sigstate) : sigstate :=
  {| pending := l; quiet := quiet s; chld := chld s;
     sig_exit_code := sig_exit_code s; out := out s |}.

Definition puts (line : string) (s : sigstate) : sigstate :=
  {| pending := pending s; quiet := quiet s; chld := chld s;
     sig_exit_code := sig_exit_code s; out := out s ++ [line] |}.

(** [waitpid (-1, &status, WNOHANG | WUNTRACED)]: the pid and the status.
    A child reported as stopped stays a child; any other reported child is
    gone.  Without anything to report the answer is 0 while children remain
    and -1 when there are none. *)
Definition sys_waitpid (s : sigstate) : Z * Z * sigstate :=
  match pending s with
  | (p, status) :: rest =>
      (Z.pos p, status,
       {| pending := rest;
          quiet := if WIFSTOPPED status then S (quiet s) else quiet s;
          chld := chld s; sig_exit_code := sig_exit_code s; out := out s |})
  | [] => (if (quiet s =? 0)%nat then -1 else 0, 0, s)
  end.

Definition completed_msg (job_num : nat) (status : Z) : string :=
  ("[" +:+ pretty job_num +:+ "] completed. Exit: "
   +:+ pretty (WEXITSTATUS status))%string.

(** The [for (;;)] of the [SIGCHLD] case; [fuel] bounds the number of
    turns. *)
Fixpoint sigchld_loop (fuel : nat) (first_iter : bool) (s : sigstate)
    : option sigstate :=
  match fuel with
  | O => None
  | S fuel' =>
      let '(p, status, s1) := sys_waitpid s in
      if p =? 0 then Some s1
      else if p =? -1 then
        Some (if first_iter then with_chld (reset_active_child (chld s1)) s1
              else s1)
      else if p =? get_active_child (chld s1) then
        sigchld_loop fuel' false (with_chld (reset_active_child (chld s1)) s1)
      else
        let '(job_num, c) := del_bkg_proc p (chld s1) in
        sigchld_loop fuel' false
          (puts (completed_msg job_num status) (with_chld c s1))
  end.

(** Each turn but the last takes one entry of [pending]. *)
Definition sigchld_fuel (s : sigstate) : nat := S (length (pending s)).

Definition handle_signals (sig : signo) (s : sigstate)
    : option (handler_exit * sigstate) :=
  match sig with
  | SIGINT =>
      Some (HLongjmp,
            puts "" {| pending := pending s; quiet := quiet s;
                       chld := chld s; sig_exit_code := SIGINT_EXIT_CODE;
                       out := out s |})
  | SIGQUIT => Some (HReturn, puts "
Quit (core dumped)" s)
  | SIGCHLD =>
      s' ← sigchld_loop (sigchld_fuel s) true s; Some (HReturn, s')
  | SIGOTHER => Some (HReturn, s)
  end.

(** The reaping as the design document words it, for comparison with the
    loop above: for each reaped pid, if it is the active child clear the
    tracking, otherwise remove it with the registry's removal by pid and
    report job number and exit status. *)
Fixpoint reap_by_spec (pend : list (positive * Z)) (c : children)
    (o : list string) : children * list string :=
  match pend with
  | [] => (c, o)
  | (p, status) :: rest =>
      if Z.pos p =? get_active_child c
      then reap_by_spec rest (reset_active_child c) o
      else
        reap_by_spec rest (del_bkg_proc (Z.pos p) c).2
          (o ++ [completed_msg (del_bkg_proc (Z.pos p) c).1 status])
  end.

(** The children that stay children after being reported. *)
Definition stopped_count (pend : list (positive * Z)) : nat :=
  length (filter (λ e, WIFSTOPPED e.2 = true) pend).

End Signals.

(** ** Notions used to state the properties *)

(** The descriptors of a table that differ from their index, for a table
    whose first slot has index [i]: those [fd_cleanup] closes. *)
Fixpoint owned_from (i : Z) (tab : list Z) : gset Z :=
  match tab with
  | [] => ∅
  | fd :: tab' => (if fd =? i then ∅ else {[fd]}) ∪ owned_from (i + 1) tab'
  end.

Definition owned (tab : list Z) : gset Z := owned_from 0 tab.

Fixpoint owned_all (ps : list proc) : gset Z :=
  match ps with
  | [] => ∅
  | p :: ps' => owned (fds p) ∪ owned_all ps'
  end.

(** What the loop of [launch_job] relies on when it reaches [p] with [rest]
    still to come: three slots in each table, and the slots a pipe is about
    to overwrite still hold their own index. *)
Fixpoint ready (p : proc) (rest : list proc) : Prop :=
  length (fds p) = 3%nat
  ∧ match rest with
    | [] => True
    | q :: rest' =>
        fds p !! 1%nat = Some 1 ∧ fds q !! 0%nat = Some 0 ∧ ready q rest'
    end.

(** Where the loop that opens the redirections stands at index [i]: the
    descriptors it opened so far are those [io_fd] owns, they are open beside
    [base], and the slots from [i] on still hold their index. *)
Definition io_inv (base : gset Z) (i : nat) (io_fd : list Z) (w : world)
    : Prop :=
  length io_fd = 3%nat
  ∧ (∀ k : nat, (i ≤ k < 3)%nat → io_fd !! k = Some (Z.of_nat k))
  ∧ base ⊆ open_fds w
  ∧ open_fds w ⊆ base ∪ owned io_fd
  ∧ base ## owned io_fd.

Definition is_open (e : event) : bool :=
  match e with EvOpen _ _ _ _ => true | _ => false end.

Definition is_close (e : event) : bool :=
  match e with EvClose _ => true | _ => false end.

(** The pipes created, oldest first, as (read end, write end). *)
Definition pipe_of (e : event) : option (Z * Z) :=
  match e with EvPipe r wr => Some (r, wr) | _ => None end.

Definition pipes_of (tr : list event) : list (Z * Z) :=
  omap pipe_of (rev tr).

(** The number of calls of [pipe] that have failed. *)
Definition is_pipe_fail (e : event) : bool :=
  match e with EvPipeFail => true | _ => false end.

Definition pipe_failures (tr : list event) : nat :=
  length (filter (λ e, is_pipe_fail e = true) tr).

(** The values returned by [fork], oldest first. *)
Definition fork_of (e : event) : option Z :=
  match e with EvFork ret => Some ret | _ => None end.

Definition forks_of (tr : list event) : list Z :=
  omap fork_of (rev tr).

(** What the call of [fork] that ended the loop of [launch_job] returned,
    if it was one that ended it: -1 for a return from within the loop, 0 in
    a child. *)
Definition fork_tail (o : option outcome) : list Z :=
  match o with
  | Some (Returned _) => [-1]
  | Some (ChildExec _) | Some (ChildExit _) => [0]
  | _ => []
  end.

(** The pid recorded for the first process of the list that has one. *)
Fixpoint first_forked (ps : list proc) : Z :=
  match ps with
  | [] => 0
  | p :: ps' => if pid p =? 0 then first_forked ps' else pid p
  end.

(** The pids recorded in a list of processes. *)
Definition forked_pids (ps : list proc) : list Z :=
  filter (λ x, x ≠ 0) (pid <$> ps).

(** The ways [launch_job] stays in the shell and gets to an end of its loop:
    the loop is done, or it returns from within. *)
Definition in_shell (o : option outcome) : Prop :=
  o = None ∨ ∃ c, o = Some (Returned c).

(** What the launch leaves of a process [q] of the job in [q'], given the
    builtin table [t]: a process whose first argument names a command
    builtin is completed, with the value some call of that builtin returned
    as exit code, and has no pid; any other process has the pid of a child
    and is otherwise as it was. *)
Definition launched_as (hd : macros) (os : os_env) (t : gmap string builtin)
    (q q' : proc) : Prop :=
  argv q' = argv q
  ∧ match find_node (head (argv q)) filter_command t with
    | Some bi =>
        completed q' = true ∧ pid q' = pid q
        ∧ ∃ q0 wq w1,
            argv q0 = argv q ∧ fds q0 = fds q'
            ∧ call hd os (cmd bi) q0 wq = (BRet (exit_code q'), w1)
    | None =>
        ∃ c : positive,
          pid q' = Z.pos c ∧ completed q' = completed q
          ∧ exit_code q' = exit_code q
    end.

(** Two processes that differ in their descriptor tables at most. *)
Definition same_but_fds (q q' : proc) : Prop :=
  argv q' = argv q ∧ env q' = env q ∧ pid q' = pid q
  ∧ completed q' = completed q ∧ exit_code q' = exit_code q.

(** A process as the parser hands it over, made by [new_cmd] and not yet
    launched; and a process that has been launched, as a builtin (completed)
    or as a child (with a pid). *)
Definition fresh_proc (p : proc) : Prop :=
  fds p = default_fds ∧ pid p = 0 ∧ completed p = false.

Definition launched (p : proc) : Prop :=
  completed p = true ∨ pid p ≠ 0.

#[global] Instance launched_dec (p : proc) : Decision (launched p).
Proof. unfold launched. apply _. Defined.

(** ** A concrete environment to run the model in

    The values of the two failure codes are picked for the examples; nothing
    below depends on them. *)

Definition ENOENT : Z := 2.

(** Path resolution in a file system without links: an absolute path names
    itself, any other path is taken from the working directory. *)
Definition resolve_path (dir pth : string) : string :=
  if String.prefix "/" pth then pth
  else if bool_decide (dir = "/"%string) then ("/" +:+ pth)%string
  else (dir +:+ "/" +:+ pth)%string.

Definition sample_os : os_env := {|
  os_fd_limit := 16;
  os_open_errno :=
    λ pth _, if bool_decide (pth = "/nonexistent/out"%string) then ENOENT else 0;
  os_chdir_errno := λ _ _, 0;
  os_getcwd_errno := λ _, 0;
  os_resolve := resolve_path;
  os_unset_fd := λ _, (0, 0);
  os_setenv_errno := λ _, 0;
  os_exec_errno :=
    λ file, if bool_decide (file = "nosuchcmd"%string) then ENOENT else 0;
  os_add_node_rc := λ _, 0;
  os_atexit_max := 32;
  os_strerror :=
    λ e, if e =? ENOENT then "No such file or directory"%string
         else if e =? EAGAIN then "Resource temporarily unavailable"%string
         else "Unknown error"%string
|}.

Definition sample_hd : macros :=
  {| M_FAILED_EXEC := 2; M_FAILED_IO := 4; SHELL_TERM := 0;
     VERSION := "1.0" |}.

(** The shell before [initialize_builtins]: descriptors 0, 1 and 2 open,
    interactive, alone in its process group. *)
Definition boot (fs : list fork_result) : world := {|
  open_fds := {[0; 1; 2]}; errno := 0; forks := fs; self := 50;
  pgrp := {[50 := 50]}; environ := {["HOME"%string := "/root"%string]};
  cwd := "/"; atexit_handlers := [];
  g_interactive := true; g_exit_code := 0; g_oldpwd := "";
  g_lookup_table := ∅; trace := []
|}.

Definition sample_world (fs : list fork_result) : world :=
  (initialize_builtins sample_os (boot fs)).2.

(** A process as [new_cmd] makes it, with the given arguments. *)
Definition new_proc (args : list string) : proc :=
  {| argv := args; env := []; fds := default_fds; pid := 0;
     completed := false; exit_code := 0 |}.

Definition no_redirect : io_spec := {| path := None; oflag := 0 |}.
Definition redirect (pth : string) (flags : Z) : io_spec :=
  {| path := Some pth; oflag := flags |}.

(** [cd -] *)
Definition job_cd_dash : job :=
  {| procs := [new_proc ["cd"; "-"]%string];
     io := [no_redirect; no_redirect; no_redirect]; pgid := 0; bkg := false |}.

(** [ls > out] *)
Definition job_ls_out : job :=
  {| procs := [new_proc ["ls"]%string];
     io := [no_redirect; redirect "out" 577; no_redirect];
     pgid := 0; bkg := false |}.

(** [ls < in | help | wc > out] *)
Definition job_pipeline : job :=
  {| procs := [new_proc ["ls"]%string; new_proc ["help"]%string;
               new_proc ["wc"]%string];
     io := [redirect "in" 0; redirect "out" 577; no_redirect];
     pgid := 0; bkg := false |}.

(** [ls > out 2> /nonexistent/out] *)
Definition job_bad_redirect : job :=
  {| procs := [new_proc ["ls"]%string];
     io := [no_redirect; redirect "out" 577; redirect "/nonexistent/out" 577];
     pgid := 0; bkg := false |}.

(** The runs the examples below look at. *)
Definition world_two_forks : world :=
  sample_world [ForkParent 100; ForkParent 101].

Definition world_no_fork : world := sample_world [ForkFail EAGAIN].

Definition run_pipeline : outcome * job * world :=
  launch_job sample_hd sample_os job_pipeline world_two_forks.

Definition run_cd_dash : outcome * job * world :=
  launch_job sample_hd sample_os job_cd_dash (sample_world []).

Definition run_ls_no_fork : outcome * job * world :=
  launch_job sample_hd sample_os job_ls_out world_no_fork.

(** Modelled from the spec: children.c is not part of the sources at hand.
    The spec has [get_active_child () / reset_active_child ()] for the
    tracked foreground child's pid and [del_bkg_proc (pid) -> job_number] to
    remove and identify a background job by pid.  This instance keeps the
    pid of the active child (0 for none) and the background jobs as pairs of
    job number and pid; it serves the examples only. *)
Record children_model := {
  active_child : Z;
  bkg_procs : list (nat * Z)
}.

Definition model_get_active_child (c : children_model) : Z := active_child c.

Definition model_reset_active_child (c : children_model) : children_model :=
  {| active_child := 0; bkg_procs := bkg_procs c |}.

Definition model_del_bkg_proc (p : Z) (c : children_model)
    : nat * children_model :=
  (default 0%nat ((λ e, e.2.1) <$> list_find (λ e, e.2 = p) (bkg_procs c)),
   {| active_child := active_child c;
      bkg_procs := filter (λ e, e.2 ≠ p) (bkg_procs c) |}).

(** A shell with child 100 in the foreground and jobs 1 and 2 in the
    background, when child 201 has been stopped by signal 20 and child 202
    has exited with status 3. *)
Definition sample_sigstate : sigstate := {|
  pending := [(201%positive, W_STOPCODE 20); (202%positive, W_EXITCODE 3 0)];
  quiet := 1;
  chld := {| active_child := 100; bkg_procs := [(1%nat, 201); (2%nat, 202)] |};
  sig_exit_code := 0;
  out := []
|}.

(** ** [setup_signals] of [signals.c] *)

(** [signals[]] *)
Definition signals : list signo := [SIGINT; SIGCHLD; SIGQUIT].

Section SetupSignals.

(** What the C library answers: does [sigemptyset] succeed, and does
    [sigaction] for a given signal. *)
Context (sigemptyset_ok : bool) (sigaction_ok : signo → bool).

(** The loop over [signals]; [installed] lists the signals [handle_signals]
    has been installed for, newest first. *)
Fixpoint install_handlers (sigs : list signo) (installed : list signo)
    : Z * list signo :=
  match sigs with
  | [] => (0, installed)
  | sig :: sigs' =>
      if sigaction_ok sig then install_handlers sigs' (sig :: installed)
      else (1, installed)
  end.

Definition setup_signals (installed : list signo) : Z * list signo :=
  if sigemptyset_ok then install_handlers signals installed
  else (1, installed).

End SetupSignals.

(** ** [ds/cmd.c] and [ds/dyn_array.h] *)

Module Cmd.

(** [struct dyn_array]; [data] is an array of [cap] pointers to strings, a
    null pointer being [None]. *)
Record dyn_array := {
  data : list (option string);
  cap : nat;
  num : nat
}.

(** The [cmd] of ds/cmd.h as ds/cmd.c uses it; the [next] pointers make a
    chain, here a list. *)
Record cmd := {
  argv : dyn_array;
  env : dyn_array;
  fds : list Z;
  wait : Z
}.

(** The [cmd_wrapper] of ds/cmd.h as ds/cmd.c uses it: the paths of [io] and
    the chain at [root]. *)
Record cmd_wrapper := {
  io_paths : list (option string);
  root : list cmd
}.

(** What [free] is called on. *)
Inductive freed :=
| FreeStr (s : string)
| FreeArray (a : dyn_array)
| FreeCmd (c : cmd)
| FreeWrapper.

(** [new_cmd ()], given what the two calls of [new_dyn_array] return. *)
Definition new_cmd (a e : dyn_array) : cmd :=
  {| argv := a; env := e; fds := [0; 1; 2]; wait := 1 |}.

(** The inner loop of [free_cmd], from index [j] on: while string [j] of
    the array is not null and [i] is less than the [cap] of the array that
    entry [j] of [a] points to, free string [j].  [slots] is what is left of
    the strings.  [caps] stands for the array [a]: for each entry the [cap]
    field of the array it points to, or [None] for an array that has been
    freed.  The result is [None] when a read goes past the end of the strings
    or of [a], or into a freed array. *)
Fixpoint free_strs (i j : nat) (caps : list (option nat))
    (slots : list (option string)) : option (list freed) :=
  match slots with
  | [] => None
  | None :: _ => Some []
  | Some s :: slots' =>
      match caps !! j with
      | Some (Some c) =>
          if (i <? c)%nat
          then (FreeStr s ::.) <$> free_strs i (S j) caps slots'
          else Some []
      | _ => None
      end
  end.

(** The body of the [while] of [free_cmd] for one [cmd]: the loop over
    [a = {&c->argv, &c->env}], then [Free (c)].  Modelled from the
    declaration: [free_dyn_array] of ds/dyn_array.h, whose code is not part
    of the sources at hand, frees the array it is given. *)
Definition free_one (c : cmd) : option (list freed) :=
  l0 ← free_strs 0 0 [Some (cap (argv c)); Some (cap (env c))]
         (data (argv c));
  l1 ← free_strs 1 0 [None; Some (cap (env c))] (data (env c));
  Some (l0 ++ [FreeArray (argv c)] ++ l1 ++ [FreeArray (env c)] ++ [FreeCmd c]).

(** [free_cmd (c)] for the chain that starts at [c]. *)
Fixpoint free_cmd (chain : list cmd) : option (list freed) :=
  match chain with
  | [] => Some []
  | c :: chain' =>
      l ← free_one c; l' ← free_cmd chain'; Some (l ++ l')
  end.

(** [free_cmd_wrapper (w)]; [None] for the null pointer. *)
Definition free_cmd_wrapper (w : option cmd_wrapper) : option (list freed) :=
  match w with
  | None => Some []
  | Some w =>
      l ← free_cmd (root w);
      Some (omap (λ o, FreeStr <$> o) (io_paths w) ++ l ++ [FreeWrapper])
  end.

(** The strings an array holds before its first null pointer. *)
Fixpoint strings_of (slots : list (option string)) : list string :=
  match slots with
  | Some s :: slots' => s :: strings_of slots'
  | _ => []
  end.

End Cmd.

(** ** More notions used to state properties *)

(** The calls that hand a job to the job registry. *)
Definition is_registry (e : event) : bool :=
  match e with
  | EvWaitForJob | EvSendToBackground _ | EvSendToForeground _
  | EvFormatJobInfo _ => true
  | _ => false
  end.

(** The events the loop over the processes may log, in a shell that is
    interactive or not, for a job that is in the background or not. *)
Definition loop_event (inter bg : bool) (e : event) : bool :=
  match e with
  | EvOpen _ _ _ _ => false
  | EvWaitForJob | EvSendToBackground _ | EvSendToForeground _
  | EvFormatJobInfo _ => false
  | EvSetpgid _ _ => inter
  | EvTcsetpgrp _ _ => inter && negb bg
  | _ => true
  end.

(** The events the opening of the redirections may log. *)
Definition io_event (e : event) : bool :=
  match e with
  | EvOpen _ _ _ _ | EvClose _ | EvStderr _ => true
  | _ => false
  end.

(** What [dispose] logs, newest first. *)
Definition handoff (inter bg : bool) : list event :=
  if negb inter then [EvWaitForJob]
  else if bg then [EvFormatJobInfo "launched"; EvSendToBackground false]
  else [EvSendToForeground false].

(** [w'] has the log of [w] and, on top of it, events that satisfy [P]. *)
Definition extends (P : event → bool) (w w' : world) : Prop :=
  ∃ new, trace w' = new ++ trace w ∧ Forall (λ e, P e = true) new.

(** An environment in which some calls fail. *)
Definition strict_os : os_env := {|
  os_fd_limit := 16;
  os_open_errno := λ _ _, 0;
  os_chdir_errno :=
    λ _ d, if bool_decide (d = "/nonexistent"%string) then ENOENT else 0;
  os_getcwd_errno :=
    λ d, if bool_decide (d = "/gone"%string) then ENOENT else 0;
  os_resolve := resolve_path;
  os_unset_fd := λ _, (0, 0);
  os_setenv_errno :=
    λ n, if bool_decide (n = "BAD=NAME"%string) then 22 else 0;
  os_exec_errno := λ _, ENOENT;
  os_add_node_rc :=
    λ n, if bool_decide (n = "exit"%string) then 1 else 0;
  os_atexit_max := 32;
  os_strerror := λ _, "error"%string
|}.

(** The shell of [sample_sigstate] when job 1, child 201, has been killed
    by signal 11 with a core dump instead. *)
Definition killed_sigstate : sigstate := {|
  pending := [(201%positive, Z.lor (W_EXITCODE 0 11) 128)];
  quiet := 1;
  chld := {| active_child := 100; bkg_procs := [(1%nat, 201); (2%nat, 202)] |};
  sig_exit_code := 0;
  out := []
|}.

(** A C library in which [sigaction] refuses [SIGQUIT]. *)
Definition refuse_sigquit (sig : signo) : bool :=
  match sig with SIGQUIT => false | _ => true end.

(** Arrays of four slots as the parser fills them, for the chain
    [FOO=1 ls -l | wc] and for one command with three words. *)
Definition array_of (l : list (option string)) : Cmd.dyn_array :=
  {| Cmd.data := l; Cmd.cap := length l;
     Cmd.num := length (Cmd.strings_of l) |}.

Definition cmd_ls : Cmd.cmd :=
  Cmd.new_cmd (array_of [Some "ls"; Some "-l"; None; None])
    (array_of [None; None; None; None]).

Definition cmd_wc : Cmd.cmd :=
  Cmd.new_cmd (array_of [Some "wc"; None; None; None])
    (array_of [None; None; None; None]).

Definition cmd_with_env : Cmd.cmd :=
  Cmd.new_cmd (array_of [Some "ls"; None; None; None])
    (array_of [Some "FOO=1"; None; None; None]).

Definition cmd_three_words : Cmd.cmd :=
  Cmd.new_cmd (array_of [Some "ls"; Some "-l"; Some "/"; None])
    (array_of [None; None; None; None]).

Definition wrapper_ls_wc : Cmd.cmd_wrapper :=
  {| Cmd.io_paths := [None; Some "out"; None];
     Cmd.root := [cmd_ls; cmd_wc] |}.

(** What [free_cmd] is meant to free for one [cmd]: the strings of [argv],
    the two arrays and the [cmd]. *)
Definition cmd_allocations (c : Cmd.cmd) : list Cmd.freed :=
  (Cmd.FreeStr <$> Cmd.strings_of (Cmd.data (Cmd.argv c)))
  ++ [Cmd.FreeArray (Cmd.argv c); Cmd.FreeArray (Cmd.env c); Cmd.FreeCmd c].

(** A [cmd] of at most two words and no environment override, in arrays
    that are not empty and end in a null pointer. *)
Definition small_cmd (c : Cmd.cmd) : Prop :=
  None ∈ Cmd.data (Cmd.argv c)
  ∧ (length (Cmd.strings_of (Cmd.data (Cmd.argv c))) ≤ 2)%nat
  ∧ head (Cmd.data (Cmd.env c)) = Some None
  ∧ (0 < Cmd.cap (Cmd.argv c))%nat ∧ (0 < Cmd.cap (Cmd.env c))%nat.

(** Where a launch of the processes [ps] that started in [w] has ended, in
    [w'] with outcome [o]: in a forked child only by executing the words of
    one of the processes that names no builtin, or by [_Exit] with
    [M_FAILED_EXEC]; in any other way only in the process that started
    it. *)
Definition child_or_shell (hd : macros) (ps : list proc) (w w' : world)
    (o : outcome) : Prop :=
  match o with
  | ChildExec args =>
      (∃ q, q ∈ ps ∧ argv q = args
            ∧ find_node (head args) filter_command (g_lookup_table w) = None)
      ∧ ∃ me, ForkChild me ∈ forks w ∧ self w' = Z.pos me
  | ChildExit c =>
      c = M_FAILED_EXEC hd
      ∧ ∃ me, ForkChild me ∈ forks w ∧ self w' = Z.pos me
  | _ => self w' = self w
  end.

(** [ls | wc &] *)
Definition job_bkg : job :=
  {| procs := [new_proc ["ls"]%string; new_proc ["wc"]%string];
     io := [no_redirect; no_redirect; no_redirect]; pgid := 0; bkg := true |}.

(** [help | cd /tmp] *)
Definition job_builtins : job :=
  {| procs := [new_proc ["help"]%string; new_proc ["cd"; "/tmp"]%string];
     io := [no_redirect; no_redirect; no_redirect]; pgid := 0; bkg := false |}.

Definition run_bkg : outcome * job * world :=
  launch_job sample_hd sample_os job_bkg world_two_forks.

Definition run_builtins : outcome * job * world :=
  launch_job sample_hd sample_os job_builtins world_two_forks.

(** The side of the child of the first fork of [ls | wc &]. *)
Definition world_child : world := sample_world [ForkChild 100].

Definition run_child : outcome * job * world :=
  launch_job sample_hd sample_os job_bkg world_child.

(** [ls | wc &] when the first fork fails. *)
Definition run_bkg_no_fork : outcome * job * world :=
  launch_job sample_hd sample_os job_bkg world_no_fork.

(** The files opened, oldest first, as (path, flags, mode). *)
Definition open_of (e : event) : option (string * Z * Z) :=
  match e with EvOpen pth fl m _ => Some (pth, fl, m) | _ => None end.

Definition opens_of (tr : list event) : list (string * Z * Z) :=
  omap open_of (rev tr).

(** What the redirections of a job ask to be opened. *)
Definition redirections (specs : list io_spec) : list (string * Z * Z) :=
  omap (λ s, (λ pth, (pth, oflag s, FILE_MASK)) <$> path s) specs.

(** [world_two_forks] for a shell that is not interactive. *)
Definition world_batch : world :=
  let w := world_two_forks in
  {| open_fds := open_fds w; errno := errno w; forks := forks w;
     self := self w; pgrp := pgrp w; environ := environ w; cwd := cwd w;
     atexit_handlers := atexit_handlers w;
     g_interactive := false; g_exit_code := 7;
     g_oldpwd := g_oldpwd w; g_lookup_table := g_lookup_table w;
     trace := trace w |}.

Definition run_batch : outcome * job * world :=
  launch_job sample_hd sample_os job_pipeline world_batch.

(** [ls | exit 3] *)
Definition job_exit : job :=
  {| procs := [new_proc ["ls"]%string; new_proc ["exit"; "3"]%string];
     io := [no_redirect; no_redirect; no_redirect]; pgid := 0; bkg := false |}.

Definition run_exit : outcome * job * world :=
  launch_job sample_hd sample_os job_exit world_batch.

(** [ls | wc] *)
Definition job_ls_wc : job :=
  {| procs := [new_proc ["ls"]%string; new_proc ["wc"]%string];
     io := [no_redirect; no_redirect; no_redirect]; pgid := 0; bkg := false |}.

(** [world_two_forks] for a shell that has every descriptor up to the limit
    open, so that [pipe] fails. *)
Definition world_full : world :=
  with_open_fds (list_to_set (seqZ 0 16)) world_two_forks.

Definition run_pipe_fails : outcome * job * world :=
  launch_job sample_hd sample_os job_ls_wc world_full.

(** [ls < in | help | wc > out] when the second [fork] fails. *)
Definition world_second_fork_fails : world :=
  sample_world [ForkParent 100; ForkFail EAGAIN].

Definition run_second_fork_fails : outcome * job * world :=
  launch_job sample_hd sample_os job_pipeline world_second_fork_fails.

(** * Properties *)

(** ** The builtin table *)

Section BuiltinFacts.

Context (os : os_env).

(** What [add_builtins] reports and leaves in the table depends on the table
    it starts from only. *)
Lemma add_builtins_table_only (names : list string) (funcs : list proc_func)
    (w w' : world) :
  g_lookup_table w = g_lookup_table w' →
  (add_builtins os names funcs w).1 = (add_builtins os names funcs w').1
  ∧ g_lookup_table (add_builtins os names funcs w).2
    = g_lookup_table (add_builtins os names funcs w').2.
Proof.
  revert funcs w w'. induction names as [|n names IH];
    intros [|f funcs] w w' Ht; simpl; try done.
  unfold add_node. rewrite Ht.
  destruct (os_add_node_rc os n =? 0) eqn:E; simpl; rewrite ?E; [|done].
  by apply IH.
Qed.

(** [initialize_builtins] starts from a new table, so what it leaves in
    [lookup_table] does not depend on the state it is called in. *)
Lemma initialize_builtins_table_fresh (w w' : world) :
  g_lookup_table (initialize_builtins os w).2
  = g_lookup_table (initialize_builtins os w').2.
Proof.
  unfold initialize_builtins.
  destruct (add_builtins_table_only builtin_names builtin_funcs
              (with_lookup_table new_table w) (with_lookup_table new_table w')
              eq_refl) as [Hok Ht].
  destruct (add_builtins os builtin_names builtin_funcs
              (with_lookup_table new_table w)) as [ok w1].
  destruct (add_builtins os builtin_names builtin_funcs
              (with_lookup_table new_table w')) as [ok' w1'].
  simpl in Hok, Ht. subst ok'. destruct ok; [|done].
  unfold sys_atexit.
  by destruct (_ <? _)%nat, (_ <? _)%nat.
Qed.

Lemma add_builtins_keeps (names : list string) (funcs : list proc_func)
    (w : world) :
  open_fds (add_builtins os names funcs w).2 = open_fds w
  ∧ atexit_handlers (add_builtins os names funcs w).2 = atexit_handlers w
  ∧ forks (add_builtins os names funcs w).2 = forks w
  ∧ trace (add_builtins os names funcs w).2 = trace w.
Proof.
  revert funcs w. induction names as [|n names IH]; intros [|f funcs] w;
    simpl; try (repeat split; reflexivity).
  unfold add_node. destruct (os_add_node_rc os n =? 0) eqn:E; simpl;
    rewrite ?E; [|repeat split; reflexivity].
  apply (IH funcs (with_lookup_table (<[n:={| type := CMD; cmd := f |}]>
                                        (g_lookup_table w)) w)).
Qed.

(** When no insertion fails, the table holds the names zipped with the
    functions, each with the kind [CMD]. *)
Lemma add_builtins_ok (names : list string) (funcs : list proc_func)
    (w : world) (w' : world) :
  add_builtins os names funcs w = (true, w') →
  g_lookup_table w'
  = foldl (λ t nf, <[nf.1 := {| type := CMD; cmd := nf.2 |}]> t)
      (g_lookup_table w) (zip names funcs).
Proof.
  revert funcs w. induction names as [|n names IH]; intros [|f funcs] w;
    simpl; try (intros [= <-]; done).
  unfold add_node. destruct (os_add_node_rc os n =? 0) eqn:E; simpl;
    rewrite ?E; [|done].
  intros H. by rewrite (IH _ _ H).
Qed.

Lemma initialize_builtins_ok (w w' : world) :
  initialize_builtins os w = (true, w') →
  g_lookup_table w'
  = {[ "cd"%string := {| type := CMD; cmd := fn_m_cd |};
       "exit"%string := {| type := CMD; cmd := fn_m_exit |};
       "help"%string := {| type := CMD; cmd := fn_m_help |} ]}
  ∧ atexit_handlers w' = cleanup_builtins :: atexit_handlers w.
Proof.
  unfold initialize_builtins.
  destruct (add_builtins os builtin_names builtin_funcs
              (with_lookup_table new_table w)) as [[] w1] eqn:E; [|done].
  pose proof (add_builtins_ok _ _ _ _ E) as Ht.
  pose proof (add_builtins_keeps builtin_names builtin_funcs
                (with_lookup_table new_table w)) as K.
  rewrite E in K. simpl in K. destruct K as (_ & Ka & _).
  unfold sys_atexit.
  destruct (_ <? _)%nat; simpl; [|done].
  intros [= <-]. simpl. split; [|by rewrite Ka].
  rewrite Ht. simpl. unfold new_table.
  apply map_eq. intros k.
  destruct (decide (k = "help"%string)) as [->|]; [by simplify_map_eq|].
  destruct (decide (k = "exit"%string)) as [->|]; [by simplify_map_eq|].
  destruct (decide (k = "cd"%string)) as [->|]; by simplify_map_eq.
Qed.

(** C9: [initialize_builtins] returns a boolean and is idempotent on the
    lookup table: after a second call the table is what the first call left
    (for whatever the first call found).  When the first call reports
    success, looking up any of the builtin names with [filter_command] finds
    the command-kind binding of its function, the table binds exactly the
    builtin names, and [cleanup_builtins] has been registered with
    [atexit]. *)
Theorem initialize_builtins_idempotent (w : world) :
  let r1 := initialize_builtins os w in
  let r2 := initialize_builtins os r1.2 in
  g_lookup_table r2.2 = g_lookup_table r1.2
  ∧ (r1.1 = true →
     (∀ (i : nat) (name : string) (f : proc_func),
        builtin_names !! i = Some name → builtin_funcs !! i = Some f →
        find_node (Some name) filter_command (g_lookup_table r1.2)
        = Some {| type := CMD; cmd := f |})
     ∧ dom (g_lookup_table r1.2) = list_to_set builtin_names
     ∧ cleanup_builtins ∈ atexit_handlers r1.2).
Proof.
  intros r1 r2. split.
  - apply initialize_builtins_table_fresh.
  - intros Hok. subst r1. clear r2.
    destruct (initialize_builtins os w) as [ok w1] eqn:E. simpl in *. subst ok.
    destruct (initialize_builtins_ok _ _ E) as [Ht Ha].
    rewrite Ht, Ha. split; [|split].
    + intros [|[|[|i]]] name f; simpl; intros [= <-] [= <-];
        unfold find_node; simpl; by simplify_map_eq.
    + rewrite !dom_insert_L, dom_singleton_L. simpl. set_solver.
    + left.
Qed.

End BuiltinFacts.

(** ** The SIGCHLD handler *)

Lemma WEXITSTATUS_stopped (sig : Z) :
  0 ≤ sig < 256 → WEXITSTATUS (W_STOPCODE sig) = sig.
Proof.
  intros H. assert (Hin : sig ∈ seqZ 0 256) by (apply elem_of_seqZ; lia).
  clear H. revert sig Hin. apply Forall_forall.
  refine (bool_decide_unpack (Forall _ _) _). vm_compute. exact I.
Qed.

Lemma WEXITSTATUS_exited (code : Z) :
  0 ≤ code < 256 → WEXITSTATUS (W_EXITCODE code 0) = code.
Proof.
  intros H. assert (Hin : code ∈ seqZ 0 256) by (apply elem_of_seqZ; lia).
  clear H. revert code Hin. apply Forall_forall.
  refine (bool_decide_unpack (Forall _ _) _). vm_compute. exact I.
Qed.

Section SignalFacts.

Context {children : Type}.
Context (get_active_child : children → Z).
Context (reset_active_child : children → children).
Context (del_bkg_proc : Z → children → nat * children).
Context (SIGINT_EXIT_CODE : Z).

Abbreviation loop := (sigchld_loop get_active_child reset_active_child del_bkg_proc).
Abbreviation by_spec := (reap_by_spec get_active_child reset_active_child del_bkg_proc).

(** One turn of the loop when [waitpid] has a child to report. *)
Lemma sigchld_loop_step (fuel : nat) (first : bool) (p : positive) (st : Z)
    (rest : list (positive * Z)) (q : nat) (c : children) (e : Z)
    (o : list string) :
  loop (S fuel) first
    {| pending := (p, st) :: rest; quiet := q; chld := c;
       sig_exit_code := e; out := o |}
  = if Z.pos p =? get_active_child c
    then loop fuel false
           {| pending := rest; quiet := if WIFSTOPPED st then S q else q;
              chld := reset_active_child c; sig_exit_code := e; out := o |}
    else loop fuel false
           {| pending := rest; quiet := if WIFSTOPPED st then S q else q;
              chld := (del_bkg_proc (Z.pos p) c).2; sig_exit_code := e;
              out := o ++ [completed_msg (del_bkg_proc (Z.pos p) c).1 st] |}.
Proof.
  cbn [sigchld_loop sys_waitpid pending chld]. cbn beta iota.
  change (Z.pos p =? 0) with false. change (Z.pos p =? -1) with false.
  cbn iota.
  destruct (Z.pos p =? get_active_child c); [done|].
  by destruct (del_bkg_proc (Z.pos p) c).
Qed.

(** One turn of the loop when [waitpid] has nothing to report. *)
Lemma sigchld_loop_done (fuel : nat) (first : bool) (q : nat) (c : children)
    (e : Z) (o : list string) :
  loop (S fuel) first
    {| pending := []; quiet := q; chld := c; sig_exit_code := e; out := o |}
  = Some {| pending := []; quiet := q;
            chld := if first && (q =? 0)%nat then reset_active_child c else c;
            sig_exit_code := e; out := o |}.
Proof. simpl. unfold sys_waitpid; simpl. by destruct (q =? 0)%nat, first. Qed.

Lemma stopped_count_cons (p : positive) (st : Z) (rest : list (positive * Z))
    (q : nat) :
  (q + stopped_count ((p, st) :: rest)
   = (if WIFSTOPPED st then S q else q) + stopped_count rest)%nat.
Proof.
  unfold stopped_count. rewrite filter_cons. simpl.
  destruct (WIFSTOPPED st); case_decide; try done; simpl; lia.
Qed.

(** After the first turn the loop is the reaping of the design document:
    with enough fuel it ends with nothing pending and no reset at the end. *)
Lemma sigchld_loop_later (pend : list (positive * Z)) (q : nat)
    (c : children) (e : Z) (o : list string) (fuel : nat) :
  (length pend < fuel)%nat →
  loop fuel false
    {| pending := pend; quiet := q; chld := c; sig_exit_code := e; out := o |}
  = Some {| pending := []; quiet := q + stopped_count pend;
            chld := (by_spec pend c o).1; sig_exit_code := e;
            out := (by_spec pend c o).2 |}.
Proof.
  revert q c o fuel. induction pend as [|[p st] rest IH]; intros q c o fuel Hf;
    (destruct fuel as [|fuel]; [simpl in Hf; lia|]).
  - rewrite sigchld_loop_done. simpl.
    by replace (q + stopped_count [])%nat with q
      by (unfold stopped_count; simpl; lia).
  - simpl in Hf. rewrite sigchld_loop_step, stopped_count_cons.
    cbn [reap_by_spec].
    destruct (Z.pos p =? get_active_child c); by rewrite IH by lia.
Qed.

(** The whole loop as the handler starts it. *)
Lemma sigchld_loop_first (s : sigstate) :
  loop (sigchld_fuel s) true s
  = Some
      match pending s with
      | [] =>
          if (quiet s =? 0)%nat
          then with_chld (reset_active_child (chld s)) s
          else s
      | _ =>
          {| pending := []; quiet := quiet s + stopped_count (pending s);
             chld := (by_spec (pending s) (chld s) (out s)).1;
             sig_exit_code := sig_exit_code s;
             out := (by_spec (pending s) (chld s) (out s)).2 |}
      end.
Proof.
  destruct s as [pend q c e o]. unfold sigchld_fuel.
  cbn [pending quiet chld sig_exit_code out].
  destruct pend as [|[p st] rest].
  - cbn [length]. rewrite sigchld_loop_done. simpl. by destruct (q =? 0)%nat.
  - cbn [length]. rewrite sigchld_loop_step, stopped_count_cons.
    cbn [reap_by_spec].
    destruct (Z.pos p =? get_active_child c);
      by rewrite sigchld_loop_later by lia.
Qed.

Abbreviation handler :=
  (handle_signals get_active_child reset_active_child del_bkg_proc
     SIGINT_EXIT_CODE).

(** C7: on SIGCHLD the handler always returns, and it returns with nothing
    left pending.  If the very first poll finds nothing to report, the
    active-child tracking is reset when there are no children at all and
    nothing happens when children remain.  Otherwise every reported child is
    handled in turn as in [reap_by_spec]: a pid equal to the active child
    resets the tracking and the polling goes on, any other pid is given to
    [del_bkg_proc] and a line with the job number and the exit status is
    printed; the report of no children that ends such a run resets
    nothing. *)
Theorem handle_sigchld_reaps (s : sigstate) :
  handler SIGCHLD s
  = Some (HReturn,
      match pending s with
      | [] =>
          if (quiet s =? 0)%nat
          then with_chld (reset_active_child (chld s)) s
          else s
      | _ =>
          {| pending := []; quiet := quiet s + stopped_count (pending s);
             chld := (by_spec (pending s) (chld s) (out s)).1;
             sig_exit_code := sig_exit_code s;
             out := (by_spec (pending s) (chld s) (out s)).2 |}
      end)
  ∧ ∃ s', handler SIGCHLD s = Some (HReturn, s') ∧ pending s' = [].
Proof.
  unfold handle_signals. rewrite sigchld_loop_first. simpl. split; [done|].
  eexists; split; [done|].
  destruct (pending s) eqn:E; [|done].
  destruct (quiet s =? 0)%nat; done.
Qed.

(** C10: a child reported as stopped whose pid is not the active child is
    handled as a background child that exited: its pid is given to
    [del_bkg_proc] and the line "[n] completed. Exit: sig" is printed, with
    the number of the stopping signal in the place of the exit status.  The
    shell's state and output after the handler are those it would have had,
    had the child exited with status [sig]. *)
Theorem stopped_child_reported_completed (s : sigstate) (p : positive)
    (sig : Z) (rest : list (positive * Z)) :
  pending s = (p, W_STOPCODE sig) :: rest →
  Z.pos p ≠ get_active_child (chld s) →
  0 ≤ sig < 256 →
  let n := (del_bkg_proc (Z.pos p) (chld s)).1 in
  let c1 := (del_bkg_proc (Z.pos p) (chld s)).2 in
  let line := ("[" +:+ pretty n +:+ "] completed. Exit: " +:+ pretty sig)%string in
  WIFSTOPPED (W_STOPCODE sig) = true
  ∧ WIFEXITED (W_STOPCODE sig) = false
  ∧ ∃ s1 s2,
      handler SIGCHLD s = Some (HReturn, s1)
      ∧ handler SIGCHLD (with_pending ((p, W_EXITCODE sig 0) :: rest) s)
        = Some (HReturn, s2)
      ∧ chld s1 = (by_spec rest c1 (out s ++ [line])).1
      ∧ out s1 = (by_spec rest c1 (out s ++ [line])).2
      ∧ chld s2 = chld s1
      ∧ out s2 = out s1.
Proof.
  intros Hp Ha Hs n c1 line.
  assert (Hin : sig ∈ seqZ 0 256) by (apply elem_of_seqZ; lia).
  assert (Hst : WIFSTOPPED (W_STOPCODE sig) = true
                ∧ WIFEXITED (W_STOPCODE sig) = false).
  { clear -Hin. revert sig Hin. apply Forall_forall.
    refine (bool_decide_unpack (Forall _ _) _). vm_compute. exact I. }
  destruct Hst as [Hst1 Hst2]. split; [done|]. split; [done|].
  unfold handle_signals. rewrite !sigchld_loop_first.
  cbn [with_pending pending quiet chld out sig_exit_code mbind option_bind].
  rewrite Hp. do 2 eexists. split; [done|]. split; [done|].
  cbn [chld out reap_by_spec fst snd].
  apply Z.eqb_neq in Ha. rewrite Ha.
  unfold completed_msg.
  rewrite WEXITSTATUS_stopped, WEXITSTATUS_exited by done.
  done.
Qed.

End SignalFacts.

(** ** Descriptors *)

Section ExecuteFacts.

Context (hd : macros) (os : os_env).

Ltac name_set t := let X := fresh "X" in set (X := t) in *; clearbody X.

Lemma lowest_free_fresh (s : gset Z) (fd : Z) :
  lowest_free os s = Some fd → fd ∉ s ∧ 0 ≤ fd.
Proof.
  unfold lowest_free. intros H.
  apply fmap_Some in H as [[i x] [H ->]].
  apply list_find_Some in H as (Hl & Hx & _).
  split; [done|]. simpl.
  apply lookup_seqZ in Hl. lia.
Qed.

Lemma sys_open_spec (pth : string) (flags mode : Z) (w : world) :
  let r := sys_open os pth flags mode w in
  (r.1 = -1 ∧ open_fds r.2 = open_fds w)
  ∨ (0 ≤ r.1 ∧ r.1 ∉ open_fds w ∧ open_fds r.2 = {[r.1]} ∪ open_fds w).
Proof.
  unfold sys_open. destruct (_ =? 0); [|by left].
  destruct (lowest_free os (open_fds w)) as [fd|] eqn:E; [|by left].
  apply lowest_free_fresh in E as [? ?]. by right.
Qed.

Lemma sys_pipe_spec (w w' : world) (r wr : Z) :
  sys_pipe os w = (Some (r, wr), w') →
  r ∉ open_fds w ∧ wr ∉ open_fds w ∧ r ≠ wr
  ∧ open_fds w' = {[wr]} ∪ ({[r]} ∪ open_fds w)
  ∧ trace w' = EvPipe r wr :: trace w
  ∧ pgrp w' = pgrp w ∧ forks w' = forks w ∧ self w' = self w
  ∧ g_lookup_table w' = g_lookup_table w
  ∧ g_interactive w' = g_interactive w.
Proof.
  unfold sys_pipe.
  destruct (lowest_free os (open_fds w)) as [r'|] eqn:E1; [|done].
  destruct (lowest_free os ({[r']} ∪ open_fds w)) as [w''|] eqn:E2; [|done].
  intros [= -> -> <-].
  apply lowest_free_fresh in E1 as [? ?].
  apply lowest_free_fresh in E2 as [? ?].
  simpl. repeat split; try done; set_solver.
Qed.

Lemma sys_pipe_fail (w w' : world) :
  sys_pipe os w = (None, w') → trace w' = EvPipeFail :: trace w.
Proof.
  unfold sys_pipe.
  destruct (lowest_free os (open_fds w)) as [r'|]; [|by intros [= <-]].
  destruct (lowest_free os ({[r']} ∪ open_fds w)) as [w''|]; [done|].
  by intros [= <-].
Qed.

Lemma fd_cleanup_from_open (i : Z) (tab : list Z) (n : nat) (w : world) :
  open_fds (fd_cleanup_from i tab n w)
  = open_fds w ∖ owned_from i (take n tab).
Proof.
  revert i n w. induction tab as [|fd tab IH]; intros i [|n] w; simpl;
    try set_solver.
  rewrite IH. destruct (fd =? i); simpl; set_solver.
Qed.


(** [fd_cleanup] touches the descriptor table and the log only. *)
Lemma fd_cleanup_from_keeps (i : Z) (tab : list Z) (n : nat) (w : world) :
  let w' := fd_cleanup_from i tab n w in
  pgrp w' = pgrp w ∧ forks w' = forks w ∧ self w' = self w
  ∧ g_lookup_table w' = g_lookup_table w
  ∧ g_interactive w' = g_interactive w
  ∧ pipes_of (trace w') = pipes_of (trace w)
  ∧ forks_of (trace w') = forks_of (trace w).
Proof.
  revert i n w. induction tab as [|fd tab IH]; intros i [|n] w; simpl;
    try done.
  destruct (IH (i + 1) n (if fd =? i then w else sys_close fd w))
    as (-> & -> & -> & -> & -> & -> & ->).
  destruct (fd =? i); simpl; [done|].
  unfold pipes_of, forks_of. simpl. rewrite !omap_app. simpl.
  by rewrite !app_nil_r.
Qed.


Lemma owned_from_insert (k : Z) (tab : list Z) (i : nat) (v : Z) :
  tab !! i = Some (k + Z.of_nat i) → v ≠ k + Z.of_nat i →
  owned_from k (<[i := v]> tab) = {[v]} ∪ owned_from k tab.
Proof.
  revert k i. induction tab as [|x tab IH]; intros k [|i]; simpl; try done.
  - intros [= ->] Hne. rewrite Z.add_0_r in Hne.
    rewrite Z.add_0_r, Z.eqb_refl.
    destruct (v =? k) eqn:E; [lia|set_solver].
  - intros Hl Hne. rewrite (IH (k + 1) i).
    + destruct (x =? k); set_solver.
    + rewrite Hl. f_equal. lia.
    + lia.
Qed.

(** ** The log *)

Lemma pipes_of_cons (e : event) (tr : list event) :
  pipes_of (e :: tr) = pipes_of tr ++ option_list (pipe_of e).
Proof.
  unfold pipes_of. simpl. rewrite omap_app. simpl.
  by destruct (pipe_of e).
Qed.

Lemma forks_of_cons (e : event) (tr : list event) :
  forks_of (e :: tr) = forks_of tr ++ option_list (fork_of e).
Proof.
  unfold forks_of. simpl. rewrite omap_app. simpl.
  by destruct (fork_of e).
Qed.

(** What a step leaves alone: descriptors, process groups, the queue of
    [fork] results, and the pipes and forks of the log. *)
Definition quiet_step (w w' : world) : Prop :=
  open_fds w' = open_fds w ∧ pgrp w' = pgrp w ∧ forks w' = forks w
  ∧ self w' = self w ∧ g_lookup_table w' = g_lookup_table w
  ∧ g_interactive w' = g_interactive w
  ∧ pipes_of (trace w') = pipes_of (trace w)
  ∧ forks_of (trace w') = forks_of (trace w).

Lemma quiet_step_refl (w : world) : quiet_step w w.
Proof. by repeat split. Qed.

Ltac quiet :=
  unfold quiet_step; simpl;
  rewrite ?pipes_of_cons, ?forks_of_cons; simpl; rewrite ?app_nil_r;
  repeat split; try reflexivity.

(** The builtins leave all of that alone. *)
Lemma call_quiet (f : proc_func) (p : proc) (w : world) :
  quiet_step w (call hd os f p w).2.
Proof.
  destruct f; simpl.
  - unfold m_cd, sys_getcwd. repeat case_match; quiet.
  - quiet.
  - unfold m_help. case_match; quiet.
Qed.

Lemma Set_proc_group_spec (b : bool) (PID PGID : Z) (w : world) :
  let r := Set_proc_group hd b PID PGID w in
  open_fds r.2 = open_fds w ∧ forks r.2 = forks w ∧ self r.2 = self w
  ∧ g_lookup_table r.2 = g_lookup_table w
  ∧ g_interactive r.2 = g_interactive w
  ∧ pipes_of (trace r.2) = pipes_of (trace w)
  ∧ forks_of (trace r.2) = forks_of (trace w)
  ∧ (if g_interactive w
     then r.1 = (if PGID =? 0 then PID else PGID)
          ∧ pgrp r.2
            = <[(if PID =? 0 then self w else PID) :=
                  (if r.1 =? 0
                   then (if PID =? 0 then self w else PID)
                   else r.1)]> (pgrp w)
     else r.1 = PGID ∧ pgrp r.2 = pgrp w).
Proof.
  unfold Set_proc_group. destruct (g_interactive w) eqn:Ei; simpl.
  - destruct b; simpl; rewrite ?pipes_of_cons, ?forks_of_cons; simpl;
      rewrite ?app_nil_r; by repeat split.
  - by repeat split.
Qed.

(** The turn of the loop for one process, when the loop goes on after it:
    either a command builtin was found and called, or a child was forked and
    this is the parent. *)
Lemma dispatch_continue (b : bool) (g : Z) (p : proc) (w : world)
    (p' : proc) (g' : Z) (w' : world) :
  dispatch hd os b g p w = (None, p', g', w') →
  fds p' = fds p ∧ argv p' = argv p
  ∧ open_fds w' = open_fds w ∧ self w' = self w
  ∧ g_lookup_table w' = g_lookup_table w
  ∧ g_interactive w' = g_interactive w
  ∧ pipes_of (trace w') = pipes_of (trace w)
  ∧ ((∃ bi v w1,
        find_node (head (argv p)) filter_command (g_lookup_table w) = Some bi
        ∧ call hd os (cmd bi) p w = (BRet v, w1)
        ∧ p' = set_done v p ∧ g' = g ∧ w' = w1
        ∧ forks w' = forks w ∧ pgrp w' = pgrp w
        ∧ forks_of (trace w') = forks_of (trace w))
     ∨ (∃ c fs,
        find_node (head (argv p)) filter_command (g_lookup_table w) = None
        ∧ forks w = ForkParent c :: fs ∧ forks w' = fs
        ∧ p' = set_pid (Z.pos c) p
        ∧ forks_of (trace w') = forks_of (trace w) ++ [Z.pos c]
        ∧ (if g_interactive w
           then g' = (if g =? 0 then Z.pos c else g)
                ∧ pgrp w'
                  = <[Z.pos c := g']>
                      (inherit_group (self w) (Z.pos c) (pgrp w))
           else g' = g
                ∧ pgrp w' = inherit_group (self w) (Z.pos c) (pgrp w)))).
Proof.
  unfold dispatch.
  destruct (find_node _ _ _) as [bi|] eqn:Ef.
  - destruct (call hd os (cmd bi) p w) as [[v|c|] w1] eqn:Ec; try done.
    intros [= <- <- <-].
    pose proof (call_quiet (cmd bi) p w) as Hq. rewrite Ec in Hq.
    destruct Hq as (?&?&?&?&?&?&?&?).
    repeat split; try done. left. by exists bi, v, w1.
  - destruct (head (argv p)) as [a0|]; [|done].
    unfold sys_fork.
    destruct (forks w) as [|[e|c|me] fs] eqn:Efk; simpl; try done;
      [|by destruct (Set_proc_group _ _ _ _ _) as [? ?],
             (exec_proc _ _ _ _) as [? ?]].
    pose proof (Set_proc_group_spec b (Z.pos c) g
                  (log (EvFork (Z.pos c))
                     (with_pgrp (inherit_group (self w) (Z.pos c) (pgrp w))
                        (with_forks fs w)))) as Hs.
    destruct (Set_proc_group hd b (Z.pos c) g _) as [g1 w2].
    simpl in Hs. destruct Hs as (?&?&?&?&?&Hp&Hf&Hg).
    intros [= <- <- <-].
    rewrite pipes_of_cons in Hp. rewrite forks_of_cons in Hf.
    simpl in Hp, Hf. rewrite app_nil_r in Hp.
    repeat split; try done. right. exists c, fs.
    repeat split; try done.
    destruct (g_interactive w); [|done].
    destruct Hg as [-> ->]. split; [done|].
    destruct (g =? 0) eqn:Eg; simpl; [done|].
    by rewrite Eg.
Qed.

(** ** Opening the redirections *)

Lemma owned_from_take (k : Z) (l : list Z) (i : nat) :
  (∀ j : nat, (i ≤ j < length l)%nat → l !! j = Some (k + Z.of_nat j)) →
  owned_from k (take i l) = owned_from k l.
Proof.
  revert k i. induction l as [|x l IH]; intros k [|i] H; simpl; try done.
  - pose proof (H 0%nat ltac:(simpl; lia)) as H0. simpl in H0.
    injection H0 as ->. rewrite Z.add_0_r, Z.eqb_refl.
    rewrite <- (IH (k + 1) 0%nat); [simpl; set_solver|].
    intros j Hj. pose proof (H (S j) ltac:(simpl; lia)) as Hj'.
    simpl in Hj'. rewrite Hj'. f_equal. lia.
  - rewrite IH; [done|]. intros j Hj.
    pose proof (H (S j) ltac:(simpl; lia)) as Hj'. simpl in Hj'.
    rewrite Hj'. f_equal. lia.
Qed.

Lemma fd_cleanup_from_trace (i : Z) (tab : list Z) (n : nat) (w : world) :
  ∃ closes, trace (fd_cleanup_from i tab n w) = closes ++ trace w
            ∧ Forall (λ e, is_close e = true) closes.
Proof.
  revert i n w. induction tab as [|fd tab IH]; intros i [|n] w; simpl;
    try (by exists []).
  destruct (IH (i + 1) n (if fd =? i then w else sys_close fd w))
    as (cl & -> & Hcl).
  destruct (fd =? i); simpl; [by exists cl|].
  exists (cl ++ [EvClose fd]). rewrite <- app_assoc. split; [done|].
  apply Forall_app. split; [done|]. by constructor.
Qed.

(** One turn of the loop that opens the redirections. *)
Lemma open_io_turn (base : gset Z) (i : nat) (io_fd : list Z) (w : world)
    (s : io_spec) :
  io_inv base i io_fd w → (i < 3)%nat → Z.of_nat i ∈ base →
  let r :=
    match path s with
    | Some pth =>
        let '(fd, w') := sys_open os pth (oflag s) FILE_MASK w in
        (<[i := fd]> io_fd, w')
    | None => (io_fd, w)
    end in
  pgrp r.2 = pgrp w ∧ forks r.2 = forks w ∧ self r.2 = self w
  ∧ g_lookup_table r.2 = g_lookup_table w
  ∧ g_interactive r.2 = g_interactive w
  ∧ pipes_of (trace r.2) = pipes_of (trace w)
  ∧ forks_of (trace r.2) = forks_of (trace w)
  ∧ ((r.1 !! i = Some (-1)
      ∧ (∃ pth, path s = Some pth
           ∧ trace r.2 = EvOpen pth (oflag s) FILE_MASK (-1) :: trace w
           ∧ errno r.2
             = (if os_open_errno os pth (oflag s) =? 0 then EMFILE
                else os_open_errno os pth (oflag s)))
      ∧ r.1 = <[i := -1]> io_fd ∧ open_fds r.2 = open_fds w)
     ∨ (r.1 !! i ≠ Some (-1)
        ∧ (∃ opens, trace r.2 = opens ++ trace w
                    ∧ Forall (λ e, is_open e = true) opens)
        ∧ (∀ pth, path s = Some pth → os_open_errno os pth (oflag s) = 0)
        ∧ io_inv base (S i) r.1 r.2)).
Proof.
  intros (Hl & Hdef & Hb & Ho & Hd) Hi Hin.
  destruct (path s) as [pth|]; simpl.
  - unfold sys_open.
    destruct (os_open_errno os pth (oflag s) =? 0) eqn:Ee; simpl.
    + destruct (lowest_free os (open_fds w)) as [fd|] eqn:Elf; simpl;
        rewrite ?pipes_of_cons, ?forks_of_cons; simpl; rewrite ?app_nil_r.
      * repeat split; try done. right.
        apply lowest_free_fresh in Elf as [Hfr Hpos].
        rewrite list_lookup_insert_eq by lia.
        split; [intros [= ->]; lia|].
        split; [exists [EvOpen pth (oflag s) FILE_MASK fd];
                split; [done|by repeat constructor]|].
        split; [intros ? [= <-]; lia|].
        assert (Hne : fd ≠ Z.of_nat i) by set_solver.
        assert (Hown : owned (<[i := fd]> io_fd) = {[fd]} ∪ owned io_fd).
        { apply (owned_from_insert 0); [|lia]. rewrite Hdef by lia.
          f_equal. }
        unfold io_inv. rewrite length_insert, Hown. simpl.
        split; [done|]. split.
        { intros k Hk. rewrite list_lookup_insert_ne by lia.
          apply Hdef. lia. }
        clear -Hb Ho Hd Hfr. name_set (open_fds w). name_set (owned io_fd).
        set_solver.
      * repeat split; try done. left.
        rewrite list_lookup_insert_eq by lia.
        repeat split; try done. exists pth. by rewrite Ee.
    + rewrite ?pipes_of_cons, ?forks_of_cons; simpl; rewrite ?app_nil_r.
      repeat split; try done. left.
      rewrite list_lookup_insert_eq by lia.
      repeat split; try done. exists pth. by rewrite Ee.
  - repeat split; try done. right.
    rewrite Hdef by lia. split; [intros [= ?]; lia|].
    split; [by exists []|]. split; [done|].
    unfold io_inv. repeat split; try done.
    intros k Hk. apply Hdef. lia.
Qed.


(** Every path of a run of the loop that does not fail is one the system
    lets open. *)
Lemma open_io_paths (base : gset Z) (specs : list io_spec) :
  ∀ (i : nat) (io_fd : list Z) (w : world) (res : list Z) (w' : world),
    0 ∈ base → 1 ∈ base → 2 ∈ base →
    (i + length specs ≤ 3)%nat →
    io_inv base i io_fd w →
    open_io os specs i io_fd w = (Some res, w') →
    Forall (λ s, ∀ pth, path s = Some pth →
                        os_open_errno os pth (oflag s) = 0) specs.
Proof.
  induction specs as [|s specs IH]; intros i io_fd w res w' H0 H1 H2 Hi Hinv;
    [by constructor|].
  simpl in Hi. cbn [open_io].
  assert (Hin : Z.of_nat i ∈ base).
  { destruct i as [|[|[|i]]]; [done|done|done|lia]. }
  pose proof (open_io_turn base i io_fd w s Hinv ltac:(lia) Hin) as Ht.
  destruct (match path s with Some _ => _ | None => _ end) as [io_fd1 w1].
  simpl in Ht. destruct Ht as (_ & _ & _ & _ & _ & _ & _ & Ht).
  case_bool_decide as Hm; [done|].
  destruct Ht as [[? _]|(_ & _ & Hp & Hinv')]; [done|].
  intros Hrec. constructor; [done|].
  eapply IH; [done|done|done| |exact Hinv'|exact Hrec]. lia.
Qed.

(** When some redirection does not open: everything opened before it is
    closed again, and the log has nothing but the [open] calls, the message
    and the [close] calls. *)
Lemma open_io_fail (base : gset Z) (specs : list io_spec) :
  ∀ (i : nat) (io_fd : list Z) (w : world) (w' : world),
    0 ∈ base → 1 ∈ base → 2 ∈ base →
    (i + length specs ≤ 3)%nat →
    io_inv base i io_fd w →
    open_io os specs i io_fd w = (None, w') →
    open_fds w' = base
    ∧ pgrp w' = pgrp w ∧ forks w' = forks w
    ∧ ∃ closes pth fl opens,
        trace w'
        = closes
          ++ EvStderr (os_strerror os
                         (if os_open_errno os pth fl =? 0 then EMFILE
                          else os_open_errno os pth fl))
          :: EvOpen pth fl FILE_MASK (-1) :: opens ++ trace w
        ∧ Forall (λ e, is_close e = true) closes
        ∧ Forall (λ e, is_open e = true) opens.
Proof.
  induction specs as [|s specs IH]; intros i io_fd w w' H0 H1 H2 Hi Hinv;
    [done|].
  simpl in Hi. cbn [open_io].
  assert (Hin : Z.of_nat i ∈ base).
  { destruct i as [|[|[|i]]]; [done|done|done|lia]. }
  pose proof (open_io_turn base i io_fd w s Hinv ltac:(lia) Hin) as Ht.
  destruct (match path s with Some _ => _ | None => _ end) as [io_fd1 w1].
  simpl in Ht. destruct Ht as (Hp & Hf & _ & _ & _ & _ & _ & Ht).
  case_bool_decide as Hm.
  - destruct Ht as [(_ & (pth & _ & Htr & He) & -> & Hop)|[? _]]; [|done].
    intros [= <-].
    destruct Hinv as (Hl & Hdef & Hb & Ho & Hd).
    unfold fd_cleanup. rewrite fd_cleanup_from_open.
    destruct (fd_cleanup_from_trace 0 (<[i:=-1]> io_fd) i
                (Stopif_msg (os_strerror os (errno w1)) w1))
      as (cl & Hcl & Hfc).
    split; [|split; [|split]].
    + rewrite take_insert_ge by lia. simpl. rewrite Hop.
      rewrite owned_from_take.
      * fold (owned io_fd). clear -Hb Ho Hd.
        name_set (open_fds w). name_set (owned io_fd). set_solver.
      * intros j Hj. rewrite Hdef by lia. f_equal.
    + pose proof (fd_cleanup_from_keeps 0 (<[i:=-1]> io_fd) i
                    (Stopif_msg (os_strerror os (errno w1)) w1)) as K.
      simpl in K. destruct K as (-> & _). done.
    + pose proof (fd_cleanup_from_keeps 0 (<[i:=-1]> io_fd) i
                    (Stopif_msg (os_strerror os (errno w1)) w1)) as K.
      simpl in K. destruct K as (_ & -> & _). done.
    + exists cl, pth, (oflag s), []. rewrite Hcl. simpl.
      rewrite Htr, He. split; [done|]. split; [done|constructor].
  - destruct Ht as [[? _]|(_ & (ops & Htr & Hops) & _ & Hinv')]; [done|].
    intros Hrec.
    apply IH in Hrec; [|done|done|done|lia|done].
    destruct Hrec as (-> & -> & -> & cl & pth & fl & ops' & -> & Hcl & Ho').
    rewrite Hp, Hf. repeat split.
    exists cl, pth, fl, (ops' ++ ops). rewrite Htr, <- app_assoc.
    split; [done|]. split; [done|]. by apply Forall_app.
Qed.

(** ** Binding the redirections to the first and the last process *)

Lemma fmap_alter_same {A B : Type} (f : A → B) (g : A → A) (k : nat)
    (l : list A) :
  (∀ x, f (g x) = f x) → f <$> alter g k l = f <$> l.
Proof.
  intros H. revert k. induction l as [|x l IH]; intros [|k]; csimpl;
    rewrite ?H, ?IH; done.
Qed.

Lemma alter_cons_S {A : Type} (f : A → A) (k : nat) (x : A) (l : list A) :
  alter f (S k) (x :: l) = x :: alter f k l.
Proof. done. Qed.

Lemma fds_set_fd (i : nat) (v : Z) (p : proc) :
  fds (set_fd i v p) = <[i := v]> (fds p).
Proof. done. Qed.

Lemma bind_io_keeps (io_fd : list Z) (ps : list proc) :
  length (bind_io io_fd ps) = length ps
  ∧ pid <$> bind_io io_fd ps = pid <$> ps
  ∧ argv <$> bind_io io_fd ps = argv <$> ps
  ∧ completed <$> bind_io io_fd ps = completed <$> ps.
Proof.
  unfold bind_io. rewrite !length_alter.
  by rewrite !fmap_alter_same.
Qed.

Lemma owned_all_default (mid : list proc) :
  Forall (λ p, fds p = default_fds) mid → owned_all mid = ∅.
Proof.
  induction 1 as [|p mid Hp _ IH]; simpl; [done|].
  rewrite Hp, IH. unfold owned. simpl. set_solver.
Qed.

Lemma owned_all_app (l1 l2 : list proc) :
  owned_all (l1 ++ l2) = owned_all l1 ∪ owned_all l2.
Proof. induction l1 as [|p l1 IH]; simpl; [|rewrite IH]; set_solver. Qed.

Lemma ready_chain (mid : list proc) (p l : proc) :
  length (fds p) = 3%nat → fds p !! 1%nat = Some 1 →
  Forall (λ q, fds q = default_fds) mid →
  length (fds l) = 3%nat → fds l !! 0%nat = Some 0 →
  ready p (mid ++ [l]).
Proof.
  revert p. induction mid as [|q mid IH]; intros p Hl H1 Hm Hll Hl0; simpl.
  - done.
  - apply Forall_cons in Hm as [Hq Hm].
    split; [done|]. split; [done|]. split; [by rewrite Hq|].
    apply IH; try done; by rewrite Hq.
Qed.

(** With processes as the parser makes them, the processes after the three
    assignments are ready for the loop, and what their tables own is what
    [io_fd] owns. *)
Lemma bind_io_ready (io_fd : list Z) (ps : list proc) :
  length io_fd = 3%nat →
  Forall (λ p, fds p = default_fds) ps → ps ≠ [] →
  ∃ p rest, bind_io io_fd ps = p :: rest ∧ ready p rest
            ∧ owned_all (p :: rest) = owned io_fd.
Proof.
  intros Hl Hps Hne.
  destruct io_fd as [|a [|b [|c [|]]]]; try done. clear Hl.
  destruct ps as [|p rest]; [done|clear Hne].
  apply Forall_cons in Hps as [Hp Hrest].
  destruct rest as [|l mid _] using rev_ind.
  - eexists _, []. unfold bind_io. simpl. split; [done|].
    rewrite !fds_set_fd, Hp. simpl. split; [done|]. unfold owned. simpl.
    set_solver.
  - apply Forall_app in Hrest as [Hmid Hlast].
    apply Forall_cons in Hlast as [Hlast _].
    exists (set_fd 0 a p), (mid ++ [set_fd 2 c (set_fd 1 b l)]).
    split; [|split].
    + unfold bind_io. cbn [length].
      replace (S (length (mid ++ [l])) - 1)%nat with (S (length mid + 0))
        by (rewrite length_app; simpl; lia).
      change (alter (set_fd 0 (default 0 ([a; b; c] !! 0%nat))) 0%nat
                (p :: mid ++ [l]))
        with (set_fd 0 a p :: mid ++ [l]).
      rewrite !alter_cons_S, !alter_app_r. done.
    + apply ready_chain; rewrite ?fds_set_fd, ?Hp, ?Hlast; done || by vm_compute.
    + cbn [owned_all]. rewrite owned_all_app, owned_all_default by done.
      cbn [owned_all]. rewrite !fds_set_fd, Hp, Hlast. unfold owned. simpl.
      set_solver.
Qed.

(** ** The loop over the processes *)

Lemma launch_one_continue (b : bool) (g : Z) (p : proc) (w : world)
    (p' : proc) (g' : Z) (w' : world) :
  launch_one hd os b g p w = (None, p', g', w') →
  ∃ w1, dispatch hd os b g p w = (None, p', g', w1)
        ∧ w' = fd_cleanup (fds p') 3 w1.
Proof.
  unfold launch_one.
  destruct (dispatch hd os b g p w) as [[[[o|] p1] g1] w1]; [done|].
  intros [= <- <- <-]. by exists w1.
Qed.


(** ** What the calls of the loop log *)

Lemma extends_refl (P : event → bool) (w : world) : extends P w w.
Proof. by exists []. Qed.

Lemma extends_trans (P : event → bool) (w1 w2 w3 : world) :
  extends P w1 w2 → extends P w2 w3 → extends P w1 w3.
Proof.
  intros (n1 & E1 & H1) (n2 & E2 & H2). exists (n2 ++ n1).
  rewrite E2, E1, app_assoc. split; [done|]. by apply Forall_app.
Qed.

Ltac events :=
  unfold Stopif_msg; simpl;
  first
    [ eexists [_]; split; [reflexivity|by repeat constructor]
    | eexists [_; _]; split; [reflexivity|by repeat constructor]
    | eexists [_; _; _]; split; [reflexivity|by repeat constructor] ].

Lemma fd_cleanup_extends (P : event → bool) (i : Z) (tab : list Z) (n : nat)
    (w : world) :
  (∀ fd, P (EvClose fd) = true) →
  extends P w (fd_cleanup_from i tab n w).
Proof.
  intros HP. destruct (fd_cleanup_from_trace i tab n w) as (cl & E & H).
  exists cl. split; [done|]. eapply Forall_impl; [exact H|].
  intros [] ?; first [done|apply HP].
Qed.

Lemma sys_open_extends (pth : string) (flags mode : Z) (w : world) :
  extends io_event w (sys_open os pth flags mode w).2.
Proof.
  unfold sys_open. destruct (_ =? 0); [destruct (lowest_free _ _)|];
    events.
Qed.

Lemma open_io_extends (specs : list io_spec) :
  ∀ (i : nat) (io_fd : list Z) (w : world),
    extends io_event w (open_io os specs i io_fd w).2.
Proof.
  induction specs as [|s specs IH]; intros i io_fd w; simpl.
  { apply extends_refl. }
  destruct (path s) as [pth|].
  - pose proof (sys_open_extends pth (oflag s) FILE_MASK w) as Ho.
    destruct (sys_open os pth (oflag s) FILE_MASK w) as [fd w1].
    simpl in Ho. destruct (bool_decide _).
    + simpl. eapply extends_trans; [exact Ho|].
      eapply extends_trans; [|by apply fd_cleanup_extends].
      events.
    + eapply extends_trans; [exact Ho|]. apply IH.
  - destruct (bool_decide _).
    + simpl. eapply extends_trans; [|by apply fd_cleanup_extends].
      events.
    + apply IH.
Qed.

Lemma call_extends (inter bg : bool) (f : proc_func) (p : proc) (w : world) :
  extends (loop_event inter bg) w (call hd os f p w).2.
Proof.
  destruct f; simpl.
  - unfold m_cd, sys_getcwd.
    destruct (argv p !! 1%nat) as [d|];
      [|destruct (environ w !! _) as [d|]; [|apply extends_refl]].
    all: cbv zeta.
    all: destruct (_ && _); [events|].
    all: destruct (os_getcwd_errno os (cwd w) =? 0).
    all: destruct (_ =? 0); simpl; events.
  - apply extends_refl.
  - unfold m_help. destruct (fds p !! 1%nat);
      [events|apply extends_refl].
Qed.

Lemma Set_proc_group_extends (bg : bool) (PID PGID : Z) (w : world) :
  extends (loop_event (g_interactive w) bg) w
    (Set_proc_group hd bg PID PGID w).2.
Proof.
  unfold Set_proc_group. destruct (g_interactive w) eqn:Ei;
    [|apply extends_refl].
  destruct bg; simpl.
  - events.
  - events.
Qed.

Lemma apply_env_extends (inter bg : bool) (es : list (string * string))
    (w : world) :
  extends (loop_event inter bg) w (apply_env os es w).
Proof.
  revert w. induction es as [|[e v] es IH]; intros w; simpl.
  { apply extends_refl. }
  eapply extends_trans; [|apply IH].
  destruct (_ =? 0).
  - events.
  - events.
Qed.

Lemma dup_fds_extends (inter bg : bool) (tab : list Z) (i : Z) (w : world) :
  extends (loop_event inter bg) w (dup_fds i tab w).
Proof.
  revert i w. induction tab as [|fd tab IH]; intros i w; simpl.
  { apply extends_refl. }
  eapply extends_trans; [|apply IH].
  unfold sys_dup2. destruct (bool_decide _); events.
Qed.

Lemma exec_proc_extends (inter bg : bool) (p : proc) (w : world) :
  extends (loop_event inter bg) w (exec_proc hd os p w).2.
Proof.
  unfold exec_proc.
  assert (H : extends (loop_event inter bg) w
                (dup_fds 0 (fds p) (apply_env os (env p) w))).
  { eapply extends_trans; [apply apply_env_extends|apply dup_fds_extends]. }
  destruct (argv p) as [|file args]; [done|].
  destruct (_ =? 0); simpl.
  - eapply extends_trans; [exact H|]. events.
  - eapply extends_trans; [exact H|].
    events.
Qed.

Lemma sys_fork_extends (inter bg : bool) (w : world) :
  extends (loop_event inter bg) w (sys_fork w).2
  ∧ g_interactive (sys_fork w).2 = g_interactive w.
Proof.
  unfold sys_fork. destruct (forks w) as [|[e|c|me] fs]; simpl;
    (split; [events|done]).
Qed.

Lemma dispatch_extends (bg : bool) (g : Z) (p : proc) (w : world) :
  extends (loop_event (g_interactive w) bg) w (dispatch hd os bg g p w).2.
Proof.
  unfold dispatch. destruct (find_node _ _ _) as [b|].
  - pose proof (call_extends (g_interactive w) bg (cmd b) p w) as Hc.
    by destruct (call hd os (cmd b) p w) as [[v|c|] w1].
  - destruct (head (argv p)); [|apply extends_refl].
    destruct (sys_fork_extends (g_interactive w) bg w) as [Hf Hi].
    destruct (sys_fork w) as [pid_ w1]. simpl in Hf, Hi.
    destruct (pid_ <? 0).
    { simpl. eapply extends_trans; [exact Hf|]. events. }
    pose proof (Set_proc_group_extends bg pid_ g w1) as Hs.
    rewrite Hi in Hs.
    destruct (pid_ =? 0).
    + destruct (Set_proc_group hd bg pid_ g w1) as [g1 w2]. simpl in Hs.
      pose proof (exec_proc_extends (g_interactive w) bg p
                    (log EvResetIgnoredSignals w2)) as He.
      destruct (exec_proc hd os p (log EvResetIgnoredSignals w2))
        as [o w4].
      simpl in *. eapply extends_trans; [exact Hf|].
      eapply extends_trans; [exact Hs|].
      eapply extends_trans; [|exact He]. events.
    + destruct (Set_proc_group hd bg pid_ g w1) as [g1 w2]. simpl in *.
      eapply extends_trans; [exact Hf|exact Hs].
Qed.

Lemma launch_one_extends (bg : bool) (g : Z) (p : proc) (w : world) :
  extends (loop_event (g_interactive w) bg) w (launch_one hd os bg g p w).2.
Proof.
  unfold launch_one. pose proof (dispatch_extends bg g p w) as Hd.
  destruct (dispatch hd os bg g p w) as [[[o p'] g'] w1]. simpl in Hd.
  destruct o; [done|]. simpl.
  eapply extends_trans; [exact Hd|]. by apply fd_cleanup_extends.
Qed.

Lemma launch_one_interactive (bg : bool) (g : Z) (p : proc) (w : world)
    (p' : proc) (g' : Z) (w' : world) :
  launch_one hd os bg g p w = (None, p', g', w') →
  g_interactive w' = g_interactive w.
Proof.
  intros H. apply launch_one_continue in H as (w1 & Hd & ->).
  apply dispatch_continue in Hd as (_ & _ & _ & _ & _ & Hi & _).
  destruct (fd_cleanup_from_keeps 0 (fds p') 3 w1) as (_ & _ & _ & _ & Hk & _).
  unfold fd_cleanup. by rewrite Hk.
Qed.

(** What the step [pipe (fd)] of the loop leaves alone, whether the call
    succeeds or not. *)
Lemma pipe_fds_frame (inter bg : bool) (w : world) (r wr : Z) (w1 : world) :
  pipe_fds os w = (r, wr, w1) →
  pgrp w1 = pgrp w ∧ forks w1 = forks w ∧ self w1 = self w
  ∧ g_lookup_table w1 = g_lookup_table w
  ∧ g_interactive w1 = g_interactive w
  ∧ g_exit_code w1 = g_exit_code w
  ∧ forks_of (trace w1) = forks_of (trace w)
  ∧ open_fds w ⊆ open_fds w1
  ∧ extends (loop_event inter bg) w w1.
Proof.
  unfold pipe_fds, sys_pipe.
  destruct (lowest_free os (open_fds w)) as [r0|];
    [destruct (lowest_free os _) as [wr0|]|];
    try destruct (os_unset_fd os _) as [r1 wr1];
    intros [= <- <- <-]; simpl; rewrite forks_of_cons, app_nil_r;
    (repeat split; [set_solver|events]).
Qed.

(** A step [pipe (fd)] that adds no failure to the log is a call of [pipe]
    that succeeded. *)
Lemma pipe_fds_ok (w : world) (r wr : Z) (w1 : world) :
  pipe_fds os w = (r, wr, w1) →
  pipe_failures (trace w1) = pipe_failures (trace w) →
  sys_pipe os w = (Some (r, wr), w1).
Proof.
  unfold pipe_fds.
  destruct (sys_pipe os w) as [[[r0 wr0]|] w0] eqn:Ep.
  - by intros [= <- <- <-].
  - apply sys_pipe_fail in Ep.
    destruct (os_unset_fd os (trace w0)). intros [= <- <- <-].
    rewrite Ep. unfold pipe_failures. simpl. lia.
Qed.

Lemma pipe_failures_extends (P : event → bool) (w w' : world) :
  extends P w w' → (pipe_failures (trace w) ≤ pipe_failures (trace w'))%nat.
Proof.
  intros (new & -> & _). unfold pipe_failures.
  rewrite filter_app, length_app. lia.
Qed.

Lemma pipe_fds_failures (w : world) (r wr : Z) (w1 : world) :
  pipe_fds os w = (r, wr, w1) →
  (pipe_failures (trace w) ≤ pipe_failures (trace w1))%nat.
Proof.
  intros H. eapply pipe_failures_extends.
  by eapply (pipe_fds_frame true true), H.
Qed.

Lemma launch_one_failures (bg : bool) (g : Z) (p : proc) (w : world)
    (o : option outcome) (p' : proc) (g' : Z) (w' : world) :
  launch_one hd os bg g p w = (o, p', g', w') →
  (pipe_failures (trace w) ≤ pipe_failures (trace w'))%nat.
Proof.
  intros H. pose proof (launch_one_extends bg g p w) as He.
  rewrite H in He. by eapply pipe_failures_extends.
Qed.

Lemma launch_procs_extends (bg : bool) (rest : list proc) :
  ∀ (g : Z) (p : proc) (w : world),
    extends (loop_event (g_interactive w) bg) w
      (launch_procs hd os bg g p rest w).2
    ∧ ((launch_procs hd os bg g p rest w).1.1.1 = None →
       g_interactive (launch_procs hd os bg g p rest w).2 = g_interactive w).
Proof.
  induction rest as [|q rest IH]; intros g p w.
  - cbn [launch_procs].
    pose proof (launch_one_extends bg g p w) as H1.
    pose proof (launch_one_interactive bg g p w) as H2.
    destruct (launch_one hd os bg g p w) as [[[o p'] g'] w1]. simpl in *.
    split; [done|]. intros ->. by eapply H2.
  - cbn [launch_procs].
    destruct (pipe_fds os w) as [[r wr] w1] eqn:Ep.
    apply (pipe_fds_frame (g_interactive w) bg) in Ep
      as (_ & _ & _ & _ & Hi & _ & _ & _ & Hp).
    pose proof (launch_one_extends bg g (set_fd 1 wr p) w1) as H1.
    pose proof (launch_one_interactive bg g (set_fd 1 wr p) w1) as H2.
    destruct (launch_one hd os bg g (set_fd 1 wr p) w1)
      as [[[o p'] g'] w2].
    rewrite Hi in H1. simpl in H1.
    destruct o as [o|].
    { simpl. split; [|done]. eapply extends_trans; [exact Hp|exact H1]. }
    specialize (H2 _ _ _ eq_refl).
    destruct (IH g' (set_fd 0 r q) w2) as [H3 H4].
    destruct (launch_procs hd os bg g' (set_fd 0 r q) rest w2)
      as [[[o' ps] g''] w3].
    rewrite H2, Hi in H3, H4. simpl in *. split; [|done].
    eapply extends_trans; [exact Hp|].
    eapply extends_trans; [exact H1|exact H3].
Qed.

Lemma launch_procs_failures (bg : bool) (g : Z) (p : proc)
    (rest : list proc) (w : world) (o : option outcome) (ps : list proc)
    (g' : Z) (w' : world) :
  launch_procs hd os bg g p rest w = (o, ps, g', w') →
  (pipe_failures (trace w) ≤ pipe_failures (trace w'))%nat.
Proof.
  intros H. destruct (launch_procs_extends bg rest g p w) as [He _].
  rewrite H in He. by eapply pipe_failures_extends.
Qed.


End ExecuteFacts.

(** ** The whole launch *)

Section LaunchFacts.

Context (hd : macros) (os : os_env).

Lemma io_inv_start (w : world) : io_inv (open_fds w) 0 default_fds w.
Proof.
  unfold io_inv, owned. simpl. repeat split; try set_solver.
  intros [|[|[|k]]] Hk; simpl; done || lia.
Qed.

Lemma exec_proc_not_returned (p : proc) (w : world) (c : Z) :
  (exec_proc hd os p w).1 ≠ Returned c.
Proof.
  unfold exec_proc. destruct (argv p); [done|].
  by destruct (_ =? 0).
Qed.

(** The only way the loop body makes [launch_job] return is a failed
    [fork]: the code is [M_FAILED_EXEC], and the call and the message are
    the last things done. *)
Lemma dispatch_returned (b : bool) (g : Z) (p : proc) (w : world)
    (c : Z) (p' : proc) (g' : Z) (w' : world) :
  dispatch hd os b g p w = (Some (Returned c), p', g', w') →
  c = M_FAILED_EXEC hd ∧ p' = p ∧ g' = g
  ∧ find_node (head (argv p)) filter_command (g_lookup_table w) = None
  ∧ (forks w = [] ∨ ∃ e fs, forks w = ForkFail e :: fs)
  ∧ open_fds w' = open_fds w ∧ pgrp w' = pgrp w
  ∧ g_interactive w' = g_interactive w
  ∧ ∃ msg, trace w' = EvStderr msg :: EvFork (-1) :: trace w.
Proof.
  unfold dispatch.
  destruct (find_node _ _ _) as [bi|] eqn:Ef.
  { by destruct (call hd os (cmd bi) p w) as [[v|c'|] w1]. }
  destruct (head (argv p)) as [a0|]; [|done].
  unfold sys_fork.
  destruct (forks w) as [|[e|ch|me] fs] eqn:Efk; simpl.
  - intros [= <- <- <- <-]. simpl. repeat split; eauto.
  - intros [= <- <- <- <-]. simpl. repeat split; eauto.
  - by destruct (Set_proc_group _ _ _ _ _) as [? ?].
  - destruct (Set_proc_group _ _ _ _ _) as [g1 w2].
    pose proof (exec_proc_not_returned p (log EvResetIgnoredSignals w2) c).
    destruct (exec_proc _ _ _ _) as [o w4]. simpl in *.
    intros [= -> _ _ _]. done.
Qed.

Lemma launch_one_returned (b : bool) (g : Z) (p : proc) (w : world)
    (c : Z) (p' : proc) (g' : Z) (w' : world) :
  launch_one hd os b g p w = (Some (Returned c), p', g', w') →
  dispatch hd os b g p w = (Some (Returned c), p', g', w').
Proof.
  unfold launch_one.
  destruct (dispatch hd os b g p w) as [[[[o|] p1] g1] w1]; [|done].
  by intros [= -> -> -> ->].
Qed.

Lemma launch_procs_returned (b : bool) (rest : list proc) :
  ∀ (g : Z) (p : proc) (w : world) (c : Z) (ps : list proc) (g' : Z)
    (w' : world),
    launch_procs hd os b g p rest w = (Some (Returned c), ps, g', w') →
    c = M_FAILED_EXEC hd.
Proof.
  induction rest as [|q rest IH]; intros g p w c ps g' w'; simpl.
  - destruct (launch_one hd os b g p w) as [[[o p1] g1] w1] eqn:E.
    intros [= -> <- <- <-].
    apply launch_one_returned, dispatch_returned in E. by destruct E.
  - destruct (pipe_fds os w) as [[r wr] w1].
    destruct (launch_one hd os b g (set_fd 1 wr p) w1)
      as [[[[o|] p1] g1] w2] eqn:E.
    + intros [= -> <- <- <-].
      apply launch_one_returned, dispatch_returned in E. by destruct E.
    + destruct (launch_procs hd os b g1 (set_fd 0 r q) rest w2)
        as [[[o' ps'] g2] w3] eqn:El.
      intros [= -> <- <- <-]. by eapply IH.
Qed.

Lemma dispose_open (j : job) (w : world) :
  open_fds (dispose j w) = open_fds w ∧ pgrp (dispose j w) = pgrp w
  ∧ pipes_of (trace (dispose j w)) = pipes_of (trace w)
  ∧ forks_of (trace (dispose j w)) = forks_of (trace w).
Proof.
  unfold dispose. destruct (negb _), (bkg j); simpl;
    rewrite ?pipes_of_cons, ?forks_of_cons; simpl; rewrite ?app_nil_r; done.
Qed.

(** Opening the redirections makes no pipe, forks nothing and leaves the
    process groups alone, however it ends. *)
Lemma open_io_quiet (specs : list io_spec) :
  ∀ (i : nat) (io_fd : list Z) (w : world) (res : option (list Z))
    (w' : world),
    open_io os specs i io_fd w = (res, w') →
    pgrp w' = pgrp w ∧ forks w' = forks w ∧ self w' = self w
    ∧ g_lookup_table w' = g_lookup_table w
    ∧ g_interactive w' = g_interactive w
    ∧ pipes_of (trace w') = pipes_of (trace w)
    ∧ forks_of (trace w') = forks_of (trace w)
    ∧ ∀ l, res = Some l → length l = length io_fd.
Proof.
  induction specs as [|s specs IH]; intros i io_fd w res w'.
  { simpl. intros [= <- <-]. repeat split; try done. by intros l [= <-]. }
  cbn [open_io].
  assert (Ht : ∀ r : list Z * world,
    r = match path s with
        | Some pth =>
            let '(fd, w0) := sys_open os pth (oflag s) FILE_MASK w in
            (<[i := fd]> io_fd, w0)
        | None => (io_fd, w)
        end →
    pgrp r.2 = pgrp w ∧ forks r.2 = forks w ∧ self r.2 = self w
    ∧ g_lookup_table r.2 = g_lookup_table w
    ∧ g_interactive r.2 = g_interactive w
    ∧ pipes_of (trace r.2) = pipes_of (trace w)
    ∧ forks_of (trace r.2) = forks_of (trace w)
    ∧ length r.1 = length io_fd).
  { intros r ->. destruct (path s) as [pth|]; [|by repeat split].
    unfold sys_open.
    destruct (_ =? 0); [destruct (lowest_free _ _)|]; simpl;
      rewrite ?pipes_of_cons, ?forks_of_cons, ?length_insert; simpl;
      rewrite ?app_nil_r; by repeat split. }
  specialize (Ht _ eq_refl).
  destruct (match path s with Some _ => _ | None => _ end) as [io_fd1 w1].
  simpl in Ht. destruct Ht as (E1 & E2 & E3 & E4 & E5 & E6 & E7 & E8).
  case_bool_decide.
  - intros [= <- <-].
    pose proof (fd_cleanup_from_keeps 0 io_fd1 i
                  (Stopif_msg (os_strerror os (errno w1)) w1)) as K.
    simpl in K. destruct K as (K1 & K2 & K3 & K4 & K5 & K6 & K7).
    rewrite pipes_of_cons in K6. rewrite forks_of_cons in K7.
    simpl in K6, K7. rewrite app_nil_r in K6, K7.
    unfold fd_cleanup. repeat split; congruence.
  - intros Hrec. apply IH in Hrec.
    destruct Hrec as (F1 & F2 & F3 & F4 & F5 & F6 & F7 & F8).
    repeat split; try congruence.
    intros l Hl. rewrite (F8 l Hl). done.
Qed.

Lemma apply_env_quiet (es : list (string * string)) (w : world) :
  pgrp (apply_env os es w) = pgrp w ∧ self (apply_env os es w) = self w
  ∧ pipes_of (trace (apply_env os es w)) = pipes_of (trace w)
  ∧ forks_of (trace (apply_env os es w)) = forks_of (trace w).
Proof.
  revert w. induction es as [|[e v] es IH]; intros w; simpl;
    [by repeat split|].
  destruct (os_setenv_errno os e =? 0);
    match goal with |- context [apply_env os es ?w0] =>
      destruct (IH w0) as (-> & -> & -> & ->) end;
    simpl; rewrite ?pipes_of_cons, ?forks_of_cons; simpl;
    rewrite ?app_nil_r; by repeat split.
Qed.

Lemma dup_fds_quiet (tab : list Z) (i : Z) (w : world) :
  pgrp (dup_fds i tab w) = pgrp w ∧ self (dup_fds i tab w) = self w
  ∧ pipes_of (trace (dup_fds i tab w)) = pipes_of (trace w)
  ∧ forks_of (trace (dup_fds i tab w)) = forks_of (trace w).
Proof.
  revert i w. induction tab as [|fd tab IH]; intros i w; simpl;
    [by repeat split|].
  destruct (IH (i + 1) (sys_dup2 fd i w)) as (-> & -> & -> & ->).
  unfold sys_dup2. case_bool_decide; simpl;
    rewrite ?pipes_of_cons, ?forks_of_cons; simpl; rewrite ?app_nil_r;
    by repeat split.
Qed.

(** The forked child, from [exec_proc] on: it ends by [execvp] or [_Exit],
    forks nothing, and stays in the group it is in. *)
Lemma exec_proc_quiet (p : proc) (w : world) :
  let r := exec_proc hd os p w in
  pgrp r.2 = pgrp w ∧ self r.2 = self w
  ∧ pipes_of (trace r.2) = pipes_of (trace w)
  ∧ forks_of (trace r.2) = forks_of (trace w)
  ∧ (argv p ≠ [] →
     r.1 = ChildExec (argv p) ∨ r.1 = ChildExit (M_FAILED_EXEC hd)).
Proof.
  unfold exec_proc.
  destruct (dup_fds_quiet (fds p) 0 (apply_env os (env p) w))
    as (D1 & D2 & D3 & D4).
  destruct (apply_env_quiet (env p) w) as (A1 & A2 & A3 & A4).
  simpl in *.
  destruct (argv p) as [|file args]; simpl.
  { repeat split; congruence. }
  destruct (os_exec_errno os file =? 0); simpl;
    rewrite ?pipes_of_cons, ?forks_of_cons; simpl; rewrite ?app_nil_r;
    repeat split; try congruence; eauto.
Qed.


(** ** Process groups and forks *)

Lemma first_forked_none (ps : list proc) :
  Forall (λ q, pid q = 0) ps → first_forked ps = 0 ∧ forked_pids ps = [].
Proof.
  unfold forked_pids.
  induction 1 as [|q ps Hq _ [IH1 IH2]]; [by split|]. csimpl.
  rewrite Hq, filter_cons_False by (intros H0; by apply H0).
  by rewrite IH1, IH2.
Qed.

Lemma forked_pids_cons (q : proc) (ps : list proc) :
  forked_pids (q :: ps)
  = (if pid q =? 0 then [] else [pid q]) ++ forked_pids ps.
Proof.
  unfold forked_pids. csimpl. rewrite filter_cons.
  destruct (pid q =? 0) eqn:E; case_decide; try done; lia.
Qed.

(** One process, as far as groups and forks go. *)
Lemma launch_one_pgrp (b : bool) (g : Z) (p : proc) (w : world)
    (o : option outcome) (p' : proc) (g1 : Z) (w1 : world) :
  g_interactive w = true → pid p = 0 →
  launch_one hd os b g p w = (o, p', g1, w1) → in_shell o →
  g_interactive w1 = true
  ∧ 0 ≤ pid p'
  ∧ g1 = (if g =? 0 then pid p' else g)
  ∧ (pid p' ≠ 0 → pgrp w1 !! pid p' = Some g1)
  ∧ (g ≠ 0 → ∀ k, pgrp w !! k = Some g → pgrp w1 !! k = Some g)
  ∧ (o ≠ None → pid p' = 0)
  ∧ forks_of (trace w1)
    = forks_of (trace w) ++ (if pid p' =? 0 then [] else [pid p'])
      ++ (if o is Some _ then [-1] else []).
Proof.
  intros Hi Hp E [->|[c ->]].
  - apply launch_one_continue in E as (w2 & Hdi & ->).
    destruct (fd_cleanup_from_keeps 0 (fds p') 3 w2)
      as (Kp & _ & _ & _ & Ki & _ & Kf).
    unfold fd_cleanup. rewrite Kp, Ki, Kf.
    apply dispatch_continue in Hdi
      as (_ & _ & _ & _ & _ & Hi' & _ & [(bi & v & w3 & _ & _ & -> & -> & ->
                                           & _ & Hpg & Hfk)
                                         |(ch & fs & _ & _ & _ & -> & Hfk
                                           & Hg)]).
    + simpl. rewrite Hp, Hi', Hpg, Hfk, app_nil_r. simpl.
      repeat split; try done; try lia. by destruct (g =? 0) eqn:Eg; [lia|].
    + rewrite Hi in Hg. destruct Hg as [Hg1 Hpg]. simpl.
      rewrite Hi', Hpg, Hfk, ?app_nil_r.
      repeat split; try done; try lia.
      * intros _. apply lookup_insert_eq.
      * intros Hg0 k Hk. apply Z.eqb_neq in Hg0. rewrite Hg0 in Hg1. subst g1.
        destruct (decide (k = Z.pos ch)) as [->|Hne];
          [apply lookup_insert_eq|].
        rewrite lookup_insert_ne by done.
        unfold inherit_group. destruct (pgrp w !! self w); [|done].
        by rewrite lookup_insert_ne.
  - apply launch_one_returned, dispatch_returned in E
      as (_ & -> & -> & _ & _ & _ & Hpg & Hi' & (msg & Htr)).
    rewrite Hp, Hpg, Hi', Htr, !forks_of_cons. simpl. rewrite app_nil_r.
    repeat split; try done. by destruct (g =? 0) eqn:Eg; [lia|].
Qed.

(** The loop: the group of the job is that of the first pid recorded, every
    process with a pid is in it, and the forks of the log are the pids
    recorded, followed by the failed one if the loop was left for it. *)
Lemma launch_procs_pgrp (b : bool) (rest : list proc) :
  ∀ (g : Z) (p : proc) (w : world) (o : option outcome) (ps : list proc)
    (g' : Z) (w' : world),
    g_interactive w = true →
    Forall (λ q, pid q = 0) (p :: rest) →
    launch_procs hd os b g p rest w = (o, ps, g', w') →
    in_shell o →
    g' = (if g =? 0 then first_forked ps else g)
    ∧ (∀ q, q ∈ ps → pid q ≠ 0 → pgrp w' !! pid q = Some g')
    ∧ (g ≠ 0 → ∀ k, pgrp w !! k = Some g → pgrp w' !! k = Some g).
Proof.
  induction rest as [|q rest IH]; intros g p w o ps g' w' Hi Hall.
  - simpl. destruct (launch_one hd os b g p w) as [[[o1 p1] g1] w1] eqn:E.
    intros [= -> <- <- <-] Ho.
    apply Forall_cons in Hall as [Hp _].
    apply (launch_one_pgrp _ _ _ _ _ _ _ _ Hi Hp) in E
      as (_ & Hpos & -> & Hm & Hk & _); [|done].
    simpl. split.
    { destruct (g =? 0); [|done]. destruct (pid p1 =? 0) eqn:E0; [lia|done]. }
    split; [|done]. intros x Hx Hx0. apply list_elem_of_singleton in Hx as ->.
    by apply Hm.
  - cbn [launch_procs]. destruct (pipe_fds os w) as [[r wr] w1] eqn:Ep.
    apply (pipe_fds_frame os true true)
      in Ep as (Hpg & _ & _ & _ & Hi1 & _).
    apply Forall_cons in Hall as [Hp Hall].
    destruct (launch_one hd os b g (set_fd 1 wr p) w1)
      as [[[o1 p1] g1] w2] eqn:E.
    destruct o1 as [out|].
    + intros [= <- <- <- <-] Ho.
      apply (launch_one_pgrp _ _ _ _ _ _ _ _) in E
        as (_ & _ & -> & _ & Hk & Hz & _); [|congruence|done|done].
      specialize (Hz ltac:(done)).
      assert (Hzero : Forall (λ x, pid x = 0) (p1 :: set_fd 0 r q :: rest)).
      { constructor; [done|]. apply Forall_cons in Hall as [Hq Hall].
        by constructor. }
      destruct (first_forked_none _ Hzero) as [-> _]. rewrite Hz.
      split; [by destruct (g =? 0)|]. split.
      * intros x Hx Hx0. rewrite Forall_forall in Hzero.
        by specialize (Hzero x Hx).
      * intros Hg k. rewrite <- Hpg. by apply Hk.
    + destruct (launch_procs hd os b g1 (set_fd 0 r q) rest w2)
        as [[[o' ps'] g2] w3] eqn:El.
      intros [= <- <- <- <-] Ho.
      apply (launch_one_pgrp _ _ _ _ _ _ _ _) in E
        as (Hi2 & Hpos & Hg1 & Hm & Hk & _); [|congruence|done|by left].
      apply IH in El; [|done| |done].
      2:{ apply Forall_cons in Hall as [Hq Hall]. by constructor. }
      destruct El as (Hg2 & Hmem & Hper).
      cbn [first_forked].
      destruct (g =? 0) eqn:Eg.
      * destruct (pid p1 =? 0) eqn:E1.
        -- apply Z.eqb_eq in E1. rewrite E1 in Hg1. subst g1. simpl in Hg2.
           split; [done|]. split; [|intros; lia].
           intros x Hx Hx0. apply elem_of_cons in Hx as [->|Hx]; [done|].
           by apply Hmem.
        -- apply Z.eqb_neq in E1. subst g1. rewrite <- Z.eqb_neq in E1.
           rewrite E1 in Hg2. subst g2. apply Z.eqb_neq in E1.
           split; [done|]. split; [|intros; lia].
           intros x Hx Hx0. apply elem_of_cons in Hx as [->|Hx].
           ++ apply Hper; [done|]. by apply Hm.
           ++ by apply Hmem.
      * subst g1. rewrite Eg in Hg2. subst g2. apply Z.eqb_neq in Eg.
        split; [done|]. split.
        -- intros x Hx Hx0. apply elem_of_cons in Hx as [->|Hx].
           ++ apply Hper; [done|]. by apply Hm.
           ++ by apply Hmem.
        -- intros _ k Hk0. apply Hper; [done|]. apply Hk; [done|].
           by rewrite Hpg.
Qed.

(** A turn of the loop that ends the launch leaves the process as it was;
    if it called [fork], the call is the last fork of the log. *)
Lemma dispatch_ended (b : bool) (g : Z) (p : proc) (w : world)
    (out : outcome) (p' : proc) (g' : Z) (w' : world) :
  dispatch hd os b g p w = (Some out, p', g', w') →
  p' = p
  ∧ forks_of (trace w') = forks_of (trace w) ++ fork_tail (Some out).
Proof.
  unfold dispatch. destruct (find_node _ _ _) as [bi|].
  - destruct (call_quiet hd os (cmd bi) p w)
      as (_ & _ & _ & _ & _ & _ & _ & Hfk).
    destruct (call hd os (cmd bi) p w) as [[v|c|] w1]; simpl in Hfk;
      intros [= <- <- <- <-]; simpl; by rewrite Hfk, app_nil_r.
  - destruct (head (argv p)) as [name|] eqn:Eh.
    2: { intros [= <- <- <- <-]. simpl. by rewrite app_nil_r. }
    unfold sys_fork.
    destruct (forks w) as [|[e|c|me] fs]; simpl.
    + intros [= <- <- <- <-]. simpl. by rewrite !forks_of_cons, app_nil_r.
    + intros [= <- <- <- <-]. simpl. by rewrite !forks_of_cons, app_nil_r.
    + by destruct (Set_proc_group hd b _ g _).
    + match goal with
      | |- context [Set_proc_group hd b 0 g ?x] =>
          destruct (Set_proc_group_spec hd b 0 g x)
            as (_ & _ & _ & _ & _ & _ & Hs & _);
          destruct (Set_proc_group hd b 0 g x) as [g1 w2]
      end.
      simpl in Hs.
      destruct (exec_proc_quiet p (log EvResetIgnoredSignals w2))
        as (_ & _ & _ & Hf & Ho).
      destruct (exec_proc hd os p (log EvResetIgnoredSignals w2))
        as [o4 w4].
      simpl in Hf, Ho. intros [= <- <- <- <-].
      rewrite Hf, forks_of_cons, app_nil_r, Hs, forks_of_cons.
      destruct Ho as [->| ->]; [|done|done].
      intros E. rewrite E in Eh. discriminate Eh.
Qed.

(** One process, as far as the forks of the log go. *)
Lemma launch_one_forks (b : bool) (g : Z) (p : proc) (w : world)
    (o : option outcome) (p' : proc) (g1 : Z) (w1 : world) :
  pid p = 0 →
  launch_one hd os b g p w = (o, p', g1, w1) →
  0 ≤ pid p'
  ∧ (o ≠ None → pid p' = 0)
  ∧ forks_of (trace w1)
    = forks_of (trace w) ++ (if pid p' =? 0 then [] else [pid p'])
      ++ fork_tail o.
Proof.
  intros Hp E. destruct o as [out|].
  - unfold launch_one in E.
    destruct (dispatch hd os b g p w) as [[[o1 p1] g2] w2] eqn:Ed.
    destruct o1 as [out1|]; [|done]. injection E as -> <- <- <-.
    apply dispatch_ended in Ed as [-> ->].
    rewrite Hp. simpl. repeat split; try done.
  - apply launch_one_continue in E as (w2 & Hdi & ->).
    destruct (fd_cleanup_from_keeps 0 (fds p') 3 w2)
      as (_ & _ & _ & _ & _ & _ & Kf).
    unfold fd_cleanup. rewrite Kf.
    apply dispatch_continue in Hdi
      as (_ & _ & _ & _ & _ & _ & _ & [(bi & v & w3 & _ & _ & -> & -> & ->
                                         & _ & _ & Hfk)
                                       |(ch & fs & _ & _ & _ & -> & Hfk
                                         & _)]).
    + simpl. rewrite Hp, Hfk, app_nil_r. simpl. by repeat split.
    + simpl. rewrite Hfk. repeat split; try done; lia.
Qed.

(** The loop: the forks of the log are the pids recorded, in order, followed
    by the call that ended the loop, if one did. *)
Lemma launch_procs_forks (b : bool) (rest : list proc) :
  ∀ (g : Z) (p : proc) (w : world) (o : option outcome) (ps : list proc)
    (g' : Z) (w' : world),
    Forall (λ q, pid q = 0) (p :: rest) →
    launch_procs hd os b g p rest w = (o, ps, g', w') →
    forks_of (trace w')
    = forks_of (trace w) ++ forked_pids ps ++ fork_tail o
    ∧ Forall (λ x, 0 < x) (forked_pids ps).
Proof.
  induction rest as [|q rest IH]; intros g p w o ps g' w' Hall.
  - simpl. destruct (launch_one hd os b g p w) as [[[o1 p1] g1] w1] eqn:E.
    intros [= -> <- <- <-].
    apply Forall_cons in Hall as [Hp _].
    apply (launch_one_forks _ _ _ _ _ _ _ _ Hp) in E as (Hpos & _ & ->).
    rewrite forked_pids_cons. change (forked_pids []) with (@nil Z).
    rewrite !app_nil_r. split; [done|].
    destruct (pid p1 =? 0) eqn:E0; constructor; [lia|constructor].
  - cbn [launch_procs]. destruct (pipe_fds os w) as [[r wr] w1] eqn:Ep.
    apply (pipe_fds_frame os true true)
      in Ep as (_ & _ & _ & _ & _ & _ & Hpipe & _).
    apply Forall_cons in Hall as [Hp Hall].
    assert (Hzero : Forall (λ x, pid x = 0) (set_fd 0 r q :: rest)).
    { apply Forall_cons in Hall as [Hq Hall]. by constructor. }
    destruct (launch_one hd os b g (set_fd 1 wr p) w1)
      as [[[o1 p1] g1] w2] eqn:E.
    destruct o1 as [out|].
    + intros [= <- <- <- <-].
      apply (launch_one_forks _ _ _ _ _ _ _ _) in E
        as (_ & Hz & ->); [|done].
      specialize (Hz ltac:(done)).
      rewrite forked_pids_cons, Hz. simpl.
      destruct (first_forked_none _ Hzero) as [_ ->].
      rewrite Hpipe. split; [done|constructor].
    + destruct (launch_procs hd os b g1 (set_fd 0 r q) rest w2)
        as [[[o' ps'] g2] w3] eqn:El.
      intros [= <- <- <- <-].
      apply (launch_one_forks _ _ _ _ _ _ _ _) in E
        as (Hpos & _ & Hf1); [|done].
      apply IH in El as [-> Hall']; [|done].
      rewrite Hf1, Hpipe, forked_pids_cons. simpl fork_tail at 1.
      rewrite app_nil_r, <- !app_assoc.
      split; [done|]. apply Forall_app. split; [|done].
      destruct (pid p1 =? 0) eqn:E0; constructor; [lia|constructor].
Qed.

(** ** Builtins and children *)

Lemma launched_as_same (t : gmap string builtin) (q q0 q' : proc) :
  same_but_fds q q0 → launched_as hd os t q0 q' → launched_as hd os t q q'.
Proof.
  intros (Ha & _ & Hp & Hc & He). unfold launched_as. rewrite Ha.
  intros [Ha' H]. split; [done|].
  destruct (find_node _ _ _) as [bi|].
  - destruct H as (? & ? & q1 & wq & w1 & ? & ? & ?).
    repeat split; try congruence. by exists q1, wq, w1.
  - destruct H as (c & ? & ? & ?). exists c. repeat split; congruence.
Qed.

Lemma launched_as_via (t : gmap string builtin) (l1 l2 l3 : list proc) :
  Forall2 same_but_fds l1 l2 → Forall2 (launched_as hd os t) l2 l3 →
  Forall2 (launched_as hd os t) l1 l3.
Proof.
  intros H. revert l3. induction H as [|x y l1 l2 Hxy _ IH]; intros l3 Hall.
  - by apply Forall2_nil_inv_l in Hall as ->.
  - apply Forall2_cons_inv_l in Hall as (z & zs & Hz & Hzs & ->).
    constructor; [by eapply launched_as_same|by apply IH].
Qed.

Lemma bind_io_same (io_fd : list Z) (ps : list proc) :
  Forall2 same_but_fds ps (bind_io io_fd ps).
Proof.
  unfold bind_io.
  repeat (apply Forall2_alter_r;
          [|by intros ? ? _ _ (?&?&?&?&?); repeat split]).
  apply Forall_Forall2_diag, Forall_forall. intros ? _. by repeat split.
Qed.

(** The loop, process by process. *)
Lemma launch_procs_each (b : bool) (rest : list proc) :
  ∀ (g : Z) (p : proc) (w : world) (ps : list proc) (g' : Z) (w' : world),
    launch_procs hd os b g p rest w = (None, ps, g', w') →
    Forall2 (launched_as hd os (g_lookup_table w)) (p :: rest) ps
    ∧ g_lookup_table w' = g_lookup_table w.
Proof.
  assert (Hone : ∀ g p w p' g1 w1,
    launch_one hd os b g p w = (None, p', g1, w1) →
    launched_as hd os (g_lookup_table w) p p'
    ∧ g_lookup_table w1 = g_lookup_table w).
  { intros g p w p' g1 w1 E.
    apply launch_one_continue in E as (w2 & Hdi & ->).
    destruct (fd_cleanup_from_keeps 0 (fds p') 3 w2)
      as (_ & _ & _ & Kt & _).
    unfold fd_cleanup. rewrite Kt.
    apply dispatch_continue in Hdi
      as (Hf & Ha & _ & _ & Ht & _ & _
          & [(bi & v & w3 & Hfn & Hc & -> & _)
            |(ch & fs & Hfn & _ & _ & -> & _)]);
      (split; [|done]); (split; [done|]); rewrite Hfn.
    - repeat split. by exists p, w, w3.
    - by exists ch. }
  induction rest as [|q rest IH]; intros g p w ps g' w'.
  - simpl. destruct (launch_one hd os b g p w) as [[[o p1] g1] w1] eqn:E.
    intros [= -> <- <- <-]. apply Hone in E as [? ?].
    split; [|done]. constructor; [done|constructor].
  - cbn [launch_procs]. destruct (pipe_fds os w) as [[r wr] w1] eqn:Ep.
    apply (pipe_fds_frame os true true) in Ep as (_ & _ & _ & Ht1 & _).
    destruct (launch_one hd os b g (set_fd 1 wr p) w1)
      as [[[o p1] g1] w2] eqn:E.
    destruct o; [done|].
    destruct (launch_procs hd os b g1 (set_fd 0 r q) rest w2)
      as [[[o' ps'] g2] w3] eqn:El.
    intros [= -> <- <- <-].
    apply Hone in E as [Hp Ht2]. apply IH in El as [Hrest Ht3].
    rewrite Ht2, Ht1 in Ht3, Hrest. rewrite Ht1 in Hp.
    split; [|done]. constructor.
    + eapply launched_as_same; [|exact Hp]. by repeat split.
    + apply Forall2_cons_inv_l in Hrest as (x & xs & Hx & Hxs & ->).
      constructor; [|done].
      eapply launched_as_same; [|exact Hx]. by repeat split.
Qed.

(** A loop left for a failed [fork] leaves the process it failed on as it
    was: without pid and not completed, if it came so. *)
Lemma launch_procs_abort_unlaunched (b : bool) (rest : list proc) :
  ∀ (g : Z) (p : proc) (w : world) (c : Z) (ps : list proc) (g' : Z)
    (w' : world),
    pid p = 0 → completed p = false →
    Forall (λ q, pid q = 0 ∧ completed q = false) rest →
    launch_procs hd os b g p rest w = (Some (Returned c), ps, g', w') →
    ∃ q, q ∈ ps ∧ ¬ launched q.
Proof.
  assert (Hun : ∀ q, pid q = 0 → completed q = false → ¬ launched q).
  { intros q Hp Hc [H|H]; congruence. }
  induction rest as [|q rest IH]; intros g p w c ps g' w' Hp Hc Hrest; simpl.
  - destruct (launch_one hd os b g p w) as [[[o p1] g1] w1] eqn:E.
    intros [= -> <- <- <-].
    apply launch_one_returned, dispatch_returned in E as (_ & -> & _).
    exists p. split; [by left|by apply Hun].
  - destruct (pipe_fds os w) as [[r wr] w1].
    apply Forall_cons in Hrest as [[Hq Hqc] Hrest].
    destruct (launch_one hd os b g (set_fd 1 wr p) w1)
      as [[[[o|] p1] g1] w2] eqn:E.
    + intros [= -> <- <- <-].
      apply launch_one_returned, dispatch_returned in E as (_ & -> & _).
      exists (set_fd 1 wr p). split; [by left|by apply Hun].
    + destruct (launch_procs hd os b g1 (set_fd 0 r q) rest w2)
        as [[[o' ps'] g2] w3] eqn:El.
      intros [= -> <- <- <-].
      apply IH in El as (x & Hx & Hxl); [|done|done|done].
      exists x. split; [by right|done].
Qed.

(** When [launch_job] returns and every process of the job has been
    launched, the redirections were opened and the loop ran to its end. *)
Lemma launch_job_completed (j : job) (w : world) (code : Z) (j' : job)
    (w' : world) :
  Forall fresh_proc (procs j) → procs j ≠ [] →
  launch_job hd os j w = (Returned code, j', w') →
  Forall launched (procs j') →
  ∃ io_fd w1 p rest ps g w2,
    open_io os (io j) 0 default_fds w = (Some io_fd, w1)
    ∧ bind_io io_fd (procs j) = p :: rest
    ∧ launch_procs hd os (bkg j) (pgid j) p rest w1 = (None, ps, g, w2)
    ∧ code = 0 ∧ j' = with_procs ps g j
    ∧ w' = dispose (with_procs ps g j) w2.
Proof.
  intros Hfr Hne. unfold launch_job.
  destruct (open_io os (io j) 0 default_fds w) as [[io_fd|] w1] eqn:Eo.
  - pose proof (bind_io_same io_fd (procs j)) as Hsame.
    destruct (bind_io io_fd (procs j)) as [|p rest] eqn:Eb; [done|].
    destruct (launch_procs hd os (bkg j) (pgid j) p rest w1)
      as [[[[o|] ps] g] w2] eqn:El.
    + intros [= -> <- <-] Hl. exfalso. simpl in Hl.
      assert (Hun : Forall (λ q, pid q = 0 ∧ completed q = false)
                      (p :: rest)).
      { clear -Hfr Hsame.
        induction Hsame as [|x y l1 l2 (_ & _ & Hp & Hc & _) _ IH];
          [constructor|].
        apply Forall_cons in Hfr as [(_ & ? & ?) Hfr].
        constructor; [split; congruence|by apply IH]. }
      apply Forall_cons in Hun as [[Hp Hc] Hun].
      apply launch_procs_abort_unlaunched in El as (x & Hx & Hxl);
        [|done|done|done].
      rewrite Forall_forall in Hl. by apply Hxl, Hl.
    + intros [= <- <- <-] _. by exists io_fd, w1, p, rest, ps, g, w2.
  - intros [= _ <- _] Hl. exfalso.
    destruct (procs j) as [|q qs]; [done|].
    apply Forall_cons in Hfr as [(_ & Hp & Hc) _].
    apply Forall_cons in Hl as [[H|H] _]; congruence.
Qed.

Lemma dispose_failures (j : job) (w : world) :
  pipe_failures (trace (dispose j w)) = pipe_failures (trace w).
Proof. unfold dispose. by destruct (negb _), (bkg j). Qed.

Lemma open_io_failures (specs : list io_spec) (i : nat) (io_fd : list Z)
    (w : world) :
  (pipe_failures (trace w)
   ≤ pipe_failures (trace (open_io os specs i io_fd w).2))%nat.
Proof. eapply pipe_failures_extends, open_io_extends. Qed.


End LaunchFacts.

(** ** What [launch_job] returns *)

Section LaunchJob.

Context (hd : macros) (os : os_env).

(** X17: A launch that gets to the end of its loop returns 0, whatever the exit
    code of its last process; the other values it can return are the two
    failure codes. *)
Lemma launch_job_codes (j : job) (w : world) (code : Z) (j' : job)
    (w' : world) :
  launch_job hd os j w = (Returned code, j', w') →
  code = 0 ∨ code = M_FAILED_IO hd ∨ code = M_FAILED_EXEC hd.
Proof.
  unfold launch_job.
  destruct (open_io os (io j) 0 default_fds w) as [[io_fd|] w1];
    [|intros [= <- _ _]; auto].
  destruct (bind_io io_fd (procs j)) as [|p rest]; [done|].
  destruct (launch_procs hd os (bkg j) (pgid j) p rest w1)
    as [[[[o|] ps] g] w2] eqn:El.
  - intros [= -> _ _]. apply launch_procs_returned in El. auto.
  - intros [= <- _ _]. auto.
Qed.


(** C4: when one of the (three) redirections of a job cannot be opened, be
    it that the descriptors have run out or that the system refuses the
    path, [launch_job] returns [M_FAILED_IO] with the job untouched.  The
    descriptors of the shell are then those it had before the call, the queue
    of [fork] results has not been consumed and no process group has changed,
    and all that the call has done is: some [open] calls, the failing one,
    the message with [strerror] of its errno, and [close] calls. *)
Theorem redirection_failure_is_atomic (j : job) (w : world) :
  length (io j) = 3%nat →
  0 ∈ open_fds w → 1 ∈ open_fds w → 2 ∈ open_fds w →
  (open_io os (io j) 0 default_fds w).1 = None
  ∨ (∃ (k : nat) (s : io_spec) (pth : string),
       io j !! k = Some s ∧ path s = Some pth
       ∧ os_open_errno os pth (oflag s) ≠ 0) →
  ∃ w',
    launch_job hd os j w = (Returned (M_FAILED_IO hd), j, w')
    ∧ open_fds w' = open_fds w
    ∧ forks w' = forks w ∧ pgrp w' = pgrp w
    ∧ ∃ closes pth fl opens,
        trace w'
        = closes
          ++ EvStderr (os_strerror os
                         (if os_open_errno os pth fl =? 0 then EMFILE
                          else os_open_errno os pth fl))
          :: EvOpen pth fl FILE_MASK (-1) :: opens ++ trace w
        ∧ Forall (λ e, is_close e = true) closes
        ∧ Forall (λ e, is_open e = true) opens.
Proof.
  intros Hio H0 H1 H2 Hfail.
  assert (Hnone : (open_io os (io j) 0 default_fds w).1 = None).
  { destruct Hfail as [?|(k & s & pth & Hk & Hp & He)]; [done|].
    destruct (open_io os (io j) 0 default_fds w) as [[io_fd|] w1] eqn:Eo;
      [exfalso|done].
    apply (open_io_paths os (open_fds w)) in Eo;
      [|done|done|done|lia|apply io_inv_start].
    rewrite Forall_forall in Eo.
    apply He, (Eo s); [|done]. by eapply list_elem_of_lookup_2. }
  unfold launch_job.
  destruct (open_io os (io j) 0 default_fds w) as [[io_fd|] w1] eqn:Eo;
    [done|].
  apply (open_io_fail os (open_fds w)) in Eo;
    [|done|done|done|lia|apply io_inv_start].
  destruct Eo as (? & ? & ? & ?). by exists w1.
Qed.


(** C3: the turn of the loop for one process looks [argv[0]] up with
    [filter_command], so a binding of another kind is never found.  When a
    binding is found it is of kind [CMD] and its function is called on the
    process as it stands, in the shell: [fork] is not called; if the builtin
    returns, its value becomes the exit code of the process, which is marked
    completed and keeps its descriptor table.  When none is found, [fork] is
    called once.  When [launch_job] has launched every process of a job,
    every process whose first argument names a command builtin ends completed, with the value of
    the builtin as exit code and no pid, and every other process ends with
    the pid of a child. *)
Theorem builtins_run_in_process :
  (∀ (b : bool) (g : Z) (p : proc) (w : world),
     let r := dispatch hd os b g p w in
     match find_node (head (argv p)) filter_command (g_lookup_table w) with
     | Some bi =>
         type bi = CMD
         ∧ (head (argv p) ≫= (g_lookup_table w !!.)) = Some bi
         ∧ forks r.2 = forks w
         ∧ forks_of (trace r.2) = forks_of (trace w)
         ∧ match call hd os (cmd bi) p w with
           | (BRet v, w1) =>
               r = (None, set_done v p, g, w1)
               ∧ exit_code (set_done v p) = v
               ∧ completed (set_done v p) = true
               ∧ fds (set_done v p) = fds p
           | (BExit c, w1) => r = (Some (ShellExit c), p, g, w1)
           | (BUnspecified, w1) => r = (Some Unspecified, p, g, w1)
           end
     | None =>
         (∀ name bi, head (argv p) = Some name →
                     g_lookup_table w !! name = Some bi → type bi ≠ CMD)
         ∧ (head (argv p) ≠ None →
            ∃ ret, forks_of (trace r.2) = forks_of (trace w) ++ [ret])
     end)
  ∧ (∀ (j : job) (w : world) (code : Z) (j' : job) (w' : world),
       Forall fresh_proc (procs j) → procs j ≠ [] →
       launch_job hd os j w = (Returned code, j', w') →
       Forall launched (procs j') →
       Forall2 (launched_as hd os (g_lookup_table w)) (procs j) (procs j')).
Proof.
  split.
  - intros b g p w r. subst r. unfold dispatch.
    destruct (find_node _ _ _) as [bi|] eqn:Ef.
    + unfold find_node in Ef.
      destruct (head (argv p)) as [a0|]; [|done]. simpl in Ef |- *.
      destruct (g_lookup_table w !! a0) as [bi'|]; [|done]. simpl in Ef.
      destruct (filter_command bi') eqn:Efc; [|done].
      injection Ef as ->.
      split; [by apply Z.eqb_eq|]. split; [done|].
      pose proof (call_quiet hd os (cmd bi) p w) as Hq.
      destruct (call hd os (cmd bi) p w) as [[v|c|] w1];
        destruct Hq as (_ & _ & Hfk & _ & _ & _ & _ & Hfo); simpl;
        by repeat split.
    + split.
      * intros name bi Hn Hl Hty. unfold find_node in Ef.
        rewrite Hn in Ef. simpl in Ef. rewrite Hl in Ef. simpl in Ef.
        unfold filter_command in Ef.
        destruct (type bi =? CMD) eqn:E; [done|]. by apply Z.eqb_neq in E.
      * destruct (head (argv p)) as [a0|]; [intros _|done].
        unfold sys_fork.
        destruct (forks w) as [|[e|c|me] fs]; simpl.
        -- exists (-1). rewrite !forks_of_cons. simpl. by rewrite app_nil_r.
        -- exists (-1). rewrite !forks_of_cons. simpl. by rewrite app_nil_r.
        -- pose proof (Set_proc_group_spec hd b (Z.pos c) g
                         (log (EvFork (Z.pos c))
                            (with_pgrp (inherit_group (self w) (Z.pos c)
                                          (pgrp w)) (with_forks fs w))))
             as Hs.
           destruct (Set_proc_group _ _ _ _ _) as [g1 w2].
           simpl in Hs. destruct Hs as (_ & _ & _ & _ & _ & _ & Hf & _).
           exists (Z.pos c). simpl. by rewrite Hf, forks_of_cons.
        -- pose proof (Set_proc_group_spec hd b 0 g
                         (log (EvFork 0)
                            (with_pgrp (inherit_group (self w) (Z.pos me)
                                          (pgrp w))
                               (with_self (Z.pos me) (with_forks fs w)))))
             as Hs.
           destruct (Set_proc_group _ _ _ _ _) as [g1 w2].
           simpl in Hs. destruct Hs as (_ & _ & _ & _ & _ & _ & Hf & _).
           pose proof (exec_proc_quiet hd os p (log EvResetIgnoredSignals w2))
             as He.
           destruct (exec_proc _ _ _ _) as [o w4].
           simpl in He. destruct He as (_ & _ & _ & He & _).
           exists 0. simpl.
           by rewrite He, forks_of_cons, app_nil_r, Hf, forks_of_cons.
  - intros j w code j' w' Hfr Hne E Hl.
    destruct (launch_job_completed _ _ _ _ _ _ _ Hfr Hne E Hl)
      as (io_fd & w1 & p & rest & ps & g & w2 & Eo & Eb & El & _ & -> & _).
    apply open_io_quiet in Eo as (_ & _ & _ & Ht & _).
    pose proof (bind_io_same io_fd (procs j)) as Hsame. rewrite Eb in Hsame.
    apply launch_procs_each in El as [Hall _]. rewrite Ht in Hall.
    simpl. by eapply launched_as_via.
Qed.

(** The last thing a loop left for a failed [fork] has done is the call
    and the message. *)
Lemma launch_procs_abort_trace (b : bool) (rest : list proc) :
  ∀ (g : Z) (p : proc) (w : world) (c : Z) (ps : list proc) (g' : Z)
    (w' : world),
    launch_procs hd os b g p rest w = (Some (Returned c), ps, g', w') →
    ∃ msg tr, trace w' = EvStderr msg :: EvFork (-1) :: tr.
Proof.
  induction rest as [|q rest IH]; intros g p w c ps g' w'; simpl.
  - destruct (launch_one hd os b g p w) as [[[o p1] g1] w1] eqn:E.
    intros [= -> <- <- <-].
    apply launch_one_returned, dispatch_returned in E
      as (_ & _ & _ & _ & _ & _ & _ & _ & (msg & ->)). eauto.
  - destruct (pipe_fds os w) as [[r wr] w1].
    destruct (launch_one hd os b g (set_fd 1 wr p) w1)
      as [[[[o|] p1] g1] w2] eqn:E.
    + intros [= -> <- <- <-].
      apply launch_one_returned, dispatch_returned in E
        as (_ & _ & _ & _ & _ & _ & _ & _ & (msg & ->)). eauto.
    + destruct (launch_procs hd os b g1 (set_fd 0 r q) rest w2)
        as [[[o' ps'] g2] w3] eqn:El.
      intros [= -> <- <- <-]. by eapply IH.
Qed.

(** When the next [fork] fails, the turn of the loop for a process that
    names no builtin returns [M_FAILED_EXEC]. *)
Lemma dispatch_fork_fails (b : bool) (g : Z) (p : proc) (w : world) :
  find_node (head (argv p)) filter_command (g_lookup_table w) = None →
  head (argv p) ≠ None →
  forks w = [] ∨ (∃ e fs, forks w = ForkFail e :: fs) →
  ∃ msg w1,
    dispatch hd os b g p w = (Some (Returned (M_FAILED_EXEC hd)), p, g, w1)
    ∧ trace w1 = EvStderr msg :: EvFork (-1) :: trace w
    ∧ forks w1 = tail (forks w).
Proof.
  intros Hfn Hh Hf. unfold dispatch. rewrite Hfn.
  destruct (head (argv p)); [|done]. unfold sys_fork.
  destruct Hf as [Hf|(e & fs & Hf)]; rewrite Hf; simpl; eexists _, _;
    (split; [reflexivity|]); (split; [reflexivity|]); simpl; done.
Qed.

(** C5, as the code has it: a failed [fork] makes [launch_job] return
    [M_FAILED_EXEC], the very code a child ends with when [execvp] fails, and
    at once.  First, at the process of the loop for which the next [fork]
    fails: whatever processes come after it, the loop returns there, the
    failed call and the message being the last things it does, and no pid
    changes.  Then for the whole launch: if one of its calls of [fork]
    failed, it has returned [M_FAILED_EXEC] and that call was its last; the
    children forked before are those whose pids the job records, and they are
    left alone: the forks of the launch are these pids followed by the
    failed one. *)
Theorem fork_failure_aborts :
  (∀ (b : bool) (g : Z) (p : proc) (rest : list proc) (w : world),
     find_node (head (argv p)) filter_command (g_lookup_table w) = None →
     head (argv p) ≠ None →
     forks w = [] ∨ (∃ e fs, forks w = ForkFail e :: fs) →
     ∃ msg tr ps w',
       launch_procs hd os b g p rest w
       = (Some (Returned (M_FAILED_EXEC hd)), ps, g, w')
       ∧ trace w' = EvStderr msg :: EvFork (-1) :: tr
       ∧ forks_of (trace w') = forks_of (trace w) ++ [-1]
       ∧ forks w' = tail (forks w)
       ∧ pid <$> ps = pid <$> (p :: rest))
  ∧ (∀ (j : job) (w : world) (o : outcome) (j' : job) (w' : world)
       (fks : list Z),
       Forall (λ q, pid q = 0) (procs j) →
       launch_job hd os j w = (o, j', w') →
       forks_of (trace w') = forks_of (trace w) ++ fks →
       -1 ∈ fks →
       o = Returned (M_FAILED_EXEC hd)
       ∧ (∀ (p : proc) (wc : world) (file : string),
            head (argv p) = Some file → os_exec_errno os file ≠ 0 →
            (exec_proc hd os p wc).1 = ChildExit (M_FAILED_EXEC hd))
       ∧ (∃ msg tr, trace w' = EvStderr msg :: EvFork (-1) :: tr)
       ∧ fks = forked_pids (procs j') ++ [-1]
       ∧ Forall (λ x, 0 < x) (forked_pids (procs j'))).
Proof.
  split.
  - intros b g p rest w Hfn Hh Hf.
    destruct rest as [|q rest]; cbn [launch_procs].
    + destruct (dispatch_fork_fails b g p w Hfn Hh Hf)
        as (msg & w1 & Ed & Htr & Hfk).
      unfold launch_one. rewrite Ed.
      exists msg, (trace w), [p], w1.
      rewrite Htr, !forks_of_cons. simpl. by rewrite app_nil_r.
    + destruct (pipe_fds os w) as [[r wr] w1] eqn:Ep.
      apply (pipe_fds_frame os true true) in Ep
        as (_ & Hfo & _ & Ht & _ & _ & Hfk & _).
      destruct (dispatch_fork_fails b g (set_fd 1 wr p) w1)
        as (msg & w2 & Ed & Htr & Hfk2);
        [by rewrite Ht|done|by rewrite Hfo|].
      unfold launch_one. rewrite Ed.
      exists msg, (trace w1), (set_fd 1 wr p :: set_fd 0 r q :: rest), w2.
      rewrite Htr, !forks_of_cons, Hfk, Hfk2, Hfo. simpl.
      by rewrite app_nil_r.
  - intros j w o j' w' fks Hz E Hf Hin.
    assert (Hexec : ∀ (p : proc) (wc : world) (file : string),
              head (argv p) = Some file → os_exec_errno os file ≠ 0 →
              (exec_proc hd os p wc).1 = ChildExit (M_FAILED_EXEC hd)).
    { intros p wc file Hh He. unfold exec_proc.
      destruct (argv p) as [|f args]; [done|]. injection Hh as ->.
      apply Z.eqb_neq in He. by rewrite He. }
    revert E. unfold launch_job.
    destruct (open_io os (io j) 0 default_fds w) as [[io_fd|] w1] eqn:Eo.
    2: { intros [= <- <- <-]. exfalso.
         apply open_io_quiet in Eo as (_ & _ & _ & _ & _ & _ & Hfo & _).
         rewrite Hfo in Hf.
         rewrite <- (app_nil_r (forks_of (trace w))) in Hf at 1.
         apply app_inv_head in Hf. subst fks. by apply elem_of_nil in Hin. }
    apply open_io_quiet in Eo as (_ & _ & _ & _ & _ & _ & Hfo & _).
    assert (Hz' : Forall (λ q, pid q = 0) (bind_io io_fd (procs j))).
    { destruct (bind_io_keeps io_fd (procs j)) as (_ & Hp & _).
      apply (Forall_fmap pid (λ x, x = 0)). rewrite Hp.
      by apply (Forall_fmap pid (λ x, x = 0)). }
    destruct (bind_io io_fd (procs j)) as [|p rest].
    { intros [= <- <- <-]. exfalso. rewrite Hfo in Hf.
      rewrite <- (app_nil_r (forks_of (trace w))) in Hf at 1.
      apply app_inv_head in Hf. subst fks. by apply elem_of_nil in Hin. }
    destruct (launch_procs hd os (bkg j) (pgid j) p rest w1)
      as [[[o' ps] g] w2] eqn:El.
    pose proof (launch_procs_forks hd os _ _ _ _ _ _ _ _ _ Hz' El)
      as [Hfk Hpos].
    assert (Htail : ∀ w3, forks_of (trace w3) = forks_of (trace w2) →
                          forks_of (trace w3) = forks_of (trace w) ++ fks →
                          -1 ∈ fork_tail o'
                          ∧ fks = forked_pids ps ++ fork_tail o').
    { intros w3 E3 Hf3. rewrite E3, Hfk, Hfo in Hf3.
      apply app_inv_head in Hf3. subst fks. split; [|done].
      apply elem_of_app in Hin as [Hin|Hin]; [|done].
      rewrite Forall_forall in Hpos. specialize (Hpos _ Hin). lia. }
    destruct o' as [out|].
    + intros [= <- <- <-].
      destruct (Htail w2 eq_refl Hf) as [Hm ->].
      destruct out as [c| | | |]; simpl in Hm;
        try (by apply elem_of_nil in Hm);
        try (apply list_elem_of_singleton in Hm; discriminate Hm).
      pose proof (launch_procs_returned hd os _ _ _ _ _ _ _ _ _ El) as ->.
      pose proof (launch_procs_abort_trace _ _ _ _ _ _ _ _ _ El) as Htr.
      by repeat split.
    + intros [= <- <- <-]. exfalso.
      destruct (dispose_open (with_procs ps g j) w2) as (_ & _ & _ & Hd).
      destruct (Htail _ Hd Hf) as [Hm _]. by apply elem_of_nil in Hm.
Qed.

(** C6: in an interactive shell, after a launch of a job that had no group
    and no pids, the group of the job is the first pid the job records (0 if
    it records none), and the kernel has every process with a recorded pid in
    that group.  Parent and child agree without talking: with the group of
    the job at [g], the parent moves the child [me] to
    [if g = 0 then me else g], which it makes the group of the job, and the
    child, calling the macro with pid 0, reaches the same group through the
    zeros of [setpgid]. *)
Theorem job_process_group :
  (∀ (j : job) (w : world) (code : Z) (j' : job) (w' : world),
     g_interactive w = true → pgid j = 0 →
     Forall (λ q, pid q = 0) (procs j) →
     launch_job hd os j w = (Returned code, j', w') →
     pgid j' = first_forked (procs j')
     ∧ ∀ q, q ∈ procs j' → pid q ≠ 0 →
            pgrp w' !! pid q = Some (pgid j'))
  ∧ (∀ (b : bool) (g : Z) (p : proc) (w : world) (me : positive)
       (fs : list fork_result),
       g_interactive w = true →
       find_node (head (argv p)) filter_command (g_lookup_table w) = None →
       head (argv p) ≠ None →
       let parent := dispatch hd os b g p (with_forks (ForkParent me :: fs) w) in
       let child := dispatch hd os b g p (with_forks (ForkChild me :: fs) w) in
       parent.1.2 = (if g =? 0 then Z.pos me else g)
       ∧ pgrp parent.2 !! Z.pos me = Some (if g =? 0 then Z.pos me else g)
       ∧ pgrp child.2 !! Z.pos me = Some (if g =? 0 then Z.pos me else g)).
Proof.
  split.
  - intros j w code j' w' Hi Hg Hz. unfold launch_job.
    destruct (open_io os (io j) 0 default_fds w) as [[io_fd|] w1] eqn:Eo.
    + apply open_io_quiet in Eo as (_ & _ & _ & _ & Hi1 & _).
      assert (Hz' : Forall (λ q, pid q = 0) (bind_io io_fd (procs j))).
      { destruct (bind_io_keeps io_fd (procs j)) as (_ & Hp & _).
        apply (Forall_fmap pid (λ x, x = 0)). rewrite Hp.
        by apply (Forall_fmap pid (λ x, x = 0)). }
      destruct (bind_io io_fd (procs j)) as [|p rest]; [done|].
      destruct (launch_procs hd os (bkg j) (pgid j) p rest w1)
        as [[[o ps] g] w2] eqn:El.
      assert (Hsh : ∀ wx, (match o with
                           | Some out => (out, with_procs ps g j, w2)
                           | None => (Returned 0, with_procs ps g j, wx)
                           end) = (Returned code, j', w') → in_shell o).
      { intros wx. destruct o as [out|]; [|by left].
        intros [= -> _ _]. right. by eexists. }
      intros E. pose proof (Hsh _ E) as Ho.
      apply launch_procs_pgrp in El as (Hg' & Hm & _);
        [|congruence|done|done].
      rewrite Hg in Hg'. simpl in Hg'.
      destruct o as [out|].
      * injection E as _ <- <-. done.
      * injection E as _ <- <-. simpl.
        destruct (dispose_open (with_procs ps g j) w2) as (_ & -> & _).
        done.
    + intros [= _ <- <-].
      destruct (first_forked_none _ Hz) as [-> _]. split; [done|].
      intros q Hq Hq0. rewrite Forall_forall in Hz. by specialize (Hz q Hq).
  - intros b g p w me fs Hi Hfn Hne parent child. subst parent child.
    unfold dispatch. simpl. rewrite Hfn.
    destruct (head (argv p)) as [a0|]; [clear Hne|done].
    unfold sys_fork, Set_proc_group. simpl. rewrite Hi. simpl.
    split; [done|]. split.
    + destruct b; simpl.
      * rewrite lookup_insert_eq. by destruct (g =? 0) eqn:Eg; [|rewrite Eg].
      * rewrite lookup_insert_eq. by destruct (g =? 0) eqn:Eg; [|rewrite Eg].
    + match goal with |- context [exec_proc hd os p ?w0] =>
        pose proof (exec_proc_quiet hd os p w0) as He;
        destruct (exec_proc hd os p w0) as [o w4] end.
      simpl in He |- *. destruct He as (-> & _).
      destruct b; simpl; rewrite lookup_insert_eq;
        by destruct (g =? 0) eqn:Eg; [|rewrite Eg].
Qed.

End LaunchJob.

(** ** The model at work *)

Ltac by_computing :=
  match goal with
  | |- ?P => refine (@bool_decide_unpack P _ _); vm_compute; exact I
  end.

(** C1: [cd -] in a shell that has not changed directory yet.  The builtin
    fails with status 1, which becomes the exit code of the only, hence last,
    process of the job, while [launch_job] returns 0. *)
Theorem launch_job_returns_zero_not_last_status :
  run_cd_dash.1.1 = Returned 0
  ∧ exit_code <$> last (procs run_cd_dash.1.2) = Some 1
  ∧ completed <$> last (procs run_cd_dash.1.2) = Some true.
Proof. vm_compute. done. Qed.

(** The code of a failed [fork] is the code of a failed [execvp]: [ls > out]
    when [fork] fails, beside a child that cannot execute its command. *)
Lemma fork_failure_code_not_distinct :
  ¬ (∀ c1 c2 : Z,
       run_ls_no_fork.1.1 = Returned c1 →
       (exec_proc sample_hd sample_os (new_proc ["nosuchcmd"%string])
          world_no_fork).1 = ChildExit c2 →
       c1 ≠ c2).
Proof.
  intros H.
  apply (H (M_FAILED_EXEC sample_hd) (M_FAILED_EXEC sample_hd));
    [vm_compute; reflexivity|vm_compute; reflexivity|reflexivity].
Qed.


(** What the loop closes after a call of [pipe] that failed: the first
    process of [ls | wc] has the unset [fd[1]], here 0, in slot 1, and
    [fd_cleanup] closes it in the shell. *)
Lemma pipe_failure_closes_descriptor :
  fds <$> procs run_pipe_fails.1.2 = [[0; 0; 2]; [0; 1; 2]]
  ∧ 0 ∈ open_fds world_full ∧ 0 ∉ open_fds run_pipe_fails.2.
Proof.
  split; [vm_compute; reflexivity|]. split; by_computing.
Qed.



Lemma builtins_run_in_process_witness :
  Forall2 (launched_as sample_hd sample_os (g_lookup_table world_two_forks))
    (procs job_pipeline) (procs run_pipeline.1.2).
Proof.
  apply (proj2 (builtins_run_in_process sample_hd sample_os) job_pipeline
           world_two_forks 0 run_pipeline.1.2 run_pipeline.2).
  - repeat constructor.
  - discriminate.
  - vm_compute. reflexivity.
  - by_computing.
Defined.

Lemma redirection_failure_is_atomic_witness :
  ∃ w', launch_job sample_hd sample_os job_bad_redirect world_two_forks
        = (Returned (M_FAILED_IO sample_hd), job_bad_redirect, w')
        ∧ open_fds w' = open_fds world_two_forks
        ∧ forks w' = forks world_two_forks.
Proof.
  destruct (redirection_failure_is_atomic sample_hd sample_os
              job_bad_redirect world_two_forks)
    as (w' & H1 & H2 & H3 & _).
  - reflexivity.
  - by_computing.
  - by_computing.
  - by_computing.
  - right. exists 2%nat, (redirect "/nonexistent/out" 577),
      "/nonexistent/out"%string.
    split; [reflexivity|]. split; [reflexivity|]. vm_compute. discriminate.
  - exists w'. split; [exact H1|]. split; [exact H2|exact H3].
Defined.

Lemma fork_failure_aborts_witness :
  (∃ msg tr ps w',
     launch_procs sample_hd sample_os false 0 (new_proc ["ls"%string])
       [new_proc ["wc"%string]] world_no_fork
     = (Some (Returned (M_FAILED_EXEC sample_hd)), ps, 0, w')
     ∧ trace w' = EvStderr msg :: EvFork (-1) :: tr)
  ∧ run_second_fork_fails.1.1 = Returned (M_FAILED_EXEC sample_hd)
  ∧ (∃ msg tr,
       trace run_second_fork_fails.2 = EvStderr msg :: EvFork (-1) :: tr)
  ∧ [100; -1] = forked_pids (procs run_second_fork_fails.1.2) ++ [-1].
Proof.
  split.
  - destruct (proj1 (fork_failure_aborts sample_hd sample_os) false 0
                (new_proc ["ls"%string]) [new_proc ["wc"%string]]
                world_no_fork)
      as (msg & tr & ps & w' & H1 & H2 & _).
    + vm_compute. reflexivity.
    + discriminate.
    + right. exists EAGAIN, []. reflexivity.
    + exists msg, tr, ps, w'. split; [exact H1|exact H2].
  - destruct (proj2 (fork_failure_aborts sample_hd sample_os) job_pipeline
                world_second_fork_fails run_second_fork_fails.1.1
                run_second_fork_fails.1.2 run_second_fork_fails.2 [100; -1])
      as (H1 & _ & H3 & H4 & _).
    + repeat constructor.
    + vm_compute. reflexivity.
    + vm_compute. reflexivity.
    + right. left.
    + split; [exact H1|]. split; [exact H3|exact H4].
Defined.

Lemma job_process_group_witness :
  pgid run_pipeline.1.2 = first_forked (procs run_pipeline.1.2)
  ∧ ∀ q, q ∈ procs run_pipeline.1.2 → pid q ≠ 0 →
         pgrp run_pipeline.2 !! pid q = Some (pgid run_pipeline.1.2).
Proof.
  apply (proj1 (job_process_group sample_hd sample_os) job_pipeline
           world_two_forks 0 run_pipeline.1.2 run_pipeline.2).
  - reflexivity.
  - reflexivity.
  - repeat constructor.
  - vm_compute. reflexivity.
Defined.


Lemma initialize_builtins_idempotent_witness :
  (initialize_builtins sample_os (boot [])).1 = true
  ∧ g_lookup_table
      (initialize_builtins sample_os
         (initialize_builtins sample_os (boot [])).2).2
    = g_lookup_table (initialize_builtins sample_os (boot [])).2
  ∧ cleanup_builtins
    ∈ atexit_handlers (initialize_builtins sample_os (boot [])).2.
Proof.
  destruct (initialize_builtins_idempotent sample_os (boot [])) as [H1 H2].
  split; [reflexivity|]. split; [exact H1|].
  apply H2. reflexivity.
Defined.

Lemma stopped_child_reported_completed_witness :
  ∃ s1,
    handle_signals model_get_active_child model_reset_active_child
      model_del_bkg_proc 130 SIGCHLD sample_sigstate = Some (HReturn, s1)
    ∧ out s1 = (reap_by_spec model_get_active_child model_reset_active_child
                  model_del_bkg_proc [(202%positive, W_EXITCODE 3 0)]
                  (model_del_bkg_proc 201 (chld sample_sigstate)).2
                  ["[1] completed. Exit: 20"%string]).2.
Proof.
  destruct (stopped_child_reported_completed model_get_active_child
              model_reset_active_child model_del_bkg_proc 130
              sample_sigstate 201%positive 20
              [(202%positive, W_EXITCODE 3 0)])
    as (_ & _ & s1 & s2 & H1 & _ & _ & H4 & _).
  - reflexivity.
  - vm_compute. discriminate.
  - lia.
  - exists s1. split; [exact H1|exact H4].
Defined.

(** * Further properties *)

(** ** The [cd] builtin *)

Section CdFacts.

Context (os : os_env).

(** X1: [cd -] before any change of directory: the builtin fails with status 1
    and a message, without calling [chdir] and without touching the working
    directory or [oldpwd]. *)
Theorem cd_dash_without_oldpwd (p : proc) (w : world) :
  argv p !! 1%nat = Some "-"%string → g_oldpwd w = ""%string →
  (m_cd os p w).1 = BRet 1
  ∧ cwd (m_cd os p w).2 = cwd w
  ∧ g_oldpwd (m_cd os p w).2 = ""%string
  ∧ trace (m_cd os p w).2 = EvStderr "OLDPWD not set" :: trace w.
Proof.
  intros Ha Ho. unfold m_cd. rewrite Ha, Ho. simpl. by repeat split.
Qed.

(** X2: [cd d] followed by [cd -] is a round trip.  With [there] the
    absolute path of the directory that [d] names: when both [getcwd] calls
    and both [chdir] calls succeed and the path of the directory the shell
    started in still names it, the shell is back in that directory and
    [oldpwd] is [there]. *)
Theorem cd_round_trip (p1 p2 : proc) (w : world) (d : string) :
  argv p1 !! 1%nat = Some d → d ≠ "-"%string →
  argv p2 !! 1%nat = Some "-"%string →
  cwd w ≠ ""%string →
  let there := os_resolve os (cwd w) d in
  os_getcwd_errno os (cwd w) = 0 → os_getcwd_errno os there = 0 →
  os_chdir_errno os (cwd w) d = 0 → os_chdir_errno os there (cwd w) = 0 →
  os_resolve os there (cwd w) = cwd w →
  let r1 := m_cd os p1 w in
  let r2 := m_cd os p2 r1.2 in
  r1.1 = BRet 0 ∧ cwd r1.2 = there ∧ g_oldpwd r1.2 = cwd w
  ∧ r2.1 = BRet 0 ∧ cwd r2.2 = cwd w ∧ g_oldpwd r2.2 = there.
Proof.
  intros H1 Hd H2 Hc there Hg1 Hg2 Hok1 Hok2 Hback r1 r2. subst r1 r2.
  assert (E1 : m_cd os p1 w
               = (BRet 0, log (EvChdir d 0)
                            (with_cwd there (with_oldpwd (cwd w) w)))).
  { unfold m_cd, sys_getcwd. rewrite H1. simpl.
    rewrite bool_decide_eq_false_2 by done. simpl.
    by rewrite Hok1, Hg1. }
  rewrite E1. simpl. unfold m_cd, sys_getcwd. rewrite H2. simpl.
  rewrite (bool_decide_eq_false_2 (cwd w = ""%string)) by done. simpl.
  rewrite Hok2, Hg2. simpl. by repeat split.
Qed.

(** X3: A [cd] whose [chdir] fails has still overwritten [oldpwd]: the
    builtin returns 1 and the working directory stays, but [oldpwd] is now
    the path of the working directory, whatever it was before.  It is left
    as it was only if [getcwd] has failed as well. *)
Theorem cd_failure_overwrites_oldpwd (p : proc) (w : world) (d : string) :
  argv p !! 1%nat = Some d →
  d ≠ "-"%string ∨ g_oldpwd w ≠ ""%string →
  os_chdir_errno os (cwd w)
    (if bool_decide (d = "-"%string) then g_oldpwd w else d) ≠ 0 →
  (m_cd os p w).1 = BRet 1
  ∧ cwd (m_cd os p w).2 = cwd w
  ∧ g_oldpwd (m_cd os p w).2
    = (if os_getcwd_errno os (cwd w) =? 0 then cwd w else g_oldpwd w).
Proof.
  intros Ha Hd Hf. unfold m_cd, sys_getcwd. rewrite Ha. simpl.
  apply Z.eqb_neq in Hf.
  destruct (bool_decide (d = "-"%string)) eqn:Ed; simpl.
  - destruct Hd as [Hd|Hd]; [by apply bool_decide_eq_true in Ed|].
    rewrite bool_decide_eq_false_2 by done.
    rewrite Hf. by destruct (os_getcwd_errno os (cwd w) =? 0).
  - rewrite Hf. by destruct (os_getcwd_errno os (cwd w) =? 0).
Qed.

End CdFacts.

Lemma cd_dash_without_oldpwd_witness :
  (m_cd sample_os (new_proc ["cd"; "-"]%string) (sample_world [])).1 = BRet 1.
Proof.
  apply (cd_dash_without_oldpwd sample_os (new_proc ["cd"; "-"]%string)
           (sample_world [])); reflexivity.
Defined.

Lemma cd_round_trip_witness :
  cwd (m_cd sample_os (new_proc ["cd"; "-"]%string)
         (m_cd sample_os (new_proc ["cd"; "tmp"]%string)
            (sample_world [])).2).2
  = "/"%string
  ∧ g_oldpwd (m_cd sample_os (new_proc ["cd"; "-"]%string)
                (m_cd sample_os (new_proc ["cd"; "tmp"]%string)
                   (sample_world [])).2).2
    = "/tmp"%string.
Proof.
  apply (cd_round_trip sample_os (new_proc ["cd"; "tmp"]%string)
           (new_proc ["cd"; "-"]%string) (sample_world []) "tmp"%string);
    (reflexivity || (vm_compute; discriminate)).
Defined.

Lemma cd_failure_overwrites_oldpwd_witness :
  g_oldpwd (m_cd strict_os (new_proc ["cd"; "/nonexistent"]%string)
              (sample_world [])).2
  = "/"%string.
Proof.
  apply (cd_failure_overwrites_oldpwd strict_os
           (new_proc ["cd"; "/nonexistent"]%string) (sample_world [])
           "/nonexistent"%string).
  - reflexivity.
  - left. discriminate.
  - vm_compute. discriminate.
Defined.

(** ** The forked child: [exec_proc] *)

Section ChildFacts.

Context (hd : macros) (os : os_env).

Lemma apply_env_app (es1 es2 : list (string * string)) (w : world) :
  apply_env os (es1 ++ es2) w = apply_env os es2 (apply_env os es1 w).
Proof.
  revert w. induction es1 as [|[e v] es1 IH]; intros w; simpl; [done|].
  by rewrite IH.
Qed.

Lemma apply_env_other (es : list (string * string)) (w : world) (n : string) :
  n ∉ es.*1 → environ (apply_env os es w) !! n = environ w !! n.
Proof.
  revert w. induction es as [|[e v] es IH]; intros w Hn; simpl; [done|].
  apply not_elem_of_cons in Hn as [Hne Hn]. simpl in Hne.
  rewrite IH by done.
  destruct (os_setenv_errno os e =? 0); simpl.
  - by rewrite lookup_insert_ne, lookup_delete_ne.
  - by rewrite lookup_delete_ne.
Qed.

(** X4: The environment overrides of a process are applied in order, each by
    [unsetenv] followed by [setenv].  So a name the overrides do not mention
    keeps its value, the last override of a name wins, and a name whose
    [setenv] fails ends up unset, even if the shell had a value for it. *)
Theorem env_overrides_applied (es : list (string * string)) (w : world) :
  (∀ n, n ∉ es.*1 → environ (apply_env os es w) !! n = environ w !! n)
  ∧ (∀ es1 es2 n v,
       es = es1 ++ (n, v) :: es2 → n ∉ es2.*1 →
       environ (apply_env os es w) !! n
       = if os_setenv_errno os n =? 0 then Some v else None).
Proof.
  split; [intros n; apply apply_env_other|].
  intros es1 es2 n v -> Hn.
  rewrite apply_env_app. simpl. rewrite apply_env_other by done.
  destruct (os_setenv_errno os n =? 0); simpl.
  - by rewrite lookup_insert_eq.
  - by rewrite lookup_delete_eq.
Qed.

Lemma apply_env_open (es : list (string * string)) (w : world) :
  open_fds (apply_env os es w) = open_fds w.
Proof.
  revert w. induction es as [|[e v] es IH]; intros w; simpl; [done|].
  rewrite IH. by destruct (os_setenv_errno os e =? 0).
Qed.

Lemma dup_fds_open (tab : list Z) (k : Z) (w : world) :
  open_fds w ⊆ open_fds (dup_fds k tab w)
  ∧ ∀ (i : nat) (fd : Z),
      tab !! i = Some fd → fd ∈ open_fds w →
      k + Z.of_nat i ∈ open_fds (dup_fds k tab w).
Proof.
  revert k w. induction tab as [|x tab IH]; intros k w; simpl.
  { split; [done|]. by intros i fd. }
  destruct (IH (k + 1) (sys_dup2 x k w)) as [Hmono Hslots].
  assert (Hstep : open_fds w ⊆ open_fds (sys_dup2 x k w)).
  { unfold sys_dup2. case_bool_decide; simpl; set_solver. }
  split; [set_solver|].
  intros [|i] fd Hl Hin; simpl in Hl.
  - injection Hl as ->. apply Hmono. unfold sys_dup2.
    rewrite bool_decide_eq_true_2 by done. simpl.
    replace (k + Z.of_nat 0) with k by lia. set_solver.
  - replace (k + Z.of_nat (S i)) with (k + 1 + Z.of_nat i) by lia.
    apply (Hslots i fd); [done|]. by apply Hstep.
Qed.

(** X5: The child closes nothing: every descriptor it inherited is still open
    when it calls [execvp], the ends of pipes included.  The slots 0, 1 and 2
    are open then, if the descriptors of its table were.  It ends by
    executing its command, or by [_Exit (M_FAILED_EXEC)] after a message if
    that fails; it never returns. *)
Theorem child_keeps_descriptors (p : proc) (w : world) :
  let r := exec_proc hd os p w in
  open_fds w ⊆ open_fds r.2
  ∧ (∀ (i : nat) (fd : Z),
       fds p !! i = Some fd → fd ∈ open_fds w → Z.of_nat i ∈ open_fds r.2)
  ∧ (∀ file, head (argv p) = Some file →
       r.1 = (if os_exec_errno os file =? 0 then ChildExec (argv p)
              else ChildExit (M_FAILED_EXEC hd))).
Proof.
  intros r. subst r. unfold exec_proc.
  destruct (dup_fds_open (fds p) 0 (apply_env os (env p) w)) as [Hm Hs].
  rewrite apply_env_open in Hm, Hs.
  assert (Hopen : open_fds
                    (match argv p with
                     | [] => (Unspecified, dup_fds 0 (fds p)
                                             (apply_env os (env p) w))
                     | file :: _ =>
                         if os_exec_errno os file =? 0
                         then (ChildExec (argv p),
                               log (EvExecvp file (argv p) 0)
                                 (dup_fds 0 (fds p) (apply_env os (env p) w)))
                         else (ChildExit (M_FAILED_EXEC hd),
                               Stopif_msg
                                 (os_strerror os
                                    (errno
                                       (log (EvExecvp file (argv p) (-1))
                                          (with_errno (os_exec_errno os file)
                                             (dup_fds 0 (fds p)
                                                (apply_env os (env p) w)))))
                                  +:+ ": " +:+ file)
                                 (log (EvExecvp file (argv p) (-1))
                                    (with_errno (os_exec_errno os file)
                                       (dup_fds 0 (fds p)
                                          (apply_env os (env p) w)))))
                     end).2
                  = open_fds (dup_fds 0 (fds p) (apply_env os (env p) w))).
  { destruct (argv p) as [|file args]; [done|].
    by destruct (os_exec_errno os file =? 0). }
  rewrite Hopen. split; [done|]. split.
  - intros i fd Hl Hin. by apply (Hs i fd).
  - intros file Hh. destruct (argv p) as [|f args]; [done|].
    injection Hh as ->. by destruct (os_exec_errno os file =? 0).
Qed.

End ChildFacts.

Lemma env_overrides_applied_witness :
  environ
    (apply_env strict_os
       [("HOME", "/a"); ("BAD=NAME", "x"); ("HOME", "/b")]%string
       (sample_world [])) !! "HOME"%string
  = Some "/b"%string.
Proof.
  apply (proj2 (env_overrides_applied strict_os
                  [("HOME", "/a"); ("BAD=NAME", "x"); ("HOME", "/b")]%string
                  (sample_world []))
           [("HOME", "/a"); ("BAD=NAME", "x")]%string [] "HOME"%string
           "/b"%string).
  - reflexivity.
  - by_computing.
Defined.

Lemma child_keeps_descriptors_witness :
  1 ∈ open_fds (exec_proc sample_hd sample_os
                  (set_fd 1 2 (new_proc ["wc"]%string)) (sample_world [])).2.
Proof.
  apply (proj1 (proj2 (child_keeps_descriptors sample_hd sample_os
                         (set_fd 1 2 (new_proc ["wc"]%string))
                         (sample_world []))) 1%nat 2).
  - reflexivity.
  - by_computing.
Defined.

(** ** [initialize_builtins] when something fails, and when called again *)

Section BuiltinInit.

Context (os : os_env).

(** X6: [initialize_builtins] reports success exactly when [add_node] succeeds
    for every builtin name and [atexit] has room.  When [add_node] fails for
    a name it returns at once: the table holds the names before that one and
    no more, and the teardown is not registered. *)
Theorem initialize_builtins_failure (w : world) :
  let r := initialize_builtins os w in
  (r.1 = true
   ↔ Forall (λ n, os_add_node_rc os n = 0) builtin_names
     ∧ (length (atexit_handlers w) < os_atexit_max os)%nat)
  ∧ (∀ (k : nat) (name : string),
       builtin_names !! k = Some name → os_add_node_rc os name ≠ 0 →
       Forall (λ n, os_add_node_rc os n = 0) (take k builtin_names) →
       r.1 = false
       ∧ atexit_handlers r.2 = atexit_handlers w
       ∧ dom (g_lookup_table r.2) = list_to_set (take k builtin_names)).
Proof.
  intros r. subst r.
  unfold initialize_builtins, builtin_names, builtin_funcs, sys_atexit.
  cbn [add_builtins]. unfold add_node.
  destruct (os_add_node_rc os "cd" =? 0) eqn:E1; simpl; rewrite ?E1; simpl.
  2:{ apply Z.eqb_neq in E1. split.
      - split; [done|]. intros [H _]. by apply Forall_cons in H as [? _].
      - intros [|[|[|k]]] name; simpl; intros [= <-] Hf Hall;
          repeat (apply Forall_cons in Hall as [? Hall]); try done;
          repeat split; unfold new_table;
          rewrite ?dom_insert_L, ?dom_empty_L; set_solver. }
  apply Z.eqb_eq in E1.
  destruct (os_add_node_rc os "exit" =? 0) eqn:E2; simpl; rewrite ?E2; simpl.
  2:{ apply Z.eqb_neq in E2. split.
      - split; [done|]. intros [H _].
        by repeat (apply Forall_cons in H as [? H]).
      - intros [|[|[|k]]] name; simpl; intros [= <-] Hf Hall;
          repeat (apply Forall_cons in Hall as [? Hall]); try done;
          repeat split; unfold new_table;
          rewrite ?dom_insert_L, ?dom_empty_L; set_solver. }
  apply Z.eqb_eq in E2.
  destruct (os_add_node_rc os "help" =? 0) eqn:E3; simpl; rewrite ?E3; simpl.
  2:{ apply Z.eqb_neq in E3. split.
      - split; [done|]. intros [H _].
        by repeat (apply Forall_cons in H as [? H]).
      - intros [|[|[|k]]] name; simpl; intros [= <-] Hf Hall;
          repeat (apply Forall_cons in Hall as [? Hall]); try done;
          repeat split; unfold new_table;
          rewrite ?dom_insert_L, ?dom_empty_L; set_solver. }
  apply Z.eqb_eq in E3. split.
  - destruct (length (atexit_handlers w) <? os_atexit_max os)%nat eqn:Ea;
      simpl.
    + apply Nat.ltb_lt in Ea. split; [|done]. intros _.
      split; [|done]. by repeat constructor.
    + apply Nat.ltb_ge in Ea. split; [done|]. intros [_ ?]. lia.
  - intros [|[|[|k]]] name; simpl; intros [= <-] Hf; done.
Qed.

(** X7: Every successful call registers [cleanup_builtins] once more: after two
    of them the teardown of the one table is registered twice. *)
Theorem initialize_builtins_registers_again (w : world) :
  let r1 := initialize_builtins os w in
  let r2 := initialize_builtins os r1.2 in
  r1.1 = true → r2.1 = true →
  atexit_handlers r2.2
  = cleanup_builtins :: cleanup_builtins :: atexit_handlers w.
Proof.
  intros r1 r2 H1 H2. subst r1 r2.
  destruct (initialize_builtins os w) as [ok1 w1] eqn:E1.
  simpl in *. subst ok1.
  destruct (initialize_builtins os w1) as [ok2 w2] eqn:E2.
  simpl in *. subst ok2.
  apply initialize_builtins_ok in E2 as [_ ->].
  apply initialize_builtins_ok in E1 as [_ ->]. done.
Qed.

End BuiltinInit.

Lemma initialize_builtins_failure_witness :
  (initialize_builtins strict_os (boot [])).1 = false
  ∧ atexit_handlers (initialize_builtins strict_os (boot [])).2 = []
  ∧ dom (g_lookup_table (initialize_builtins strict_os (boot [])).2)
    = list_to_set (take 1 builtin_names).
Proof.
  apply (proj2 (initialize_builtins_failure strict_os (boot [])) 1%nat
           "exit"%string).
  - reflexivity.
  - vm_compute. discriminate.
  - repeat constructor.
Defined.

Lemma initialize_builtins_registers_again_witness :
  atexit_handlers
    (initialize_builtins sample_os
       (initialize_builtins sample_os (boot [])).2).2
  = [cleanup_builtins; cleanup_builtins].
Proof.
  apply (initialize_builtins_registers_again sample_os (boot []));
    reflexivity.
Defined.

(** ** More on the SIGCHLD handler *)

(** The status of a child killed by signal [sig], with or without a core
    dump, has no exit status and is neither "exited" nor "stopped". *)
Lemma WEXITSTATUS_killed (sig : Z) (core : bool) :
  0 < sig < 127 →
  let status := Z.lor (W_EXITCODE 0 sig) (if core then 128 else 0) in
  WEXITSTATUS status = 0 ∧ WIFEXITED status = false
  ∧ WIFSTOPPED status = false.
Proof.
  intros H. assert (Hin : sig ∈ seqZ 1 126) by (apply elem_of_seqZ; lia).
  clear H. revert sig Hin. apply Forall_forall.
  destruct core;
    refine (bool_decide_unpack (Forall _ _) _); vm_compute; exact I.
Qed.

Section ReapFacts.

Context {children : Type}.
Context (get_active_child : children → Z).
Context (reset_active_child : children → children).
Context (del_bkg_proc : Z → children → nat * children).
Context (SIGINT_EXIT_CODE : Z).

Abbreviation by_spec' :=
  (reap_by_spec get_active_child reset_active_child del_bkg_proc).
Abbreviation handler' :=
  (handle_signals get_active_child reset_active_child del_bkg_proc
     SIGINT_EXIT_CODE).

Lemma reap_by_spec_appends (pend : list (positive * Z)) (c : children)
    (o : list string) :
  ∃ lines, (by_spec' pend c o).2 = o ++ lines
           ∧ (length lines ≤ length pend)%nat.
Proof.
  revert c o. induction pend as [|[p st] rest IH]; intros c o.
  - exists []. simpl. by rewrite app_nil_r.
  - cbn [reap_by_spec]. destruct (Z.pos p =? get_active_child c).
    + destruct (IH (reset_active_child c) o) as (l & Hl & Hlen).
      exists l. split; [done|]. simpl. lia.
    + destruct (IH (del_bkg_proc (Z.pos p) c).2
                  (o ++ [completed_msg (del_bkg_proc (Z.pos p) c).1 st]))
        as (l & Hl & Hlen).
      eexists (_ :: l). split.
      * rewrite Hl, <- app_assoc. done.
      * simpl. lia.
Qed.

Lemma sigchld_leaves_nothing_pending (s : sigstate) :
  ∃ s', handler' SIGCHLD s = Some (HReturn, s') ∧ pending s' = [].
Proof.
  unfold handle_signals. rewrite sigchld_loop_first. simpl.
  eexists; split; [done|].
  destruct (pending s) eqn:E; [|done].
  destruct (quiet s =? 0)%nat; done.
Qed.

(** X8: The handler only adds to what the shell has printed, at most one line
    for each child [waitpid] reports, and leaves [exit_code] alone; what it
    leaves of the kernel's side is no pending report, and the children that
    were reported as stopped counted among those that remain. *)
Theorem sigchld_prints_one_line_per_child (s : sigstate) :
  ∃ s' lines,
    handler' SIGCHLD s = Some (HReturn, s')
    ∧ out s' = out s ++ lines
    ∧ (length lines ≤ length (pending s))%nat
    ∧ sig_exit_code s' = sig_exit_code s
    ∧ pending s' = []
    ∧ quiet s' = (quiet s + stopped_count (pending s))%nat.
Proof.
  unfold handle_signals. rewrite sigchld_loop_first. simpl.
  destruct (pending s) as [|e rest] eqn:Ep.
  - exists (if (quiet s =? 0)%nat
            then with_chld (reset_active_child (chld s)) s else s), [].
    rewrite app_nil_r. unfold stopped_count. simpl.
    destruct (quiet s =? 0)%nat; simpl; rewrite ?Ep;
      repeat split; try done; lia.
  - destruct (reap_by_spec_appends (e :: rest) (chld s) (out s))
      as (lines & Hl & Hlen).
    eexists _, lines. split; [done|]. simpl. by repeat split.
Qed.

(** X9: A SIGCHLD with nothing to report, such as a second one right after the
    handler has run, prints nothing and removes no job: each completion is
    reported once.  All it can do is reset the active child, and that only
    when the shell has no children left. *)
Theorem sigchld_twice_reports_once (s s1 : sigstate) :
  handler' SIGCHLD s = Some (HReturn, s1) →
  ∃ s2,
    handler' SIGCHLD s1 = Some (HReturn, s2)
    ∧ out s2 = out s1 ∧ pending s2 = [] ∧ quiet s2 = quiet s1
    ∧ chld s2 = (if (quiet s1 =? 0)%nat
                 then reset_active_child (chld s1) else chld s1).
Proof.
  intros H1.
  assert (Hp : pending s1 = []).
  { destruct (sigchld_leaves_nothing_pending s) as (s' & E & Hp).
    rewrite E in H1. by injection H1 as <-. }
  unfold handle_signals. rewrite sigchld_loop_first. simpl. rewrite Hp.
  eexists. split; [done|].
  destruct (quiet s1 =? 0)%nat; simpl; by repeat split.
Qed.

(** X10: A background child killed by a signal is reported like one that exited
    with status 0: "[n] completed. Exit: 0". *)
Theorem killed_child_reported_exit_zero (s : sigstate) (p : positive)
    (sig : Z) (core : bool) (rest : list (positive * Z)) :
  pending s
  = (p, Z.lor (W_EXITCODE 0 sig) (if core then 128 else 0)) :: rest →
  Z.pos p ≠ get_active_child (chld s) →
  0 < sig < 127 →
  let n := (del_bkg_proc (Z.pos p) (chld s)).1 in
  let c1 := (del_bkg_proc (Z.pos p) (chld s)).2 in
  let line := ("[" +:+ pretty n +:+ "] completed. Exit: 0")%string in
  ∃ s1,
    handler' SIGCHLD s = Some (HReturn, s1)
    ∧ chld s1 = (by_spec' rest c1 (out s ++ [line])).1
    ∧ out s1 = (by_spec' rest c1 (out s ++ [line])).2.
Proof.
  intros Hp Ha Hs n c1 line.
  destruct (WEXITSTATUS_killed sig core Hs) as (Hw & _).
  unfold handle_signals. rewrite sigchld_loop_first.
  cbn [pending quiet chld out sig_exit_code mbind option_bind].
  rewrite Hp. eexists. split; [done|].
  cbn [chld out reap_by_spec fst snd].
  apply Z.eqb_neq in Ha. rewrite Ha.
  unfold completed_msg. rewrite Hw. done.
Qed.

End ReapFacts.

Lemma killed_child_reported_exit_zero_witness :
  ∃ s1,
    handle_signals model_get_active_child model_reset_active_child
      model_del_bkg_proc 130 SIGCHLD killed_sigstate = Some (HReturn, s1)
    ∧ out s1 = ["[1] completed. Exit: 0"%string].
Proof.
  destruct (killed_child_reported_exit_zero model_get_active_child
              model_reset_active_child model_del_bkg_proc 130
              killed_sigstate 201%positive 11 true [])
    as (s1 & H1 & _ & H3).
  - reflexivity.
  - vm_compute. discriminate.
  - lia.
  - exists s1. split; [exact H1|exact H3].
Defined.

Lemma sigchld_twice_reports_once_witness :
  ∃ s1 s2,
    handle_signals model_get_active_child model_reset_active_child
      model_del_bkg_proc 130 SIGCHLD sample_sigstate = Some (HReturn, s1)
    ∧ handle_signals model_get_active_child model_reset_active_child
        model_del_bkg_proc 130 SIGCHLD s1 = Some (HReturn, s2)
    ∧ out s2 = out s1.
Proof.
  eexists.
  edestruct (sigchld_twice_reports_once model_get_active_child
               model_reset_active_child model_del_bkg_proc 130
               sample_sigstate)
    as (s2 & H1 & H2 & _).
  - vm_compute. reflexivity.
  - exists s2. split; [reflexivity|]. split; [exact H1|exact H2].
Defined.

(** X11: Signals other than SIGCHLD leave the children alone: the handler polls
    nothing and changes neither the registry nor the kernel's side.  Only
    SIGINT sets [exit_code] and leaves through [siglongjmp]; the others
    return. *)
Theorem only_sigchld_reaps {children : Type}
    (get_active_child : children → Z)
    (reset_active_child : children → children)
    (del_bkg_proc : Z → children → nat * children)
    (SIGINT_EXIT_CODE : Z) (sig : signo) (s : sigstate) :
  sig ≠ SIGCHLD →
  ∃ how s',
    handle_signals get_active_child reset_active_child del_bkg_proc
      SIGINT_EXIT_CODE sig s = Some (how, s')
    ∧ pending s' = pending s ∧ quiet s' = quiet s ∧ chld s' = chld s
    ∧ (how = HLongjmp ↔ sig = SIGINT)
    ∧ sig_exit_code s'
      = match how with
        | HLongjmp => SIGINT_EXIT_CODE
        | HReturn => sig_exit_code s
        end
    ∧ (sig = SIGOTHER → s' = s).
Proof.
  intros Hs. destruct sig; try done; simpl; eexists _, _;
    (split; [reflexivity|]); simpl; repeat split; try done.
Qed.

Lemma only_sigchld_reaps_witness :
  ∃ s',
    handle_signals model_get_active_child model_reset_active_child
      model_del_bkg_proc 130 SIGINT sample_sigstate = Some (HLongjmp, s')
    ∧ chld s' = chld sample_sigstate ∧ sig_exit_code s' = 130.
Proof.
  destruct (only_sigchld_reaps model_get_active_child
              model_reset_active_child model_del_bkg_proc 130
              SIGINT sample_sigstate)
    as (how & s' & H1 & _ & _ & H4 & H5 & H6 & _).
  - discriminate.
  - destruct H5 as [_ H5]. specialize (H5 eq_refl). subst how.
    exists s'. repeat split; [exact H1|exact H4|exact H6].
Defined.

(** ** [setup_signals] *)

Section SetupFacts.

Context (sigemptyset_ok : bool) (sigaction_ok : signo → bool).

(** The loop installs the handler for the signals up to the first one
    [sigaction] refuses and stops there. *)
Lemma install_handlers_spec (sigs installed : list signo) :
  ∃ k,
    (install_handlers sigaction_ok sigs installed).2
    = rev (take k sigs) ++ installed
    ∧ Forall (λ sig, sigaction_ok sig = true) (take k sigs)
    ∧ match sigs !! k with
      | Some sig =>
          sigaction_ok sig = false
          ∧ (install_handlers sigaction_ok sigs installed).1 = 1
      | None =>
          k = length sigs
          ∧ (install_handlers sigaction_ok sigs installed).1 = 0
      end.
Proof.
  revert installed. induction sigs as [|sig sigs IH]; intros installed.
  - exists 0%nat. simpl. by repeat split.
  - simpl. destruct (sigaction_ok sig) eqn:E.
    + destruct (IH (sig :: installed)) as (k & H1 & H2 & H3).
      exists (S k). simpl. rewrite H1, <- app_assoc. split; [done|].
      split; [by constructor|].
      destruct (sigs !! k); [done|]. destruct H3 as [-> ?]. done.
    + exists 0%nat. simpl. by repeat split.
Qed.

(** X12: [setup_signals] returns 0 exactly when [sigemptyset] and the three calls
    of [sigaction] succeed, and then the handler is installed for SIGINT,
    SIGCHLD and SIGQUIT, in this order; otherwise it returns 1. *)
Theorem setup_signals_result (installed : list signo) :
  let r := setup_signals sigemptyset_ok sigaction_ok installed in
  (r.1 = 0 ∨ r.1 = 1)
  ∧ (r.1 = 0 ↔
     sigemptyset_ok = true ∧ ∀ sig, sig ∈ signals → sigaction_ok sig = true)
  ∧ (r.1 = 0 → r.2 = [SIGQUIT; SIGCHLD; SIGINT] ++ installed).
Proof.
  assert (Hall : (∀ sig, sig ∈ signals → sigaction_ok sig = true)
                 ↔ sigaction_ok SIGINT = true ∧ sigaction_ok SIGCHLD = true
                   ∧ sigaction_ok SIGQUIT = true).
  { unfold signals. split.
    - intros H. repeat split; apply H; set_solver.
    - intros (? & ? & ?) sig Hin.
      repeat (apply elem_of_cons in Hin as [->|Hin]; [done|]).
      by apply elem_of_nil in Hin. }
  cbv zeta. rewrite Hall. clear Hall. unfold setup_signals, signals. simpl.
  destruct sigemptyset_ok, (sigaction_ok SIGINT), (sigaction_ok SIGCHLD),
    (sigaction_ok SIGQUIT); simpl; naive_solver.
Qed.

(** X13: A failing [sigaction] is not rolled back: when the call for the signal at
    index [k] of [signals] fails after the earlier ones succeeded,
    [setup_signals] returns 1 with the handler installed for the earlier
    signals and for no other.  A failing [sigemptyset] installs nothing. *)
Theorem setup_signals_no_rollback (installed : list signo) (k : nat)
    (sig : signo) :
  signals !! k = Some sig →
  sigaction_ok sig = false →
  Forall (λ sig', sigaction_ok sig' = true) (take k signals) →
  let r := setup_signals sigemptyset_ok sigaction_ok installed in
  r.1 = 1
  ∧ r.2 = (if sigemptyset_ok then rev (take k signals) else []) ++ installed.
Proof.
  intros Hk Hf Hall. unfold setup_signals.
  destruct sigemptyset_ok; [|done].
  destruct (install_handlers_spec signals installed) as (k' & H1 & H2 & H3).
  assert (k' = k) as ->.
  { destruct (decide (k' < k)%nat) as [Hlt|Hge].
    - destruct (signals !! k') as [sig'|] eqn:E.
      + destruct H3 as [H3 _].
        assert (sigaction_ok sig' = true) as Ht; [|congruence].
        eapply (proj1 (Forall_forall _ _) Hall).
        eapply list_elem_of_lookup_2. rewrite lookup_take_lt by done. exact E.
      + apply lookup_ge_None in E. apply lookup_lt_Some in Hk. lia.
    - destruct (decide (k < k')%nat) as [Hlt|Hge']; [|lia].
      assert (sigaction_ok sig = true) as Ht; [|congruence].
      eapply (proj1 (Forall_forall _ _) H2).
      eapply list_elem_of_lookup_2. rewrite lookup_take_lt by done. exact Hk. }
  rewrite Hk in H3. destruct H3 as [_ H3]. done.
Qed.

End SetupFacts.

Lemma setup_signals_no_rollback_witness :
  (setup_signals true refuse_sigquit []).1 = 1
  ∧ (setup_signals true refuse_sigquit []).2 = [SIGCHLD; SIGINT].
Proof.
  apply (setup_signals_no_rollback true refuse_sigquit [] 2 SIGQUIT).
  - reflexivity.
  - reflexivity.
  - repeat constructor.
Defined.

(** ** [free_cmd] and [free_cmd_wrapper] *)

Section CmdFacts.

Import Cmd.

Lemma free_strs_ok (i j : nat) (caps : list (option nat))
    (slots : list (option string)) :
  None ∈ slots →
  (∀ j', (j ≤ j' < j + length (strings_of slots))%nat →
         ∃ c, caps !! j' = Some (Some c) ∧ (i < c)%nat) →
  free_strs i j caps slots = Some (FreeStr <$> strings_of slots).
Proof.
  revert j. induction slots as [|[s|] slots IH]; intros j Hn Hc.
  - by apply elem_of_nil in Hn.
  - cbn [free_strs strings_of]. cbn [strings_of length] in Hc.
    destruct (Hc j ltac:(lia)) as (c & -> & Hlt).
    apply Nat.ltb_lt in Hlt. rewrite Hlt.
    rewrite IH; [done| |].
    + apply elem_of_cons in Hn as [?|?]; done.
    + intros j' Hj'. apply Hc. lia.
  - done.
Qed.

Lemma free_strs_out_of_bounds (i j : nat) (caps : list (option nat))
    (slots : list (option string)) :
  (length caps - j < length (strings_of slots))%nat →
  (∀ j', (j ≤ j' < length caps)%nat →
         ∃ c, caps !! j' = Some (Some c) ∧ (i < c)%nat) →
  free_strs i j caps slots = None.
Proof.
  revert j. induction slots as [|[s|] slots IH]; intros j Hl Hc.
  - done.
  - cbn [free_strs]. cbn [strings_of length] in Hl.
    destruct (decide (j < length caps)%nat) as [Hj|Hj].
    + destruct (Hc j ltac:(lia)) as (c & -> & Hlt).
      apply Nat.ltb_lt in Hlt. rewrite Hlt.
      rewrite IH; [done|lia|]. intros j' Hj'. apply Hc. lia.
    + rewrite (proj2 (lookup_ge_None caps j)) by lia. done.
  - simpl in Hl. lia.
Qed.

Lemma free_cmd_undefined (chain : list cmd) (c : cmd) :
  c ∈ chain → free_one c = None → free_cmd chain = None.
Proof.
  induction chain as [|c' chain IH]; intros Hin Hc.
  - by apply elem_of_nil in Hin.
  - simpl. apply elem_of_cons in Hin as [<-|Hin].
    + by rewrite Hc.
    + rewrite (IH Hin Hc). by destruct (free_one c').
Qed.

(** X14: A command with an environment override makes [free_cmd] read freed
    memory: in the pass over [env] the loop condition reads [cap] through
    the first entry of [a], the [argv] array that the pass before has
    freed. *)
Theorem free_cmd_env_use_after_free (chain : list cmd) (c : cmd)
    (s : string) :
  c ∈ chain →
  head (data (env c)) = Some (Some s) →
  free_cmd chain = None.
Proof.
  intros Hin Hs. apply (free_cmd_undefined chain c Hin).
  unfold free_one.
  destruct (free_strs 0 0 _ (data (argv c))); [|done]. simpl.
  revert Hs. destruct (data (env c)) as [|[s'|] rest]; done.
Qed.

(** X15: A command of three or more words makes [free_cmd] read past the end of
    the two-element array [a], which the loop over the strings indexes with
    the number of the string. *)
Theorem free_cmd_argv_out_of_bounds (chain : list cmd) (c : cmd) :
  c ∈ chain →
  (3 ≤ length (strings_of (data (argv c))))%nat →
  (0 < cap (argv c))%nat → (0 < cap (env c))%nat →
  free_cmd chain = None.
Proof.
  intros Hin Hs Ha He. apply (free_cmd_undefined chain c Hin).
  unfold free_one.
  rewrite (free_strs_out_of_bounds 0 0 _ (data (argv c)));
    [done|cbn [length]; lia|].
  intros [|[|j]] Hj; simpl in *; [eauto|eauto|lia].
Qed.

Lemma free_one_small (c : cmd) :
  small_cmd c → free_one c = Some (cmd_allocations c).
Proof.
  intros (Hn & Hl & He & Ha & Hc). unfold free_one.
  rewrite (free_strs_ok 0 0 _ (data (argv c))); [|done|].
  - simpl. revert He. by destruct (data (env c)) as [|[s'|] rest].
  - intros [|[|j]] Hj; simpl in *; [eauto|eauto|lia].
Qed.

Lemma free_cmd_small (chain : list cmd) :
  Forall small_cmd chain →
  free_cmd chain = Some (chain ≫= cmd_allocations).
Proof.
  induction 1 as [|c chain Hc _ IH]; [done|].
  simpl. rewrite free_one_small, IH by done. done.
Qed.

(** X16: For commands of at most two words and without environment overrides,
    [free_cmd_wrapper] is defined and frees each allocation once: the paths
    of the redirections that have one, then for each command of the chain,
    in order, its strings, its two arrays and the command, and the wrapper
    last. *)
Theorem free_cmd_wrapper_frees_all (w : cmd_wrapper) :
  Forall small_cmd (root w) →
  free_cmd_wrapper (Some w)
  = Some (omap (λ o, FreeStr <$> o) (io_paths w)
          ++ (root w ≫= cmd_allocations) ++ [FreeWrapper])
  ∧ free_cmd (root w) = Some (root w ≫= cmd_allocations).
Proof.
  intros H. unfold free_cmd_wrapper. rewrite free_cmd_small by done. done.
Qed.

End CmdFacts.

Lemma free_cmd_env_use_after_free_witness :
  Cmd.free_cmd [cmd_ls; cmd_with_env] = None.
Proof.
  apply (free_cmd_env_use_after_free _ cmd_with_env "FOO=1").
  - repeat constructor.
  - reflexivity.
Defined.

Lemma free_cmd_argv_out_of_bounds_witness :
  Cmd.free_cmd [cmd_three_words] = None.
Proof.
  apply (free_cmd_argv_out_of_bounds _ cmd_three_words).
  - repeat constructor.
  - simpl. lia.
  - simpl. lia.
  - simpl. lia.
Defined.

Lemma free_cmd_wrapper_frees_all_witness :
  Cmd.free_cmd_wrapper (Some wrapper_ls_wc)
  = Some [Cmd.FreeStr "out";
          Cmd.FreeStr "ls"; Cmd.FreeStr "-l";
          Cmd.FreeArray (Cmd.argv cmd_ls); Cmd.FreeArray (Cmd.env cmd_ls);
          Cmd.FreeCmd cmd_ls;
          Cmd.FreeStr "wc";
          Cmd.FreeArray (Cmd.argv cmd_wc); Cmd.FreeArray (Cmd.env cmd_wc);
          Cmd.FreeCmd cmd_wc;
          Cmd.FreeWrapper].
Proof.
  refine (proj1 (free_cmd_wrapper_frees_all wrapper_ls_wc _)).
  assert (Hs : ∀ c, c = cmd_ls ∨ c = cmd_wc → small_cmd c).
  { intros c [-> | ->]; (split; [repeat constructor|]);
      (split; [simpl; lia|]); (split; [reflexivity|]); simpl; lia. }
  apply Forall_cons; split; [apply Hs; by left|].
  apply Forall_cons; split; [apply Hs; by right|]. constructor.
Defined.

(** ** What a launch logs *)

Section TraceFacts.

Context (hd : macros) (os : os_env).

(** The log of a launch: first what the opening of the redirections logs,
    then what the loop over the processes logs, and, when the loop has come
    to its end, the hand-off to the job registry. *)
Lemma launch_job_trace (j : job) (w : world) (o : outcome) (j' : job)
    (w' : world) :
  launch_job hd os j w = (o, j', w') →
  ∃ opens body,
    Forall (λ e, io_event e = true) opens
    ∧ Forall (λ e, loop_event (g_interactive w) (bkg j) e = true) body
    ∧ ((trace w' = body ++ opens ++ trace w
        ∧ (o = Returned (M_FAILED_IO hd) ∨ o = Returned (M_FAILED_EXEC hd)
           ∨ ∀ c, o ≠ Returned c))
       ∨ (trace w' = handoff (g_interactive w) (bkg j) ++ body ++ opens
                     ++ trace w
          ∧ o = Returned 0)).
Proof.
  unfold launch_job. intros H.
  pose proof (open_io_extends os (io j) 0 default_fds w) as (opens & Eo & Ho).
  destruct (open_io os (io j) 0 default_fds w) as [[io_fd|] w1] eqn:Eio.
  2: { injection H as <- <- <-. exists opens, []. simpl in *.
       split; [done|]. split; [done|]. left. split; [done|]. by left. }
  apply open_io_quiet in Eio as (_ & _ & _ & _ & Hi & _).
  simpl in Eo.
  destruct (bind_io io_fd (procs j)) as [|p rest].
  { injection H as <- <- <-. exists opens, []. simpl.
    split; [done|]. split; [done|]. left. split; [done|].
    right. right. done. }
  destruct (launch_procs_extends hd os (bkg j) rest (pgid j) p w1)
    as [(body & Eb & Hb) Hint].
  destruct (launch_procs hd os (bkg j) (pgid j) p rest w1)
    as [[[o' ps] g] w2] eqn:El.
  simpl in Eb, Hint. rewrite Hi in Hb, Hint.
  exists opens, body. split; [done|]. split; [done|].
  destruct o' as [out|].
  - injection H as <- <- <-. left. rewrite Eb, Eo. split; [done|].
    destruct out as [c| | | |]; try (right; right; done).
    apply launch_procs_returned in El as ->. right. by left.
  - injection H as <- <- <-. right. split; [|done].
    specialize (Hint eq_refl).
    unfold dispose, handoff. simpl. rewrite Hint.
    destruct (g_interactive w); simpl; [|by rewrite Eb, Eo].
    destruct (bkg j); simpl; by rewrite Eb, Eo.
Qed.

(** X18: [launch_job] gives the terminal to no background job, and in a shell
    that is not interactive it calls neither [setpgid] nor [tcsetpgrp],
    however the launch ends and in whichever process. *)
Theorem launch_job_terminal_control (j : job) (w : world) (o : outcome)
    (j' : job) (w' : world) :
  launch_job hd os j w = (o, j', w') →
  ∃ new,
    trace w' = new ++ trace w
    ∧ Forall (λ e, match e with
                   | EvSetpgid _ _ => g_interactive w = true
                   | EvTcsetpgrp _ _ =>
                       g_interactive w = true ∧ bkg j = false
                   | _ => True
                   end) new.
Proof.
  intros H. apply launch_job_trace in H as (opens & body & Ho & Hb & H).
  assert (Hnew : Forall (λ e, match e with
                   | EvSetpgid _ _ => g_interactive w = true
                   | EvTcsetpgrp _ _ =>
                       g_interactive w = true ∧ bkg j = false
                   | _ => True
                   end) (body ++ opens)).
  { apply Forall_app. split.
    - eapply Forall_impl; [exact Hb|]. intros [] He; try done.
      simpl in He. apply andb_prop in He as [? He].
      split; [done|]. by destruct (bkg j).
    - eapply Forall_impl; [exact Ho|]. by intros []. }
  destruct H as [[E _]|[E _]].
  - exists (body ++ opens). by rewrite <- app_assoc.
  - exists (handoff (g_interactive w) (bkg j) ++ body ++ opens).
    rewrite <- !app_assoc. split; [done|].
    apply Forall_app. split; [|done].
    unfold handoff. destruct (g_interactive w), (bkg j); by repeat constructor.
Qed.

(** X19: The job is handed to the job registry exactly when [launch_job] returns
    0, as the last thing it does: [wait_for_job] in a shell that is not
    interactive, [send_to_background] and [format_job_info] for a background
    job, [send_to_foreground] otherwise.  A launch that ends in any other
    way calls none of them. *)
Theorem launch_job_handoff (j : job) (w : world) (o : outcome) (j' : job)
    (w' : world) :
  M_FAILED_IO hd ≠ 0 → M_FAILED_EXEC hd ≠ 0 →
  launch_job hd os j w = (o, j', w') →
  ∃ new,
    trace w'
    = match o with
      | Returned 0 => handoff (g_interactive w) (bkg j)
      | _ => []
      end ++ new ++ trace w
    ∧ Forall (λ e, is_registry e = false) new.
Proof.
  intros Hio Hex H.
  apply launch_job_trace in H as (opens & body & Ho & Hb & H).
  exists (body ++ opens). rewrite <- app_assoc. split.
  - destruct H as [[E Hout]|[E ->]]; [|done].
    destruct Hout as [->|[->|Hout]].
    + by destruct (M_FAILED_IO hd).
    + by destruct (M_FAILED_EXEC hd).
    + destruct o as [c| | | |]; try done. by destruct (Hout c).
  - apply Forall_app. split.
    + eapply Forall_impl; [exact Hb|]. by intros [].
    + eapply Forall_impl; [exact Ho|]. by intros [].
Qed.

(** X20: Every [open] of a launch comes before the first pipe, fork or builtin
    call: what the launch logs is the opening of the redirections, with the
    message and the [close] calls of a failed one, followed by events none
    of which is an [open]. *)
Theorem launch_job_opens_first (j : job) (w : world) (o : outcome) (j' : job)
    (w' : world) :
  launch_job hd os j w = (o, j', w') →
  ∃ opens later,
    trace w' = later ++ opens ++ trace w
    ∧ Forall (λ e, io_event e = true) opens
    ∧ Forall (λ e, is_open e = false) later.
Proof.
  intros H. apply launch_job_trace in H as (opens & body & Ho & Hb & H).
  assert (Hbody : Forall (λ e, is_open e = false) body).
  { eapply Forall_impl; [exact Hb|]. by intros []. }
  destruct H as [[E _]|[E _]].
  - by exists opens, body.
  - exists opens, (handoff (g_interactive w) (bkg j) ++ body).
    rewrite <- app_assoc. repeat split; try done.
    apply Forall_app. split; [|done].
    unfold handoff. destruct (g_interactive w), (bkg j);
      by repeat constructor.
Qed.

End TraceFacts.

(** ** What a launch leaves alone *)

Section FrameFacts.

Context (hd : macros) (os : os_env).

Lemma owned_from_take_sub (k : Z) (l : list Z) (n : nat) :
  owned_from k (take n l) ⊆ owned_from k l.
Proof.
  revert k n. induction l as [|x l IH]; intros k [|n]; simpl; try done.
  specialize (IH (k + 1) n). destruct (x =? k); set_solver.
Qed.

Lemma owned_from_insert_sub (k : Z) (tab : list Z) (i : nat) (v : Z) :
  owned_from k (<[i := v]> tab) ⊆ {[v]} ∪ owned_from k tab.
Proof.
  revert k i. induction tab as [|x tab IH]; intros k [|i]; simpl.
  - done.
  - done.
  - destruct (v =? k), (x =? k); set_solver.
  - specialize (IH (k + 1) i). destruct (x =? k); set_solver.
Qed.

Lemma sys_fork_open (w : world) : open_fds (sys_fork w).2 = open_fds w.
Proof. unfold sys_fork. by destruct (forks w) as [|[e|c|me] fs]. Qed.

Lemma exec_proc_open_mono (p : proc) (w : world) :
  open_fds w ⊆ open_fds (exec_proc hd os p w).2.
Proof.
  unfold exec_proc.
  assert (H : open_fds w
              ⊆ open_fds (dup_fds 0 (fds p) (apply_env os (env p) w))).
  { rewrite <- (apply_env_open os (env p) w) at 1.
    apply dup_fds_open. }
  destruct (argv p) as [|file args]; [done|].
  by destruct (_ =? 0).
Qed.

Lemma dispatch_open_mono (bg : bool) (g : Z) (p : proc) (w : world) :
  open_fds w ⊆ open_fds (dispatch hd os bg g p w).2.
Proof.
  unfold dispatch. destruct (find_node _ _ _) as [b|].
  - destruct (call_quiet hd os (cmd b) p w) as (Ho & _).
    destruct (call hd os (cmd b) p w) as [[v|c|] w1]; simpl in *;
      by rewrite Ho.
  - destruct (head (argv p)); [|done].
    pose proof (sys_fork_open w) as Hf.
    destruct (sys_fork w) as [pid_ w1]. simpl in Hf.
    destruct (pid_ <? 0); [simpl; by rewrite Hf|].
    destruct (Set_proc_group_spec hd bg pid_ g w1) as (Hs & _).
    destruct (Set_proc_group hd bg pid_ g w1) as [g1 w2]. simpl in Hs.
    destruct (pid_ =? 0).
    + pose proof (exec_proc_open_mono p (log EvResetIgnoredSignals w2)) as He.
      destruct (exec_proc hd os p (log EvResetIgnoredSignals w2)) as [o w4].
      simpl in *. rewrite <- Hf, <- Hs. done.
    + simpl. by rewrite Hs, Hf.
Qed.

Lemma launch_one_keeps (base : gset Z) (bg : bool) (g : Z) (p : proc)
    (w : world) :
  base ⊆ open_fds w → base ## owned (fds p) →
  base ⊆ open_fds (launch_one hd os bg g p w).2.
Proof.
  intros Hb Hd. unfold launch_one.
  pose proof (dispatch_open_mono bg g p w) as Hm.
  destruct (dispatch hd os bg g p w) as [[[o p'] g'] w1] eqn:E.
  destruct o as [o|]; simpl in *; [set_solver|].
  apply dispatch_continue in E as (Hf & _ & Ho & _).
  unfold fd_cleanup. rewrite fd_cleanup_from_open, Hf.
  pose proof (owned_from_take_sub 0 (fds p) 3). unfold owned in Hd.
  set_solver.
Qed.

Lemma launch_procs_keeps (base : gset Z) (bg : bool) (rest : list proc) :
  ∀ (g : Z) (p : proc) (w : world) (o : option outcome) (ps : list proc)
    (g' : Z) (w' : world),
    base ⊆ open_fds w → base ## owned_all (p :: rest) →
    launch_procs hd os bg g p rest w = (o, ps, g', w') →
    pipe_failures (trace w') = pipe_failures (trace w) →
    base ⊆ open_fds w'.
Proof.
  induction rest as [|q rest IH]; intros g p w o ps g' w' Hb Hd.
  - cbn [launch_procs].
    pose proof (launch_one_keeps base bg g p w Hb) as H1.
    destruct (launch_one hd os bg g p w) as [[[o1 p1] g1] w1].
    intros [= <- <- <- <-] _. simpl in *. apply H1. set_solver.
  - cbn [launch_procs]. cbn [owned_all] in Hd.
    destruct (pipe_fds os w) as [[r wr] w1] eqn:Ep.
    pose proof (launch_one_keeps base bg g (set_fd 1 wr p) w1) as H1.
    destruct (launch_one hd os bg g (set_fd 1 wr p) w1)
      as [[[o1 p1] g1] w2] eqn:E.
    assert (Hgo : pipe_failures (trace w1) = pipe_failures (trace w) →
                  base ⊆ open_fds w2
                  ∧ base ## owned_all (set_fd 0 r q :: rest)).
    { intros Hpf. apply (pipe_fds_ok os) in Ep; [|done].
      apply sys_pipe_spec in Ep as (Hr & Hwr & _ & Ho & _).
      pose proof (owned_from_insert_sub 0 (fds p) 1 wr) as Hs1.
      pose proof (owned_from_insert_sub 0 (fds q) 0 r) as Hs0.
      simpl in H1. unfold owned in *. cbn [owned_all]. simpl.
      split; [apply H1|]; unfold owned; set_solver. }
    pose proof (pipe_fds_failures _ _ _ _ _ Ep) as Hle1.
    pose proof (launch_one_failures _ _ _ _ _ _ _ _ _ _ E) as Hle2.
    destruct o1 as [out|].
    + intros [= <- <- <- <-] Hpf. apply Hgo. lia.
    + destruct (launch_procs hd os bg g1 (set_fd 0 r q) rest w2)
        as [[[o' ps'] g2] w3] eqn:El.
      pose proof (launch_procs_failures _ _ _ _ _ _ _ _ _ _ _ El) as Hle3.
      intros [= <- <- <- <-] Hpf.
      destruct Hgo as [Hb2 Hd2]; [lia|].
      eapply IH; [exact Hb2|exact Hd2|exact El|lia].
Qed.

Lemma open_io_keeps (base : gset Z) (specs : list io_spec) :
  ∀ (i : nat) (io_fd : list Z) (w : world),
    base ⊆ open_fds w → base ## owned io_fd →
    base ⊆ open_fds (open_io os specs i io_fd w).2
    ∧ ∀ l, (open_io os specs i io_fd w).1 = Some l → base ## owned l.
Proof.
  induction specs as [|s specs IH]; intros i io_fd w Hb Hd; simpl.
  { split; [done|]. by intros l [= <-]. }
  destruct (path s) as [pth|].
  - pose proof (sys_open_spec os pth (oflag s) FILE_MASK w) as Ho.
    destruct (sys_open os pth (oflag s) FILE_MASK w) as [fd w1].
    simpl in Ho.
    destruct (bool_decide (<[i:=fd]> io_fd !! i = Some (-1))) eqn:Ebd.
    + simpl. split; [|done].
      unfold fd_cleanup. rewrite fd_cleanup_from_open. simpl.
      rewrite take_insert_ge by lia.
      pose proof (owned_from_take_sub 0 io_fd i). unfold owned in Hd.
      destruct Ho as [[_ Ho]|(_ & _ & Ho)]; rewrite Ho; set_solver.
    + apply bool_decide_eq_false in Ebd.
      destruct Ho as [[-> Ho]|(Hpos & Hfresh & Ho)].
      * destruct (decide (i < length io_fd)%nat) as [Hlt|Hge].
        { by rewrite list_lookup_insert_eq in Ebd. }
        rewrite list_insert_ge by lia. apply IH; [by rewrite Ho|done].
      * apply IH; [rewrite Ho; set_solver|].
        pose proof (owned_from_insert_sub 0 io_fd i fd).
        unfold owned in *. set_solver.
  - destruct (bool_decide (io_fd !! i = Some (-1))).
    + simpl. split; [|done].
      unfold fd_cleanup. rewrite fd_cleanup_from_open. simpl.
      pose proof (owned_from_take_sub 0 io_fd i). unfold owned in Hd.
      set_solver.
    + by apply IH.
Qed.

(** X22: Provided no call of [pipe] fails on the way, [launch_job] closes
    no descriptor that was open when it was called, however the launch ends
    and in whichever process: what it closes it has opened itself.  (After a
    call of [pipe] that failed it closes whatever the unset array held.) *)
Theorem launch_job_keeps_descriptors (j : job) (w : world) (o : outcome)
    (j' : job) (w' : world) :
  Forall (λ p, fds p = default_fds) (procs j) →
  launch_job hd os j w = (o, j', w') →
  pipe_failures (trace w') = pipe_failures (trace w) →
  open_fds w ⊆ open_fds w'.
Proof.
  intros Hfds H Hpf. unfold launch_job in H.
  destruct (open_io_keeps (open_fds w) (io j) 0 default_fds w)
    as [Hk Hl]; [done|unfold owned; simpl; set_solver|].
  pose proof (open_io_quiet os (io j) 0 default_fds w) as Hq.
  pose proof (open_io_failures os (io j) 0 default_fds w) as Hle1.
  destruct (open_io os (io j) 0 default_fds w) as [[io_fd|] w1].
  2: { by injection H as <- <- <-. }
  specialize (Hl io_fd eq_refl).
  destruct (Hq _ _ eq_refl) as (_ & _ & _ & _ & _ & _ & _ & Hlen).
  specialize (Hlen io_fd eq_refl). simpl in Hk, Hlen, Hle1.
  destruct (procs j) as [|p0 ps0] eqn:Eps.
  { simpl in H. by injection H as <- <- <-. }
  destruct (bind_io_ready io_fd (p0 :: ps0)) as (p & rest & Eb & _ & Hown);
    [done|done|done|].
  rewrite Eb in H.
  destruct (launch_procs hd os (bkg j) (pgid j) p rest w1)
    as [[[o' ps] g] w2] eqn:El.
  pose proof (launch_procs_failures _ _ _ _ _ _ _ _ _ _ _ El) as Hle2.
  assert (Hp : pipe_failures (trace w2) = pipe_failures (trace w) →
               open_fds w ⊆ open_fds w2).
  { intros E2. eapply (launch_procs_keeps (open_fds w));
      [exact Hk|by rewrite Hown|exact El|lia]. }
  destruct o' as [out|]; injection H as <- <- <-; [by apply Hp|].
  rewrite dispose_failures in Hpf.
  rewrite (proj1 (dispose_open _ _)). by apply Hp.
Qed.

(** A builtin called by the loop leaves the process table alone and is no
    child. *)
Lemma dispatch_builtin (bg : bool) (g : Z) (p : proc) (w : world)
    (b : builtin) :
  find_node (head (argv p)) filter_command (g_lookup_table w) = Some b →
  let r := dispatch hd os bg g p w in
  quiet_step w r.2
  ∧ pid r.1.1.2 = pid p ∧ argv r.1.1.2 = argv p ∧ fds r.1.1.2 = fds p
  ∧ (r.1.1.1 = None ∨ r.1.1.1 = Some Unspecified
     ∨ ∃ c, r.1.1.1 = Some (ShellExit c)).
Proof.
  intros Hb. unfold dispatch. rewrite Hb.
  pose proof (call_quiet hd os (cmd b) p w) as Hq.
  destruct (call hd os (cmd b) p w) as [[v|c|] w1]; simpl in *;
    (split; [exact Hq|]); repeat split; eauto.
Qed.

Lemma fd_cleanup_procs (tab : list Z) (n : nat) (w : world) :
  let w' := fd_cleanup tab n w in
  pgrp w' = pgrp w ∧ forks w' = forks w ∧ self w' = self w
  ∧ g_lookup_table w' = g_lookup_table w
  ∧ forks_of (trace w') = forks_of (trace w).
Proof.
  destruct (fd_cleanup_from_keeps 0 tab n w) as (? & ? & ? & ? & ? & ? & ?).
  by repeat split.
Qed.

Lemma launch_procs_builtins (bg : bool) (rest : list proc) :
  ∀ (g : Z) (p : proc) (w : world),
    Forall (λ q, is_Some (find_node (head (argv q)) filter_command
                            (g_lookup_table w))) (p :: rest) →
    let r := launch_procs hd os bg g p rest w in
    pgrp r.2 = pgrp w ∧ forks r.2 = forks w ∧ self r.2 = self w
    ∧ forks_of (trace r.2) = forks_of (trace w)
    ∧ pid <$> r.1.1.2 = pid <$> (p :: rest)
    ∧ (r.1.1.1 = None ∨ r.1.1.1 = Some Unspecified
       ∨ ∃ c, r.1.1.1 = Some (ShellExit c)).
Proof.
  induction rest as [|q rest IH]; intros g p w Hall.
  - cbn [launch_procs]. unfold launch_one.
    apply Forall_cons in Hall as [[b Hb] _].
    destruct (dispatch_builtin bg g p w b Hb)
      as ((_ & H1 & H2 & H3 & H4 & _ & _ & H5) & Hpid & _ & _ & Ho).
    destruct (dispatch hd os bg g p w) as [[[o p'] g'] w1]. simpl in *.
    destruct o as [o|]; simpl.
    + repeat split; try done. by rewrite Hpid.
    + destruct (fd_cleanup_procs (fds p') 3 w1) as (F1 & F2 & F3 & _ & F5).
      rewrite F1, F2, F3, F5, Hpid. by repeat split.
  - cbn [launch_procs].
    destruct (pipe_fds os w) as [[r wr] w1] eqn:Ep.
    apply (pipe_fds_frame os true true) in Ep
      as (P1 & P2 & P3 & P4 & _ & _ & Ef & _).
    apply Forall_cons in Hall as [[b Hb] Hall].
    unfold launch_one.
    destruct (dispatch_builtin bg g (set_fd 1 wr p) w1 b)
      as ((_ & H1 & H2 & H3 & H4 & _ & _ & H5) & Hpid & _ & _ & Ho).
    { by rewrite P4. }
    destruct (dispatch hd os bg g (set_fd 1 wr p) w1) as [[[o p'] g'] w2].
    simpl in *. destruct o as [o|]; simpl.
    { rewrite H1, H2, H3, H5, Hpid, P1, P2, P3, Ef. by repeat split. }
    destruct (fd_cleanup_procs (fds p') 3 w2) as (F1 & F2 & F3 & F4 & F5).
    specialize (IH g' (set_fd 0 r q) (fd_cleanup (fds p') 3 w2)).
    destruct IH as (I1 & I2 & I3 & I4 & I5 & I6).
    { rewrite F4, H4, P4. apply Forall_cons in Hall as [Hq Hall].
      by constructor. }
    destruct (launch_procs hd os bg g' (set_fd 0 r q) rest
                (fd_cleanup (fds p') 3 w2)) as [[[o' ps] g''] w3].
    simpl in *.
    rewrite I1, I2, I3, I4, F1, F2, F3, F5, H1, H2, H3, H5, Hpid,
      P1, P2, P3, Ef.
    repeat split; try done. f_equal. exact I5.
Qed.

(** X23: A job made of builtins only runs in the shell: [launch_job] forks
    nothing, moves no process to another group, gives no process a pid and
    does not end in a child. *)
Theorem builtin_job_forks_nothing (j : job) (w : world) (o : outcome)
    (j' : job) (w' : world) :
  Forall (λ q, is_Some (find_node (head (argv q)) filter_command
                          (g_lookup_table w))) (procs j) →
  launch_job hd os j w = (o, j', w') →
  forks w' = forks w ∧ self w' = self w ∧ pgrp w' = pgrp w
  ∧ forks_of (trace w') = forks_of (trace w)
  ∧ pid <$> procs j' = pid <$> procs j
  ∧ (∀ args, o ≠ ChildExec args) ∧ (∀ c, o ≠ ChildExit c).
Proof.
  intros Hall H. unfold launch_job in H.
  pose proof (open_io_quiet os (io j) 0 default_fds w) as Hq.
  destruct (open_io os (io j) 0 default_fds w) as [[io_fd|] w1].
  2: { destruct (Hq _ _ eq_refl) as (Q1 & Q2 & Q3 & _ & _ & _ & Q7 & _).
       injection H as <- <- <-. by repeat split. }
  destruct (Hq _ _ eq_refl) as (Q1 & Q2 & Q3 & Q4 & _ & _ & Q7 & _).
  destruct (bind_io_keeps io_fd (procs j)) as (_ & Bp & Ba & _).
  destruct (bind_io io_fd (procs j)) as [|p rest] eqn:Eb.
  { injection H as <- <- <-. by repeat split. }
  destruct (launch_procs_builtins (bkg j) rest (pgid j) p w1)
    as (L1 & L2 & L3 & L4 & L5 & L6).
  { rewrite Q4. apply Forall_lookup. intros i q Hi.
    assert (Ha : (argv <$> procs j) !! i = Some (argv q)).
    { by rewrite <- Ba, list_lookup_fmap, Hi. }
    rewrite list_lookup_fmap in Ha.
    destruct (procs j !! i) as [q0|] eqn:E0; [|done].
    injection Ha as Ha.
    apply (proj1 (Forall_lookup _ _) Hall) in E0. by rewrite <- Ha. }
  destruct (launch_procs hd os (bkg j) (pgid j) p rest w1)
    as [[[o' ps] g] w2].
  simpl in *. rewrite <- Bp, <- L5.
  destruct o' as [out|]; injection H as <- <- <-.
  - rewrite L1, L2, L3, L4, Q1, Q2, Q3, Q7. repeat split; try done.
    + intros args ->. destruct L6 as [?|[?|[c ?]]]; done.
    + intros c ->. destruct L6 as [?|[?|[c' ?]]]; done.
  - destruct (dispose_open (with_procs ps g j) w2) as (_ & D2 & _ & D4).
    rewrite D2, D4, L1, L4, Q1, Q7. repeat split; try done.
    + rewrite <- Q2, <- L2. unfold dispose.
      destruct (negb _); [done|]. by destruct (bkg _).
    + rewrite <- Q3, <- L3. unfold dispose.
      destruct (negb _); [done|]. by destruct (bkg _).
Qed.

End FrameFacts.

(** ** In which process a launch ends *)

Section ChildOrShell.

Context (hd : macros) (os : os_env).

Lemma dispatch_child (bg : bool) (g : Z) (p : proc) (w : world)
    (o : outcome) (p' : proc) (g' : Z) (w' : world) :
  dispatch hd os bg g p w = (Some o, p', g', w') →
  child_or_shell hd [p] w w' o.
Proof.
  unfold dispatch. destruct (find_node _ _ _) as [b|] eqn:Eb.
  - destruct (call_quiet hd os (cmd b) p w) as (_ & _ & _ & Hs & _).
    destruct (call hd os (cmd b) p w) as [[v|c|] w1]; simpl in Hs;
      intros [= <- <- <- <-]; simpl; done.
  - destruct (head (argv p)) as [name|] eqn:Eh.
    2: { by intros [= <- <- <- <-]. }
    unfold sys_fork.
    destruct (forks w) as [|[e|c|me] fs] eqn:Ef; simpl.
    + by intros [= <- <- <- <-].
    + by intros [= <- <- <- <-].
    + destruct (Set_proc_group hd bg _ g _); done.
    + match goal with
      | |- context [Set_proc_group hd bg 0 g ?x] =>
          destruct (Set_proc_group_spec hd bg 0 g x) as (_ & _ & Hs & _);
          destruct (Set_proc_group hd bg 0 g x) as [g1 w2]
      end.
      simpl in Hs.
      destruct (exec_proc_quiet hd os p (log EvResetIgnoredSignals w2))
        as (_ & Hs' & _ & _ & Ho).
      destruct (exec_proc hd os p (log EvResetIgnoredSignals w2))
        as [o4 w4].
      simpl in Hs, Hs', Ho. intros [= <- <- <- <-].
      assert (Hme : ∃ me0, ForkChild me0 ∈ forks w ∧ self w4 = Z.pos me0).
      { exists me. rewrite Ef. split; [by left|]. by rewrite Hs', Hs. }
      destruct Ho as [->| ->].
      * intros E. rewrite E in Eh. discriminate Eh.
      * simpl. split; [|done]. exists p. split; [by left|].
        split; [done|]. rewrite Eh. exact Eb.
      * simpl. by split.
Qed.

Lemma launch_one_child (bg : bool) (g : Z) (p : proc) (w : world)
    (o : option outcome) (p' : proc) (g' : Z) (w' : world) :
  launch_one hd os bg g p w = (o, p', g', w') →
  match o with
  | Some out => child_or_shell hd [p] w w' out
  | None =>
      self w' = self w ∧ g_lookup_table w' = g_lookup_table w
      ∧ ∀ fr, fr ∈ forks w' → fr ∈ forks w
  end.
Proof.
  destruct o as [out|]; intros H.
  - unfold launch_one in H.
    destruct (dispatch hd os bg g p w) as [[[o1 p1] g1] w1] eqn:E.
    destruct o1; [|done]. injection H as -> <- <- <-.
    by eapply dispatch_child.
  - apply launch_one_continue in H as (w1 & Hd & ->).
    destruct (fd_cleanup_procs (fds p') 3 w1) as (_ & F2 & F3 & F4 & _).
    rewrite F2, F3, F4.
    apply dispatch_continue in Hd as (_ & _ & _ & Hs & Ht & _ & _ & Hc).
    split; [done|]. split; [done|].
    destruct Hc as [(bi & v & wx & _ & _ & _ & _ & _ & -> & _)
                   |(c & fs & _ & -> & -> & _)]; [done|].
    intros fr Hin. by right.
Qed.

Lemma child_or_shell_via (ps ps' : list proc) (w0 w w' : world)
    (o : outcome) :
  child_or_shell hd ps' w w' o →
  self w = self w0 → g_lookup_table w = g_lookup_table w0 →
  (∀ fr, fr ∈ forks w → fr ∈ forks w0) →
  (∀ q, q ∈ ps' → ∃ q0, q0 ∈ ps ∧ argv q0 = argv q) →
  child_or_shell hd ps w0 w' o.
Proof.
  intros H Hs Ht Hf Hp. destruct o as [c|c|args|c|]; simpl in *;
    try congruence.
  - destruct H as [(q & Hq & Ha & Hn) (me & Hme & Hself)].
    split; [|eauto]. destruct (Hp q Hq) as (q0 & Hq0 & Ha0).
    exists q0. split; [done|]. split; congruence.
  - destruct H as [-> (me & Hme & Hself)]. eauto.
Qed.

Lemma launch_procs_child (bg : bool) (rest : list proc) :
  ∀ (g : Z) (p : proc) (w : world),
    child_or_shell hd (p :: rest) w (launch_procs hd os bg g p rest w).2
      (default (Returned 0) (launch_procs hd os bg g p rest w).1.1.1).
Proof.
  induction rest as [|q rest IH]; intros g p w.
  - cbn [launch_procs].
    pose proof (launch_one_child bg g p w) as H1.
    destruct (launch_one hd os bg g p w) as [[[o p'] g'] w1].
    specialize (H1 _ _ _ _ eq_refl). simpl.
    destruct o as [out|]; simpl; [done|]. by destruct H1.
  - cbn [launch_procs].
    destruct (pipe_fds os w) as [[r wr] w1] eqn:Ep.
    apply (pipe_fds_frame os true true) in Ep as (_ & P2 & P3 & P4 & _).
    pose proof (launch_one_child bg g (set_fd 1 wr p) w1) as H1.
    destruct (launch_one hd os bg g (set_fd 1 wr p) w1)
      as [[[o p'] g'] w2].
    specialize (H1 _ _ _ _ eq_refl).
    destruct o as [out|].
    { simpl. eapply child_or_shell_via; [exact H1|done|done|by rewrite P2|].
      intros q0 Hq0. apply list_elem_of_singleton in Hq0 as ->.
      exists p. split; [by left|done]. }
    destruct H1 as (Hs & Ht & Hf).
    specialize (IH g' (set_fd 0 r q) w2).
    destruct (launch_procs hd os bg g' (set_fd 0 r q) rest w2)
      as [[[o' ps] g''] w3].
    simpl in *.
    eapply child_or_shell_via; [exact IH|congruence|congruence| |].
    + intros fr Hin. rewrite <- P2. by apply Hf.
    + intros q0 Hq0. apply elem_of_cons in Hq0 as [->|Hq0].
      * exists q. split; [right; by left|done].
      * exists q0. split; [right; by right|done].
Qed.

(** X24: [launch_job] comes back, or leaves through [exit], only in the process
    that called it.  In a forked child it ends in no other way than by
    executing the words of one of the job's processes, one that names no
    builtin, or by [_Exit] with [M_FAILED_EXEC]. *)
Theorem launch_job_child_or_shell (j : job) (w : world) (o : outcome)
    (j' : job) (w' : world) :
  launch_job hd os j w = (o, j', w') →
  match o with
  | ChildExec args =>
      (∃ q, q ∈ procs j ∧ argv q = args
            ∧ find_node (head args) filter_command (g_lookup_table w) = None)
      ∧ ∃ me, ForkChild me ∈ forks w ∧ self w' = Z.pos me
  | ChildExit c =>
      c = M_FAILED_EXEC hd
      ∧ ∃ me, ForkChild me ∈ forks w ∧ self w' = Z.pos me
  | _ => self w' = self w
  end.
Proof.
  intros H. change (child_or_shell hd (procs j) w w' o).
  unfold launch_job in H.
  pose proof (open_io_quiet os (io j) 0 default_fds w) as Hq.
  destruct (open_io os (io j) 0 default_fds w) as [[io_fd|] w1].
  2: { destruct (Hq _ _ eq_refl) as (_ & _ & Q3 & _).
       by injection H as <- <- <-. }
  destruct (Hq _ _ eq_refl) as (_ & Q2 & Q3 & Q4 & _).
  destruct (bind_io_keeps io_fd (procs j)) as (_ & _ & Ba & _).
  destruct (bind_io io_fd (procs j)) as [|p rest] eqn:Eb.
  { by injection H as <- <- <-. }
  pose proof (launch_procs_child (bkg j) rest (pgid j) p w1) as Hl.
  destruct (launch_procs hd os (bkg j) (pgid j) p rest w1)
    as [[[o' ps] g] w2].
  simpl in Hl.
  assert (Hvia : ∀ out w3, child_or_shell hd (p :: rest) w1 w3 out →
                           child_or_shell hd (procs j) w w3 out).
  { intros out w3 Hc.
    eapply child_or_shell_via; [exact Hc|done|done|by rewrite Q2|].
    intros q Hq0.
    assert (Ha : argv q ∈ argv <$> procs j).
    { rewrite <- Ba. apply list_elem_of_fmap. by exists q. }
    apply list_elem_of_fmap in Ha as (q0 & Ha & Hq1). by exists q0. }
  destruct o' as [out|]; injection H as <- <- <-.
  - by apply Hvia.
  - apply Hvia in Hl. simpl in *. rewrite <- Hl. unfold dispose.
    destruct (negb _); [done|]. by destruct (bkg _).
Qed.

End ChildOrShell.

(** ** What a failed fork leaves behind *)

Section ForkFailure.

Context (hd : macros) (os : os_env).

Lemma launch_procs_abort_pipe (base : gset Z) (b : bool) (rest : list proc) :
  ∀ (g : Z) (p : proc) (w : world) (c : Z) (ps : list proc) (g' : Z)
    (w' : world),
    base ⊆ open_fds w → base ## owned_all (p :: rest) →
    Forall (λ q, pid q = 0 ∧ completed q = false ∧ length (fds q) = 3%nat)
      (p :: rest) →
    launch_procs hd os b g p rest w = (Some (Returned c), ps, g', w') →
    pipe_failures (trace w') = pipe_failures (trace w) →
    ∃ (before : list proc) (q : proc) (later : list proc),
      ps = before ++ q :: later
      ∧ Forall launched before ∧ ¬ launched q
      ∧ match later with
        | q' :: _ =>
            ∃ r wr,
              fds q !! 1%nat = Some wr ∧ fds q' !! 0%nat = Some r
              ∧ r ≠ wr ∧ r ∈ open_fds w' ∧ wr ∈ open_fds w'
              ∧ r ∉ base ∧ wr ∉ base
        | [] => True
        end.
Proof.
  induction rest as [|q0 rest IH]; intros g p w c ps g' w' Hb Hd Hall.
  - cbn [launch_procs].
    destruct (launch_one hd os b g p w) as [[[o p1] g1] w1] eqn:E.
    intros [= -> <- <- <-] _.
    apply launch_one_returned, dispatch_returned in E as (_ & -> & _).
    apply Forall_cons in Hall as [(Hp & Hc & _) _].
    exists [], p, []. simpl. repeat split; try done.
    intros [?|?]; congruence.
  - cbn [launch_procs].
    destruct (pipe_fds os w) as [[r wr] w1] eqn:Ep.
    pose proof (pipe_fds_failures _ _ _ _ _ Ep) as Hle1.
    apply Forall_cons in Hall as [(Hp & Hc & Hlen) Hall].
    pose proof (launch_one_keeps hd os base b g (set_fd 1 wr p) w1) as Hk.
    pose proof (owned_from_insert_sub 0 (fds p) 1 wr) as Hs1.
    pose proof (owned_from_insert_sub 0 (fds q0) 0 r) as Hs0.
    cbn [owned_all] in Hd.
    destruct (launch_one hd os b g (set_fd 1 wr p) w1)
      as [[[[o|] p1] g1] w2] eqn:E.
    + pose proof (launch_one_failures _ _ _ _ _ _ _ _ _ _ E) as Hle2.
      intros [= -> <- <- <-] Hpf.
      apply (pipe_fds_ok os) in Ep; [|lia].
      apply sys_pipe_spec in Ep as (Hr & Hwr & Hne & Ho & _).
      apply launch_one_returned, dispatch_returned in E
        as (_ & -> & _ & _ & _ & Ho' & _).
      apply Forall_cons in Hall as [(_ & _ & Hlen0) _].
      exists [], (set_fd 1 wr p), (set_fd 0 r q0 :: rest). simpl.
      split; [done|]. split; [done|].
      split; [intros [?|?]; simpl in *; congruence|].
      exists r, wr. rewrite !list_lookup_insert_eq by lia.
      rewrite Ho', Ho. repeat split; try done; set_solver.
    + pose proof (launch_one_failures _ _ _ _ _ _ _ _ _ _ E) as Hle2.
      destruct (launch_procs hd os b g1 (set_fd 0 r q0) rest w2)
        as [[[o' ps'] g2] w3] eqn:El.
      pose proof (launch_procs_failures _ _ _ _ _ _ _ _ _ _ _ El) as Hle3.
      intros [= -> <- <- <-] Hpf.
      apply (pipe_fds_ok os) in Ep; [|lia].
      apply sys_pipe_spec in Ep as (Hr & Hwr & Hne & Ho & _).
      assert (Hb2 : base ⊆ open_fds w2).
      { apply Hk; [set_solver|]. simpl. unfold owned in *. set_solver. }
      apply launch_one_continue in E as (wx & Ed & _).
      apply dispatch_continue in Ed
        as (_ & _ & _ & _ & _ & _ & _ & Hcase).
      assert (Hl1 : launched p1).
      { destruct Hcase as [(bi & v & wy & _ & _ & -> & _)
                          |(cp & fs & _ & _ & _ & -> & _)].
        - by left.
        - right. simpl. lia. }
      eapply IH in El as (before & q & later & -> & Hbef & Hq & Hpipe);
        [|exact Hb2| | |lia].
      * exists (p1 :: before), q, later. simpl.
        split; [done|]. split; [by constructor|]. done.
      * cbn [owned_all]. simpl. unfold owned in *. set_solver.
      * apply Forall_cons in Hall as [(H1 & H2 & H3) Hall].
        constructor; [|done]. simpl. rewrite length_insert. done.
Qed.

(** X25: When [launch_job] returns after a failed fork, the processes of
    the job before the one whose fork failed are launched and that one is
    not.  If it has a successor and no call of [pipe] has failed on the way,
    the pipe between the two has been made, the two processes hold its ends,
    and both ends are left open in the shell. *)
Theorem fork_failure_leaves_pipe_open (j : job) (w : world) (c : Z)
    (j' : job) (w' : world) :
  Forall fresh_proc (procs j) →
  launch_job hd os j w = (Returned c, j', w') →
  c ≠ 0 → c ≠ M_FAILED_IO hd →
  pipe_failures (trace w') = pipe_failures (trace w) →
  ∃ (before : list proc) (q : proc) (later : list proc),
    procs j' = before ++ q :: later
    ∧ Forall launched before ∧ ¬ launched q
    ∧ match later with
      | q' :: _ =>
          ∃ r wr,
            fds q !! 1%nat = Some wr ∧ fds q' !! 0%nat = Some r
            ∧ r ≠ wr ∧ r ∈ open_fds w' ∧ wr ∈ open_fds w'
            ∧ r ∉ open_fds w ∧ wr ∉ open_fds w
      | [] => True
      end.
Proof.
  intros Hfresh H Hc0 Hcio Hpf. unfold launch_job in H.
  destruct (open_io_keeps os (open_fds w) (io j) 0 default_fds w)
    as [Hk Hl]; [done|unfold owned; simpl; set_solver|].
  pose proof (open_io_quiet os (io j) 0 default_fds w) as Hq.
  pose proof (open_io_failures os (io j) 0 default_fds w) as Hle1.
  destruct (open_io os (io j) 0 default_fds w) as [[io_fd|] w1].
  2: { injection H as <- <- <-. done. }
  specialize (Hl io_fd eq_refl).
  destruct (Hq _ _ eq_refl) as (_ & _ & _ & _ & _ & _ & _ & Hlen).
  specialize (Hlen io_fd eq_refl). simpl in Hk, Hlen, Hle1.
  destruct (procs j) as [|p0 ps0] eqn:Eps; [done|].
  assert (Hdef : Forall (λ p, fds p = default_fds) (p0 :: ps0)).
  { eapply Forall_impl; [exact Hfresh|]. by intros ? (? & _). }
  destruct (bind_io_ready io_fd (p0 :: ps0)) as (p & rest & Eb & _ & Hown);
    [done|done|done|].
  assert (Hall : Forall (λ q, pid q = 0 ∧ completed q = false
                              ∧ length (fds q) = 3%nat) (p :: rest)).
  { rewrite <- Eb. unfold bind_io.
    repeat apply Forall_alter.
    - eapply Forall_impl; [exact Hfresh|]. intros q (-> & ? & ?). done.
    - intros q _ (? & ? & ?). simpl. by rewrite length_insert.
    - intros q _ (? & ? & ?). simpl. by rewrite length_insert.
    - intros q _ (? & ? & ?). simpl. by rewrite length_insert. }
  rewrite Eb in H.
  destruct (launch_procs hd os (bkg j) (pgid j) p rest w1)
    as [[[[out|] ps] g] w2] eqn:El.
  2: { by injection H as <- <- <-. }
  injection H as -> <- <-.
  pose proof (launch_procs_failures _ _ _ _ _ _ _ _ _ _ _ El) as Hle2.
  eapply (launch_procs_abort_pipe (open_fds w)) in El
    as (before & q & later & -> & Hbef & Hq' & Hpipe);
    [|done|by rewrite Hown|done|lia].
  by exists before, q, later.
Qed.

End ForkFailure.

(** ** The files a launch opens *)

Section OpenFacts.

Context (hd : macros) (os : os_env).

Lemma opens_of_app (new tr : list event) :
  opens_of (new ++ tr) = opens_of tr ++ opens_of new.
Proof. unfold opens_of. by rewrite rev_app_distr, omap_app. Qed.

Lemma opens_of_none (new : list event) :
  Forall (λ e, is_open e = false) new → opens_of new = [].
Proof.
  unfold opens_of. intros H. apply Forall_rev in H. revert H.
  generalize (rev new). intros l H.
  induction H as [|e l He _ IH]; [done|].
  destruct e; try done; exact IH.
Qed.

Lemma opens_of_extends (P : event → bool) (w w' : world) :
  (∀ e, P e = true → is_open e = false) →
  extends P w w' → opens_of (trace w') = opens_of (trace w).
Proof.
  intros HP (new & -> & H). rewrite opens_of_app, (opens_of_none new).
  - by rewrite app_nil_r.
  - eapply Forall_impl; [exact H|]. done.
Qed.

Lemma redirections_snoc (specs : list io_spec) (k : nat) (s : io_spec) :
  redirections (take (S k) (s :: specs))
  = redirections [s] ++ redirections (take k specs).
Proof. unfold redirections. simpl. by destruct (path s). Qed.

Lemma open_io_opens (specs : list io_spec) :
  ∀ (i : nat) (io_fd : list Z) (w : world),
    ∃ k : nat,
      opens_of (trace (open_io os specs i io_fd w).2)
      = opens_of (trace w) ++ redirections (take k specs)
      ∧ (is_Some (open_io os specs i io_fd w).1 → k = length specs).
Proof.
  induction specs as [|s specs IH]; intros i io_fd w.
  { exists 0%nat. simpl. by rewrite app_nil_r. }
  cbn [open_io].
  assert (Hclose : ∀ tab n w0 msg,
            opens_of (trace (fd_cleanup tab n (Stopif_msg msg w0)))
            = opens_of (trace w0)).
  { intros tab n w0 msg.
    rewrite (opens_of_extends (λ e, is_close e) (Stopif_msg msg w0)).
    - unfold opens_of. simpl. rewrite omap_app. simpl. by rewrite app_nil_r.
    - by intros [].
    - by apply fd_cleanup_extends. }
  destruct (path s) as [pth|] eqn:Ep.
  - assert (Ho : opens_of (trace (sys_open os pth (oflag s) FILE_MASK w).2)
                 = opens_of (trace w) ++ [(pth, oflag s, FILE_MASK)]).
    { unfold sys_open. destruct (_ =? 0); [destruct (lowest_free _ _)|];
        simpl; unfold opens_of; simpl; by rewrite omap_app. }
    destruct (sys_open os pth (oflag s) FILE_MASK w) as [fd w1].
    simpl in Ho. destruct (bool_decide _).
    + exists 1%nat. simpl. rewrite Hclose, Ho. split.
      * unfold redirections. simpl. by rewrite Ep.
      * by intros [? ?].
    + destruct (IH (S i) (<[i:=fd]> io_fd) w1) as (k & E & Hk).
      exists (S k). rewrite E, Ho, redirections_snoc, <- app_assoc.
      split; [|simpl; intros; f_equal; auto].
      unfold redirections at 2. simpl. by rewrite Ep.
  - destruct (bool_decide _).
    + exists 0%nat. simpl. rewrite Hclose, app_nil_r. split; [done|].
      by intros [? ?].
    + destruct (IH (S i) io_fd w) as (k & E & Hk).
      exists (S k). rewrite E, redirections_snoc.
      split; [|simpl; intros; f_equal; auto].
      unfold redirections at 2. simpl. by rewrite Ep.
Qed.

(** X21: The files [launch_job] opens are the paths of the job's redirections,
    each once, in the order of the array, with the flags of the redirection
    and mode 0666, up to the first that cannot be opened; it opens all of
    them unless it returns [M_FAILED_IO], and nothing else. *)
Theorem launch_job_opens_redirections (j : job) (w : world) (o : outcome)
    (j' : job) (w' : world) :
  launch_job hd os j w = (o, j', w') →
  ∃ k : nat,
    opens_of (trace w') = opens_of (trace w) ++ redirections (take k (io j))
    ∧ (o ≠ Returned (M_FAILED_IO hd) → k = length (io j)).
Proof.
  unfold launch_job. intros H.
  destruct (open_io_opens (io j) 0 default_fds w) as (k & E & Hk).
  exists k. split.
  - destruct (open_io os (io j) 0 default_fds w) as [[io_fd|] w1].
    2: { by injection H as <- <- <-. }
    simpl in E. rewrite <- E.
    destruct (bind_io io_fd (procs j)) as [|p rest].
    { by injection H as <- <- <-. }
    destruct (launch_procs_extends hd os (bkg j) rest (pgid j) p w1)
      as [Hext _].
    eapply opens_of_extends in Hext; [|by intros []].
    destruct (launch_procs hd os (bkg j) (pgid j) p rest w1)
      as [[[o' ps] g] w2].
    simpl in Hext. destruct o' as [out|]; injection H as <- <- <-; [done|].
    rewrite <- Hext. unfold dispose.
    destruct (negb _); [|destruct (bkg _)]; unfold opens_of; simpl;
      rewrite ?omap_app; simpl; by rewrite ?app_nil_r.
  - intros Ho. apply Hk.
    destruct (open_io os (io j) 0 default_fds w) as [[io_fd|] w1]; [done|].
    by injection H as <- <- <-.
Qed.

End OpenFacts.

(** ** The [exit] builtin in a job *)

Section ExitFacts.

Context (hd : macros) (os : os_env).

Lemma fd_cleanup_from_exit_code (i : Z) (tab : list Z) (n : nat)
    (w : world) :
  g_exit_code (fd_cleanup_from i tab n w) = g_exit_code w.
Proof.
  revert i tab w. induction n as [|n IH]; intros i [|fd tab] w; simpl;
    try done.
  rewrite IH. by destruct (fd =? i).
Qed.

Lemma open_io_exit_code (specs : list io_spec) :
  ∀ (i : nat) (io_fd : list Z) (w : world),
    g_exit_code (open_io os specs i io_fd w).2 = g_exit_code w.
Proof.
  induction specs as [|s specs IH]; intros i io_fd w; simpl; [done|].
  destruct (path s) as [pth|].
  - assert (Ho : g_exit_code (sys_open os pth (oflag s) FILE_MASK w).2
                 = g_exit_code w).
    { unfold sys_open. destruct (_ =? 0); [destruct (lowest_free _ _)|];
        done. }
    destruct (sys_open os pth (oflag s) FILE_MASK w) as [fd w1].
    simpl in Ho. destruct (bool_decide _); simpl.
    + unfold fd_cleanup. by rewrite fd_cleanup_from_exit_code.
    + by rewrite IH.
  - destruct (bool_decide _); simpl.
    + unfold fd_cleanup. by rewrite fd_cleanup_from_exit_code.
    + by rewrite IH.
Qed.

Lemma call_exit_code (f : proc_func) (p : proc) (w : world) :
  g_exit_code (call hd os f p w).2 = g_exit_code w.
Proof.
  destruct f; simpl; [|done|].
  - unfold m_cd, sys_getcwd.
    destruct (argv p !! 1%nat) as [d|];
      [|destruct (environ w !! _) as [d|]; [|done]].
    all: cbv zeta.
    all: destruct (_ && _); [done|].
    all: destruct (os_getcwd_errno os (cwd w) =? 0).
    all: by destruct (os_chdir_errno os _ _ =? 0).
  - unfold m_help. by destruct (fds p !! 1%nat).
Qed.

(** What the loop does with one process when it ends in [exit], and when it
    goes on. *)
Lemma dispatch_exit (bg : bool) (g : Z) (p : proc) (w : world)
    (o : option outcome) (p' : proc) (g' : Z) (w' : world) :
  dispatch hd os bg g p w = (o, p', g', w') →
  match o with
  | Some (ShellExit c) =>
      c = g_exit_code w ∧ g_exit_code w' = g_exit_code w
      ∧ ∃ b, find_node (head (argv p)) filter_command (g_lookup_table w)
             = Some b ∧ cmd b = fn_m_exit
  | Some _ => True
  | None => g_exit_code w' = g_exit_code w
  end.
Proof.
  unfold dispatch. destruct (find_node _ _ _) as [b|] eqn:Eb.
  - pose proof (call_exit_code (cmd b) p w) as Hc.
    destruct (call hd os (cmd b) p w) as [[v|c|] w1] eqn:Ec; simpl in Hc;
      intros [= <- <- <- <-]; try done.
    assert (Hf : cmd b = fn_m_exit ∧ c = g_exit_code w).
    { destruct (cmd b); simpl in Ec.
      - unfold m_cd in Ec.
        destruct (argv p !! 1%nat) as [d|];
          [|destruct (environ w !! _) as [d|]; [|done]].
        all: cbv zeta in Ec.
        all: destruct (_ && _); [done|].
        all: by destruct (os_chdir_errno os _ _ =? 0).
      - unfold m_exit in Ec. by injection Ec as <- _.
      - unfold m_help in Ec. by destruct (fds p !! 1%nat). }
    destruct Hf as [Hf ->]. eauto.
  - destruct (head (argv p)) as [name|].
    2: { by intros [= <- <- <- <-]. }
    unfold sys_fork.
    destruct (forks w) as [|[e|c|me] fs]; simpl.
    + by intros [= <- <- <- <-].
    + by intros [= <- <- <- <-].
    + unfold Set_proc_group. simpl. destruct (g_interactive w).
      * destruct bg; by intros [= <- <- <- <-].
      * by intros [= <- <- <- <-].
    + match goal with
      | |- context [Set_proc_group hd bg 0 g ?x] =>
          destruct (Set_proc_group hd bg 0 g x) as [g1 w2]
      end.
      destruct (exec_proc_quiet hd os p (log EvResetIgnoredSignals w2))
        as (_ & _ & _ & _ & Ho).
      destruct (exec_proc hd os p (log EvResetIgnoredSignals w2))
        as [o4 w4] eqn:Ee.
      intros [= <- <- <- <-]. simpl in Ho.
      destruct o4; try done.
      unfold exec_proc in Ee. destruct (argv p); [done|].
      by destruct (_ =? 0).
Qed.

Lemma launch_one_exit (bg : bool) (g : Z) (p : proc) (w : world)
    (o : option outcome) (p' : proc) (g' : Z) (w' : world) :
  launch_one hd os bg g p w = (o, p', g', w') →
  match o with
  | Some (ShellExit c) =>
      c = g_exit_code w ∧ g_exit_code w' = g_exit_code w
      ∧ ∃ b, find_node (head (argv p)) filter_command (g_lookup_table w)
             = Some b ∧ cmd b = fn_m_exit
  | Some _ => True
  | None =>
      g_exit_code w' = g_exit_code w
      ∧ g_lookup_table w' = g_lookup_table w
  end.
Proof.
  intros H. pose proof (launch_one_child hd os bg g p w o p' g' w' H) as Hc.
  unfold launch_one in H.
  destruct (dispatch hd os bg g p w) as [[[o1 p1] g1] w1] eqn:E.
  apply dispatch_exit in E.
  destruct o1 as [out|]; injection H as <- <- <- <-; [done|].
  destruct Hc as (_ & Ht & _). split; [|done].
  unfold fd_cleanup. by rewrite fd_cleanup_from_exit_code.
Qed.

Lemma launch_procs_exit (bg : bool) (rest : list proc) :
  ∀ (g : Z) (p : proc) (w : world) (c : Z) (ps : list proc) (g' : Z)
    (w' : world),
    launch_procs hd os bg g p rest w = (Some (ShellExit c), ps, g', w') →
    c = g_exit_code w ∧ g_exit_code w' = g_exit_code w
    ∧ ∃ q b, q ∈ p :: rest
             ∧ find_node (head (argv q)) filter_command (g_lookup_table w)
               = Some b
             ∧ cmd b = fn_m_exit.
Proof.
  induction rest as [|q0 rest IH]; intros g p w c ps g' w'.
  - cbn [launch_procs].
    destruct (launch_one hd os bg g p w) as [[[o p1] g1] w1] eqn:E.
    intros [= -> <- <- <-]. apply launch_one_exit in E as (-> & He & b & Hb).
    split; [done|]. split; [done|]. exists p, b. split; [by left|done].
  - cbn [launch_procs].
    destruct (pipe_fds os w) as [[r wr] w1] eqn:Ep.
    apply (pipe_fds_frame os true true) in Ep
      as (_ & _ & _ & Ht1 & _ & He1 & _).
    destruct (launch_one hd os bg g (set_fd 1 wr p) w1)
      as [[[[o|] p1] g1] w2] eqn:E.
    + intros [= -> <- <- <-].
      apply launch_one_exit in E as (-> & He & b & Hb).
      rewrite He, He1, <- Ht1. split; [done|]. split; [done|].
      exists p, b. split; [by left|done].
    + apply launch_one_exit in E as (He & Ht).
      destruct (launch_procs hd os bg g1 (set_fd 0 r q0) rest w2)
        as [[[o' ps'] g2] w3] eqn:El.
      intros [= -> <- <- <-].
      apply IH in El as (-> & He3 & q & b & Hq & Hb & Hf).
      rewrite He3, He, He1. split; [done|]. split; [done|].
      rewrite Ht, Ht1 in Hb.
      apply elem_of_cons in Hq as [->|Hq].
      * exists q0, b. split; [right; by left|done].
      * exists q, b. split; [right; by right|done].
Qed.

(** X26: When a launch ends because a process of the job is the builtin [exit],
    the shell exits with the value [exit_code] had when [launch_job] was
    called, whatever the arguments of [exit] and whatever the processes
    before it in the job: the launch does not change [exit_code]. *)
Theorem exit_builtin_ends_shell (j : job) (w : world) (c : Z) (j' : job)
    (w' : world) :
  launch_job hd os j w = (ShellExit c, j', w') →
  c = g_exit_code w ∧ g_exit_code w' = g_exit_code w
  ∧ ∃ q b, q ∈ procs j
           ∧ find_node (head (argv q)) filter_command (g_lookup_table w)
             = Some b
           ∧ cmd b = fn_m_exit.
Proof.
  unfold launch_job. intros H.
  pose proof (open_io_exit_code (io j) 0 default_fds w) as He.
  pose proof (open_io_quiet os (io j) 0 default_fds w) as Hq.
  destruct (open_io os (io j) 0 default_fds w) as [[io_fd|] w1]; [|done].
  destruct (Hq _ _ eq_refl) as (_ & _ & _ & Ht & _). simpl in He.
  destruct (bind_io_keeps io_fd (procs j)) as (_ & _ & Ba & _).
  destruct (bind_io io_fd (procs j)) as [|p rest] eqn:Eb; [done|].
  destruct (launch_procs hd os (bkg j) (pgid j) p rest w1)
    as [[[[out|] ps] g] w2] eqn:El; [|done].
  injection H as -> <- <-.
  apply launch_procs_exit in El as (-> & He2 & q & b & Hq0 & Hb & Hf).
  rewrite He2, He. split; [done|]. split; [done|].
  assert (Ha : argv q ∈ argv <$> procs j).
  { rewrite <- Ba. apply list_elem_of_fmap. by exists q. }
  apply list_elem_of_fmap in Ha as (q1 & Ha & Hq1).
  exists q1, b. rewrite <- Ha, <- Ht. done.
Qed.

End ExitFacts.

(** ** Process groups without job control *)

Section BatchFacts.

Context (hd : macros) (os : os_env).

Lemma launch_one_same_group (bg : bool) (g : Z) (p : proc) (w : world)
    (o : option outcome) (p' : proc) (g1 : Z) (w1 : world) (G : Z) :
  g_interactive w = false → pgrp w !! self w = Some G → pid p = 0 →
  launch_one hd os bg g p w = (o, p', g1, w1) → in_shell o →
  g1 = g
  ∧ (∀ k, pgrp w !! k = Some G → pgrp w1 !! k = Some G)
  ∧ (pid p' ≠ 0 → pgrp w1 !! pid p' = Some G)
  ∧ (o = None → g_interactive w1 = false ∧ self w1 = self w).
Proof.
  intros Hi HG Hp H [->|[c ->]].
  - apply launch_one_continue in H as (wx & Hd & ->).
    destruct (fd_cleanup_from_keeps 0 (fds p') 3 wx)
      as (F1 & _ & F3 & _ & F5 & _).
    unfold fd_cleanup. rewrite F1, F3, F5.
    apply dispatch_continue in Hd
      as (_ & _ & _ & Hs & _ & Hi' & _ & Hcase).
    rewrite Hi in Hcase.
    destruct Hcase as [(bi & v & wy & _ & _ & -> & -> & _ & _ & -> & _)
                      |(cp & fs & _ & _ & _ & -> & _ & -> & ->)].
    + simpl. rewrite Hp. repeat split; try done; congruence.
    + unfold inherit_group. rewrite HG. simpl.
      split; [done|]. split; [|split].
      * intros k Hk. destruct (decide (k = Z.pos cp)) as [->|Hne].
        -- by rewrite lookup_insert_eq.
        -- by rewrite lookup_insert_ne.
      * intros _. by rewrite lookup_insert_eq.
      * intros _. split; congruence.
  - apply launch_one_returned, dispatch_returned in H
      as (_ & -> & -> & _ & _ & _ & -> & _).
    repeat split; try done.
Qed.

Lemma launch_procs_same_group (bg : bool) (rest : list proc) (G : Z) :
  ∀ (g : Z) (p : proc) (w : world) (o : option outcome) (ps : list proc)
    (g' : Z) (w' : world),
    g_interactive w = false → pgrp w !! self w = Some G →
    Forall (λ q, pid q = 0) (p :: rest) →
    launch_procs hd os bg g p rest w = (o, ps, g', w') → in_shell o →
    g' = g
    ∧ (∀ k, pgrp w !! k = Some G → pgrp w' !! k = Some G)
    ∧ (∀ q, q ∈ ps → pid q ≠ 0 → pgrp w' !! pid q = Some G).
Proof.
  induction rest as [|q0 rest IH]; intros g p w o ps g' w' Hi HG Hall.
  - cbn [launch_procs].
    destruct (launch_one hd os bg g p w) as [[[o1 p1] g1] w1] eqn:E.
    intros [= <- <- <- <-] Hin.
    apply Forall_cons in Hall as [Hp _].
    eapply launch_one_same_group in E as (-> & Hk & Hc & _); try done.
    split; [done|]. split; [done|].
    intros q Hq. apply list_elem_of_singleton in Hq as ->. done.
  - cbn [launch_procs].
    destruct (pipe_fds os w) as [[r wr] w1] eqn:Ep.
    apply (pipe_fds_frame os true true) in Ep
      as (P1 & _ & P3 & _ & P5 & _).
    apply Forall_cons in Hall as [Hp Hall].
    destruct (launch_one hd os bg g (set_fd 1 wr p) w1)
      as [[[[o1|] p1] g1] w2] eqn:E.
    + intros [= <- <- <- <-] Hin.
      eapply launch_one_same_group in E as (-> & Hk & Hc & _); try done;
        [|by rewrite P5|by rewrite P1, P3].
      rewrite P1 in Hk. split; [done|]. split; [done|].
      intros q Hq Hne. apply elem_of_cons in Hq as [->|Hq]; [by apply Hc|].
      exfalso. apply Hne.
      apply elem_of_cons in Hq as [->|Hq]; simpl.
      * by apply Forall_cons in Hall as [? _].
      * apply Forall_cons in Hall as [_ Hall].
        by apply (proj1 (Forall_forall _ _) Hall).
    + eapply launch_one_same_group in E as (-> & Hk & Hc & Hnone);
        try done; [|by rewrite P5|by rewrite P1, P3|by left].
      destruct (Hnone eq_refl) as [Hi2 Hs2].
      rewrite P1 in Hk.
      destruct (launch_procs hd os bg g (set_fd 0 r q0) rest w2)
        as [[[o' ps'] g2] w3] eqn:El.
      intros [= <- <- <- <-] Hin.
      eapply IH in El as (-> & Hk3 & Hq3); try done.
      * split; [done|]. split; [by auto|].
        intros q Hq Hne. apply elem_of_cons in Hq as [->|Hq]; [|by auto].
        apply Hk3. by apply Hc.
      * rewrite Hs2, P3. apply Hk. done.
      * apply Forall_cons in Hall as [? Hall]. by constructor.
Qed.

(** X27: In a shell that is not interactive [launch_job] forms no process group:
    when it returns, the [pgid] of the job is what it was and every child it
    has forked is in the group of the shell. *)
Theorem batch_job_stays_in_group (j : job) (w : world) (c : Z) (j' : job)
    (w' : world) (G : Z) :
  g_interactive w = false → pgrp w !! self w = Some G →
  Forall (λ q, pid q = 0) (procs j) →
  launch_job hd os j w = (Returned c, j', w') →
  pgid j' = pgid j
  ∧ pgrp w' !! self w = Some G
  ∧ ∀ q, q ∈ procs j' → pid q ≠ 0 → pgrp w' !! pid q = Some G.
Proof.
  intros Hi HG Hall. unfold launch_job.
  pose proof (open_io_quiet os (io j) 0 default_fds w) as Hq.
  destruct (open_io os (io j) 0 default_fds w) as [[io_fd|] w1].
  2: { destruct (Hq _ _ eq_refl) as (Q1 & _).
       intros [= ? <- <-]. rewrite Q1. split; [done|]. split; [done|].
       intros q Hin Hne. by apply (proj1 (Forall_forall _ _) Hall) in Hin. }
  destruct (Hq _ _ eq_refl) as (Q1 & _ & Q3 & _ & Q5 & _).
  assert (Hz : Forall (λ q, pid q = 0) (bind_io io_fd (procs j))).
  { destruct (bind_io_keeps io_fd (procs j)) as (_ & Hp & _).
    apply (Forall_fmap pid (λ x, x = 0)). rewrite Hp.
    by apply (Forall_fmap pid (λ x, x = 0)). }
  destruct (bind_io io_fd (procs j)) as [|p rest]; [done|].
  destruct (launch_procs hd os (bkg j) (pgid j) p rest w1)
    as [[[o' ps] g] w2] eqn:El.
  intros H.
  assert (Hin : in_shell o').
  { destruct o' as [out|]; [|by left]. injection H as -> _ _.
    right. eauto. }
  eapply (launch_procs_same_group _ _ G) in El as (-> & Hk & Hps);
    [| by rewrite Q5 | by rewrite Q1, Q3 | done | done].
  assert (Hself : pgrp w2 !! self w = Some G).
  { apply Hk. by rewrite Q1. }
  destruct o' as [out|]; injection H as ? <- <-; simpl; [done|].
  rewrite (proj1 (proj2 (dispose_open _ _))). done.
Qed.

End BatchFacts.

(** ** The further properties at work *)

Lemma launch_job_codes_witness :
  run_ls_no_fork.1.1 = Returned 0
  ∨ run_ls_no_fork.1.1 = Returned (M_FAILED_IO sample_hd)
  ∨ run_ls_no_fork.1.1 = Returned (M_FAILED_EXEC sample_hd).
Proof.
  destruct (launch_job_codes sample_hd sample_os job_ls_out world_no_fork
              2 run_ls_no_fork.1.2 run_ls_no_fork.2)
    as [H|[H|H]].
  - vm_compute. reflexivity.
  - discriminate H.
  - discriminate H.
  - right. right. vm_compute. reflexivity.
Defined.

Lemma launch_job_terminal_control_witness :
  ∃ new,
    trace run_bkg.2 = new ++ trace world_two_forks
    ∧ Forall (λ e, match e with EvTcsetpgrp _ _ => False | _ => True end) new.
Proof.
  destruct (launch_job_terminal_control sample_hd sample_os job_bkg
              world_two_forks run_bkg.1.1 run_bkg.1.2 run_bkg.2)
    as (new & E & H).
  - vm_compute. reflexivity.
  - exists new. split; [exact E|].
    eapply Forall_impl; [exact H|].
    intros [] He; try exact I. destruct He as [_ He]. discriminate He.
Defined.

Lemma launch_job_handoff_witness :
  ∃ new,
    trace run_pipeline.2
    = [EvSendToForeground false] ++ new ++ trace world_two_forks
    ∧ Forall (λ e, is_registry e = false) new.
Proof.
  apply (launch_job_handoff sample_hd sample_os job_pipeline world_two_forks
           (Returned 0) run_pipeline.1.2 run_pipeline.2).
  - discriminate.
  - discriminate.
  - vm_compute. reflexivity.
Defined.

Lemma launch_job_opens_first_witness :
  ∃ opens later,
    trace run_pipeline.2 = later ++ opens ++ trace world_two_forks
    ∧ Forall (λ e, io_event e = true) opens
    ∧ Forall (λ e, is_open e = false) later.
Proof.
  apply (launch_job_opens_first sample_hd sample_os job_pipeline
           world_two_forks (Returned 0) run_pipeline.1.2).
  vm_compute. reflexivity.
Defined.

Lemma launch_job_keeps_descriptors_witness :
  open_fds world_no_fork ⊆ open_fds run_ls_no_fork.2.
Proof.
  apply (launch_job_keeps_descriptors sample_hd sample_os job_ls_out
           world_no_fork run_ls_no_fork.1.1 run_ls_no_fork.1.2).
  - repeat constructor.
  - vm_compute. reflexivity.
  - vm_compute. reflexivity.
Defined.

Lemma builtin_job_forks_nothing_witness :
  forks run_builtins.2 = forks world_two_forks
  ∧ pid <$> procs run_builtins.1.2 = [0; 0].
Proof.
  destruct (builtin_job_forks_nothing sample_hd sample_os job_builtins
              world_two_forks run_builtins.1.1 run_builtins.1.2
              run_builtins.2)
    as (H1 & _ & _ & _ & H5 & _).
  - repeat constructor; by_computing.
  - vm_compute. reflexivity.
  - split; [exact H1|exact H5].
Defined.

Lemma launch_job_child_or_shell_witness :
  (∃ q, q ∈ procs job_bkg ∧ argv q = ["ls"%string]
        ∧ find_node (head ["ls"%string]) filter_command
            (g_lookup_table world_child) = None)
  ∧ ∃ me, ForkChild me ∈ forks world_child ∧ self run_child.2 = Z.pos me.
Proof.
  apply (launch_job_child_or_shell sample_hd sample_os job_bkg world_child
           (ChildExec ["ls"%string]) run_child.1.2 run_child.2).
  vm_compute. reflexivity.
Defined.

Lemma fork_failure_leaves_pipe_open_witness :
  ∃ (before : list proc) (q : proc) (later : list proc),
    procs run_bkg_no_fork.1.2 = before ++ q :: later
    ∧ Forall launched before ∧ ¬ launched q
    ∧ match later with
      | q' :: _ =>
          ∃ r wr,
            fds q !! 1%nat = Some wr ∧ fds q' !! 0%nat = Some r
            ∧ r ≠ wr ∧ r ∈ open_fds run_bkg_no_fork.2
            ∧ wr ∈ open_fds run_bkg_no_fork.2
            ∧ r ∉ open_fds world_no_fork ∧ wr ∉ open_fds world_no_fork
      | [] => True
      end.
Proof.
  apply (fork_failure_leaves_pipe_open sample_hd sample_os job_bkg
           world_no_fork 2).
  - repeat constructor.
  - vm_compute. reflexivity.
  - discriminate.
  - discriminate.
  - vm_compute. reflexivity.
Defined.

Lemma launch_job_opens_redirections_witness :
  ∃ k : nat,
    opens_of (trace run_pipeline.2)
    = opens_of (trace world_two_forks)
      ++ redirections (take k (io job_pipeline))
    ∧ (run_pipeline.1.1 ≠ Returned (M_FAILED_IO sample_hd) →
       k = length (io job_pipeline)).
Proof.
  apply (launch_job_opens_redirections sample_hd sample_os job_pipeline
           world_two_forks run_pipeline.1.1 run_pipeline.1.2 run_pipeline.2).
  vm_compute. reflexivity.
Defined.

Lemma exit_builtin_ends_shell_witness :
  run_exit.1.1 = ShellExit 7
  ∧ ∃ q b, q ∈ procs job_exit
           ∧ find_node (head (argv q)) filter_command
               (g_lookup_table world_batch) = Some b
           ∧ cmd b = fn_m_exit.
Proof.
  destruct (exit_builtin_ends_shell sample_hd sample_os job_exit world_batch
              7 run_exit.1.2 run_exit.2)
    as (_ & _ & H).
  - vm_compute. reflexivity.
  - split; [vm_compute; reflexivity|exact H].
Defined.

Lemma batch_job_stays_in_group_witness :
  pgid run_batch.1.2 = 0
  ∧ pgrp run_batch.2 !! 50 = Some 50
  ∧ ∀ q, q ∈ procs run_batch.1.2 → pid q ≠ 0 →
         pgrp run_batch.2 !! pid q = Some 50.
Proof.
  apply (batch_job_stays_in_group sample_hd sample_os job_pipeline
           world_batch 0 run_batch.1.2 run_batch.2 50).
  - reflexivity.
  - vm_compute. reflexivity.
  - repeat constructor.
  - vm_compute. reflexivity.
Defined.
